(** * PII detector: the classification-and-masking core of [binary.py]

    A shallow embedding of [PIIDetector] (recognizers, the two classifiers,
    the masking engine and [process_record]) together with the properties
    of the design document that concern it.

    Python strings are sequences of Unicode code points; the values of a
    decoded record are the scalars the design document admits: strings,
    integers, floats and [None]; a dictionary is an ordered association list
    with distinct keys, living in a store so that [record.copy()] and the
    in-place updates of the copy are visible; a call that may raise returns
    a [result]. *)

From Stdlib Require Import Ascii String.
From Stdlib Require Import ZArith NArith Lia.
From Stdlib Require DecimalPos DecimalFacts.
From stdpp Require Import base tactics option list.

Set Default Proof Using "Type".
Local Open Scope N_scope.

(** ** Python strings *)

Module Py.

  (** A character is a Unicode code point. *)
Abbreviation char := N.
Abbreviation str := (list char).

  (** The code points of an ASCII literal of the source. *)
Fixpoint lit (s : string) : str :=
    match s with
    | EmptyString => []
    | String a s' => N_of_ascii a :: lit s'
    end.

Definition digit_of (c : char) : bool := (48 <=? c) && (c <=? 57).
Definition upper_of (c : char) : bool := (65 <=? c) && (c <=? 90).
Definition lower_of (c : char) : bool := (97 <=? c) && (c <=? 122).
Definition alnum_of (c : char) : bool := digit_of c || upper_of c || lower_of c.
  (** ASCII white space of [str.split()]: TAB..CR, FS..US and SPACE. *)
Definition space_of (c : char) : bool :=
    ((9 <=? c) && (c <=? 13)) || ((28 <=? c) && (c <=? 32)).
Definition to_lower_of (c : char) : char := if upper_of c then c + 32 else c.
Definition to_upper_of (c : char) : char := if lower_of c then c - 32 else c.

Definition is_ascii (s : str) : Prop := Forall (λ c, c < 128) s.

  (** [str(n)] for an integer [n]. *)
Fixpoint uint_chars (u : Decimal.uint) : str :=
    match u with
    | Decimal.Nil => []
    | Decimal.D0 u => 48 :: uint_chars u
    | Decimal.D1 u => 49 :: uint_chars u
    | Decimal.D2 u => 50 :: uint_chars u
    | Decimal.D3 u => 51 :: uint_chars u
    | Decimal.D4 u => 52 :: uint_chars u
    | Decimal.D5 u => 53 :: uint_chars u
    | Decimal.D6 u => 54 :: uint_chars u
    | Decimal.D7 u => 55 :: uint_chars u
    | Decimal.D8 u => 56 :: uint_chars u
    | Decimal.D9 u => 57 :: uint_chars u
    end.

Definition str_of_int (z : Z) : str :=
    match Z.to_int z with
    | Decimal.Pos u => uint_chars u
    | Decimal.Neg u => 45 :: uint_chars u
    end.

  (** Slices: [s[:n]] and [s[-n:]] (for [n > 0]); both clamp, neither raises. *)
Definition slice_to (n : nat) (s : str) : str := take n s.
Definition slice_last (n : nat) (s : str) : str := drop (length s - n) s.

  (** ['X' * n]; the callers' [len(s) - k] is never negative where it is
      used, and a negative count gives the empty string like [0]. *)
Definition xs (n : nat) : str := replicate n 88.

  (** [s.split(sep)] for a one-character separator: the pieces between the
      occurrences, empty pieces included. *)
Fixpoint split_on (sep : char) (s : str) : list str :=
    match s with
    | [] => [[]]
    | c :: t =>
        if N.eqb c sep then [] :: split_on sep t
        else match split_on sep t with
             | p :: ps => (c :: p) :: ps
             | [] => [[c]]
             end
    end.

  (** [s.split()]: maximal runs of non-space characters. *)
Fixpoint split_ws (sp : char → bool) (s : str) : list str :=
    match s with
    | [] => []
    | c :: t =>
        if sp c then split_ws sp t
        else match t with
             | [] => [[c]]
             | d :: _ =>
                 if sp d then [c] :: split_ws sp t
                 else match split_ws sp t with
                      | p :: ps => (c :: p) :: ps
                      | [] => [[c]]
                      end
             end
    end.

  (** [sep.join(parts)]. *)
Fixpoint join (sep : str) (parts : list str) : str :=
    match parts with
    | [] => []
    | [p] => p
    | p :: ps => p ++ sep ++ join sep ps
    end.

  (** [c in s] and [s.count(c)]. *)
Definition contains (c : char) (s : str) : bool := existsb (N.eqb c) s.
Definition count (c : char) (s : str) : nat := length (List.filter (N.eqb c) s).

Definition str_eqb (a b : str) : bool := bool_decide (a = b).

End Py.

Notation "'py' s" := (Py.lit s%string) (at level 1, s at level 0, format "'py' s").

(** ** The Unicode database

    The character tables of the interpreter are not part of the program.
    They are taken as a parameter: the predicates behind [\d] and [\w],
    white space, and the two case mappings, with what the program relies
    on: their values on ASCII, and that a decimal digit is alphanumeric. *)

Class Unicode := {
  is_decimal : Py.char → bool;          (* category Nd: [\d], str.isdecimal *)
  is_alnum : Py.char → bool;            (* str.isalnum *)
  is_space : Py.char → bool;            (* str.isspace *)
  lower : Py.str → Py.str;              (* str.lower *)
  upper : Py.str → Py.str;              (* str.upper *)
  decimal_alnum c : is_decimal c = true → is_alnum c = true;
  decimal_ascii c : c < 128 → is_decimal c = Py.digit_of c;
  alnum_ascii c : c < 128 → is_alnum c = Py.alnum_of c;
  space_ascii c : c < 128 → is_space c = Py.space_of c;
  lower_ascii s : Py.is_ascii s → lower s = map Py.to_lower_of s;
  upper_ascii s : Py.is_ascii s → upper s = map Py.to_upper_of s;
}.

(** The tables cut down to the Basic Latin block: exact below 128, and
    nothing above it is a digit, a letter or a space. Every instance of
    [Unicode] agrees with it on ASCII text. *)
#[refine] Instance basic_latin : Unicode := {|
  is_decimal c := Py.digit_of c;
  is_alnum c := Py.alnum_of c;
  is_space c := Py.space_of c;
  lower s := map Py.to_lower_of s;
  upper s := map Py.to_upper_of s;
|}.
Proof.
  - intros c H. unfold Py.alnum_of. now rewrite H.
  - reflexivity.
  - reflexivity.
  - reflexivity.
  - reflexivity.
  - reflexivity.
Defined.

(** ** Regular expressions

    The fragment of [re] the patterns of [PIIDetector.__init__] are written
    in: literal characters, character sets, a bounded or unbounded repeat of
    a character set, the assertions [\b], [^] and [$], concatenation and
    alternation. No flag is set, so [\d] and [\w] are the Unicode classes
    and [^], [$] are not multi-line. *)

Module Re.

Inductive item :=
  | IChar (c : Py.char)                 (* a literal member *)
  | IRange (lo hi : Py.char)            (* lo-hi *)
  | IDigit                              (* \d *)
  | IWord.                              (* \w *)

Definition charset := list item.

Inductive regex :=
  | Eps
  | Chr (c : Py.char)
  | Set_ (cs : charset)
  | Rep (cs : charset) (lo : nat) (hi : option nat)  (* cs{lo,hi}; + is {1,} *)
  | WordB                               (* \b *)
  | Bol                                 (* ^ *)
  | Eol                                 (* $ *)
  | Cat (r1 r2 : regex)
  | Alt (r1 r2 : regex).

Definition cat (rs : list regex) : regex := foldr Cat Eps rs.
Definition word (s : Py.str) : regex := cat (Chr <$> s).
Fixpoint alt (rs : list regex) : regex :=
    match rs with
    | [] => Set_ []
    | [r] => r
    | r :: rs' => Alt r (alt rs')
    end.

  (** A position in the subject: the character just before it ([None] at
      the start of the string) and the text from it on. *)
Record cursor := Cursor { behind : option Py.char; ahead : Py.str }.

Section Matching.
Context {U : Unicode}.

Definition is_word (c : Py.char) : bool := is_alnum c || (c =? 95).

Definition in_item (i : item) (c : Py.char) : bool :=
      match i with
      | IChar d => c =? d
      | IRange lo hi => (lo <=? c) && (c <=? hi)
      | IDigit => is_decimal c
      | IWord => is_word c
      end.

Definition in_set (cs : charset) (c : Py.char) : bool :=
      existsb (λ i, in_item i c) cs.

Definition word_at (o : option Py.char) : bool :=
      match o with Some c => is_word c | None => false end.

    (** [\b]: exactly one side of the position is a word character. *)
Definition boundary (c : cursor) : bool :=
      xorb (word_at (behind c)) (word_at (head (ahead c))).

    (** [$]: the end of the string, or just before a final newline. *)
Definition at_end (c : cursor) : bool :=
      match ahead c with [] => true | [n] => n =? 10 | _ => false end.

    (** Every way of taking between [lo] and [hi] characters of [cs]. *)
Fixpoint rep (cs : charset) (lo : nat) (hi : option nat)
        (b : option Py.char) (s : Py.str) : list cursor :=
      (match lo with O => [Cursor b s] | S _ => [] end) ++
      match hi, s with
      | Some O, _ => []
      | _, [] => []
      | _, x :: t =>
          if in_set cs x then rep cs (pred lo) (pred <$> hi) (Some x) t else []
      end.

    (** The positions at which a match of [r] starting at [c] may end. The
        program only asks whether a match exists, which does not depend on
        the order in which the engine tries the alternatives. *)
Fixpoint run (r : regex) (c : cursor) : list cursor :=
      match r with
      | Eps => [c]
      | Chr d =>
          match ahead c with
          | x :: t => if x =? d then [Cursor (Some x) t] else []
          | [] => []
          end
      | Set_ cs =>
          match ahead c with
          | x :: t => if in_set cs x then [Cursor (Some x) t] else []
          | [] => []
          end
      | Rep cs lo hi => rep cs lo hi (behind c) (ahead c)
      | WordB => if boundary c then [c] else []
      | Bol => match behind c with None => [c] | Some _ => [] end
      | Eol => if at_end c then [c] else []
      | Cat r1 r2 => run r1 c ≫= run r2
      | Alt r1 r2 => run r1 c ++ run r2 c
      end.

Definition matches_at (r : regex) (c : cursor) : bool :=
      match run r c with [] => false | _ :: _ => true end.

    (** [bool(pattern.match(s))]: a match starting at the first character. *)
Definition re_match (r : regex) (s : Py.str) : bool :=
      matches_at r (Cursor None s).

Fixpoint cursors (b : option Py.char) (s : Py.str) : list cursor :=
      Cursor b s :: match s with [] => [] | x :: t => cursors (Some x) t end.

    (** [bool(re.search(pattern, s))]: a match starting anywhere. *)
Definition re_search (r : regex) (s : Py.str) : bool :=
      existsb (matches_at r) (cursors None s).

End Matching.

End Re.

(** ** Values, exceptions and dictionaries *)

Inductive exn := ValueError | OverflowError | IndexError | KeyError | SystemError.

Inductive result (A : Type) :=
| Ok (a : A)
| Raise (e : exn).
Arguments Ok {A} a.
Arguments Raise {A} e.

Instance result_ret : MRet result := λ A a, Ok a.
Instance result_bind : MBind result :=
  λ A B f m, match m with Ok a => f a | Raise e => Raise e end.

(** A float as the program can observe it: through [str], [int] and its
    truth value. The three non-finite floats are spelled out; a finite one
    is given by the three observations themselves (its [repr], its
    truncation toward zero, whether it differs from [0.0]), so that a
    statement about every [pyfloat] covers every float. *)
Inductive pyfloat :=
| FNan
| FInf (negative : bool)
| FFinite (repr : Py.str) (trunc : Z) (nonzero : bool).

(** The values of a decoded record. *)
Inductive pyvalue :=
| VNone
| VStr (s : Py.str)
| VInt (n : Z)
| VFloat (f : pyfloat).

Instance exn_eq_dec : EqDecision exn.
Proof. solve_decision. Defined.
Instance pyfloat_eq_dec : EqDecision pyfloat.
Proof. solve_decision. Defined.
Instance value_eq_dec : EqDecision pyvalue.
Proof. solve_decision. Defined.

(** [str(v)]. For an integer this is the text [str] returns when it
    returns: the interpreter refuses to convert an integer of more than
    4300 decimal digits (its default limit, which bounds the integers that
    [json.loads] reads just the same) and raises ValueError there. The
    properties about what raises and about every integer carry that bound
    as a hypothesis, [str_returns]. *)
Definition py_str (v : pyvalue) : Py.str :=
  match v with
  | VNone => py"None"
  | VStr s => s
  | VInt n => Py.str_of_int n
  | VFloat FNan => py"nan"
  | VFloat (FInf false) => py"inf"
  | VFloat (FInf true) => py"-inf"
  | VFloat (FFinite r _ _) => r
  end.

(** [isinstance(v, (int, float))] *)
Definition is_number (v : pyvalue) : bool :=
  match v with VInt _ | VFloat _ => true | _ => false end.

(** [int(v)] for a number [v]: a float that is not finite has no integer
    value, [int(nan)] raises ValueError and [int(inf)] OverflowError. *)
Definition py_int (v : pyvalue) : result Z :=
  match v with
  | VInt n => Ok n
  | VFloat (FFinite _ t _) => Ok t
  | VFloat FNan => Raise ValueError
  | VFloat (FInf _) => Raise OverflowError
  | VNone | VStr _ => Raise ValueError
  end.

(** The truth value of [v], as [and] and [if] take it. *)
Definition truthy (v : pyvalue) : bool :=
  match v with
  | VNone => false
  | VStr s => match s with [] => false | _ :: _ => true end
  | VInt n => negb (n =? 0)%Z
  | VFloat (FFinite _ _ nz) => nz
  | VFloat _ => true
  end.

(** [s[0]] and [s[-1]], which raise IndexError on the empty string. *)
Definition first_char (s : Py.str) : result Py.char :=
  match s with [] => Raise IndexError | c :: _ => Ok c end.
Definition last_char (s : Py.str) : result Py.char :=
  match last s with None => Raise IndexError | Some c => Ok c end.

(** [a or b] where the right operand is a call that may raise: it is only
    evaluated when the left one is false. *)
Definition or_else (a : bool) (b : result bool) : result bool :=
  if a then Ok true else b.

(** A [for] loop over a list that threads an accumulator. *)
Fixpoint for_each {A S} (body : S → A → result S) (s : S) (l : list A) : result S :=
  match l with
  | [] => Ok s
  | a :: l' => s' ← body s a; for_each body s' l'
  end.

(** A dictionary: its items in insertion order; the keys are distinct. *)
Definition dict := list (Py.str * pyvalue).

Definition keys (d : dict) : list Py.str := d.*1.
Definition well_formed (d : dict) : Prop := NoDup (keys d).

(** [k in d] *)
Definition dict_contains (k : Py.str) (d : dict) : bool :=
  existsb (λ kv, Py.str_eqb kv.1 k) d.

Fixpoint dict_find (k : Py.str) (d : dict) : option pyvalue :=
  match d with
  | [] => None
  | (k', v) :: d' => if Py.str_eqb k' k then Some v else dict_find k d'
  end.

(** [d[k]] *)
Definition dict_getitem (k : Py.str) (d : dict) : result pyvalue :=
  match dict_find k d with Some v => Ok v | None => Raise KeyError end.

(** [d.get(k)] *)
Definition dict_get (k : Py.str) (d : dict) : pyvalue :=
  default VNone (dict_find k d).

(** [d[k] = v]: an existing key keeps its place, a new one goes last. *)
Fixpoint dict_setitem (k : Py.str) (v : pyvalue) (d : dict) : dict :=
  match d with
  | [] => [(k, v)]
  | (k', v') :: d' =>
      if Py.str_eqb k' k then (k', v) :: d' else (k', v') :: dict_setitem k v d'
  end.

(** ** The store

    Dictionaries are objects: [record.copy()] makes a new one and
    [red[f] = ...] updates it in place. A store maps references to the
    dictionaries they denote; a computation threads the store and may
    raise. *)

Abbreviation loc := nat.
Abbreviation heap := (list dict).
Definition M (A : Type) : Type := heap → heap * result A.

Instance M_ret : MRet M := λ A a h, (h, Ok a).
Instance M_bind : MBind M :=
  λ A B f m h,
    match m h with
    | (h', Ok a) => f a h'
    | (h', Raise e) => (h', Raise e)
    end.

(** A call that does not touch the store. *)
Definition lift {A} (r : result A) : M A := λ h, (h, r).

(** The dictionary a reference denotes. A reference that denotes nothing
    does not arise in a run; it is kept apart as SystemError. *)
Definition read (l : loc) : M dict :=
  λ h, (h, match h !! l with Some d => Ok d | None => Raise SystemError end).

(** A new object, and the update of an existing one. *)
Definition alloc (d : dict) : M loc := λ h, (h ++ [d], Ok (length h)).
Definition write (l : loc) (d : dict) : M unit := λ h, (<[l := d]> h, Ok tt).

(** [d.copy()]: a new object with the same items. *)
Definition copy (l : loc) : M loc := d ← read l; alloc d.

(** [k in d], [d[k]] and [d[k] = v] on the object at [l]. *)
Definition contains (l : loc) (k : Py.str) : M bool :=
  d ← read l; lift (Ok (dict_contains k d)).
Definition getitem (l : loc) (k : Py.str) : M pyvalue :=
  d ← read l; lift (dict_getitem k d).
Definition setitem (l : loc) (k : Py.str) (v : pyvalue) : M unit :=
  d ← read l; write l (dict_setitem k v d).

(** A [for] loop whose body acts on the store. *)
Fixpoint for_in {A} (l : list A) (body : A → M unit) : M unit :=
  match l with
  | [] => mret tt
  | a :: l' => body a ;; for_in l' body
  end.

(** ** [class PIIDetector] *)

Module PIIDetector.
Import Re.

Definition ord (a : ascii) : Py.char := N_of_ascii a.

Definition digit09 : item := IRange (ord "0") (ord "9").
Definition upperAZ : item := IRange (ord "A") (ord "Z").
Definition loweraz : item := IRange (ord "a") (ord "z").
Definition plus (cs : charset) : regex := Rep cs 1 None.
Definition exactly (n : nat) (cs : charset) : regex := Rep cs n (Some n).
(** [\b ... \b] *)
Definition bounded (r : regex) : regex := cat [WordB; r; WordB].

(** *** [__init__]: the compiled patterns *)

(** [\b[6-9]\d{9}\b] *)
Definition phone_pattern : regex :=
  bounded (cat [Set_ [IRange (ord "6") (ord "9")]; exactly 9 [IDigit]]).

(** [\b\d{12}\b] *)
Definition aadhar_pattern : regex := bounded (exactly 12 [IDigit]).

(** [\b[A-Z]\d{7}\b] *)
Definition passport_pattern : regex :=
  bounded (cat [Set_ [upperAZ]; exactly 7 [IDigit]]).

Definition upi_handles : list Py.str :=
  [py"paytm"; py"ybl"; py"okaxis"; py"axisbank"; py"hdfcbank"; py"icici";
   py"sbi"; py"kotak"; py"phonepe"; py"ibl"; py"unionbank"; py"canara";
   py"pnb"; py"andhra"; py"federal"; py"karnataka"; py"punjab";
   py"maharashtra"; py"axis"; py"indianbank"; py"yesbank"].

(** [\b[\w\d]+@(paytm|ybl|...|yesbank)\b] *)
Definition upi_pattern : regex :=
  bounded (cat [plus [IWord; IDigit]; Chr (ord "@"); alt (word <$> upi_handles)]).

Definition email_local : charset :=
  [upperAZ; loweraz; digit09; IChar (ord "."); IChar (ord "_");
   IChar (ord "%"); IChar (ord "+"); IChar (ord "-")].
Definition email_domain : charset :=
  [upperAZ; loweraz; digit09; IChar (ord "."); IChar (ord "-")].

(** [\b[A-Za-z0-9._%+-]+@[A-Za-z0-9.-]+\.[A-Za-z]{2,}\b] *)
Definition email_pattern : regex :=
  bounded (cat [plus email_local; Chr (ord "@"); plus email_domain;
                Chr (ord "."); Rep [upperAZ; loweraz] 2 None]).

(** [^[A-Z][a-z]+ [A-Z][a-z]+$] *)
Definition name_pattern : regex :=
  cat [Bol; Set_ [upperAZ]; plus [loweraz]; Chr (ord " ");
       Set_ [upperAZ]; plus [loweraz]; Eol].

(** [\b(?:[0-9]{1,3}\.){3}[0-9]{1,3}\b], the group written out three
    times; no method uses it. *)
Definition ip_pattern : regex :=
  let octet := Rep [digit09] 1 (Some 3%nat) in
  let dotted := Cat octet (Chr (ord ".")) in
  bounded (cat [dotted; dotted; dotted; octet]).

(** The two patterns [has_address_components] searches for: [\d+] and
    [\b\d{6}\b]. *)
Definition numbers_pattern : regex := plus [IDigit].
Definition pin_pattern : regex := bounded (exactly 6 [IDigit]).

(** The field names the methods compare with. *)
Definition k_phone := py"phone".
Definition k_aadhar := py"aadhar".
Definition k_passport := py"passport".
Definition k_upi_id := py"upi_id".
Definition k_email := py"email".
Definition k_name := py"name".
Definition k_address := py"address".
Definition k_device_id := py"device_id".
Definition k_ip_address := py"ip_address".
Definition k_first_name := py"first_name".
Definition k_last_name := py"last_name".

Section Detector.
Context {U : Unicode}.

(** *** The recognizers *)

(** [if isinstance(v, (int, float)): v = str(int(v))] *)
Definition int_string (v : pyvalue) : result pyvalue :=
  if is_number v then n ← py_int v; Ok (VStr (Py.str_of_int n)) else Ok v.

Definition is_phone_number (v : pyvalue) : result bool :=
  v ← int_string v; Ok (re_match phone_pattern (py_str v)).

Definition is_aadhar (v : pyvalue) : result bool :=
  v ← int_string v; Ok (re_match aadhar_pattern (py_str v)).

Definition is_passport (v : pyvalue) : bool := re_match passport_pattern (py_str v).
Definition is_upi_id (v : pyvalue) : bool := re_match upi_pattern (py_str v).
Definition is_email (v : pyvalue) : bool := re_match email_pattern (py_str v).
Definition is_full_name (v : pyvalue) : bool := re_match name_pattern (py_str v).

Definition has_address_components (v : pyvalue) : bool :=
  let s := lower (py_str v) in
  let has_numbers := re_search numbers_pattern s in
  let has_comma := Py.contains (ord ",") s in
  let has_pin := re_search pin_pattern s in
  has_numbers && has_comma && has_pin.

(** *** Detection *)

(** One turn of the loop of [detect_standalone_pii] on the item [(k, val)],
    from [(pii_found, fields)] to their next values. *)
Definition standalone_body (acc : bool * list Py.str) (kv : Py.str * pyvalue)
    : result (bool * list Py.str) :=
  let '(pii_found, fields) := acc in
  let '(k, val) := kv in
  match val with
  | VNone => Ok (pii_found, fields)
  | _ =>
      let s := VStr (py_str val) in
      c1 ← or_else (Py.str_eqb k k_phone) (is_phone_number s);
      if (c1 : bool) then Ok (true, fields ++ [k]) else
      c2 ← or_else (Py.str_eqb k k_aadhar) (is_aadhar s);
      if (c2 : bool) then Ok (true, fields ++ [k]) else
      if Py.str_eqb k k_passport || is_passport s then Ok (true, fields ++ [k]) else
      if Py.str_eqb k k_upi_id || is_upi_id s then Ok (true, fields ++ [k]) else
      Ok (pii_found, fields)
  end.

Definition detect_standalone_pii (data : dict) : result (bool * list Py.str) :=
  for_each standalone_body (false, []) data.

(** The locals of [detect_combinatorial_pii] that its loop assigns. *)
Record signals := Signals {
  has_full_name : bool;
  has_email : bool;
  has_address : bool;
  has_device : bool;
  fields : list Py.str;
}.

Definition combinatorial_body (st : signals) (kv : Py.str * pyvalue) : result signals :=
  let '(k, val) := kv in
  match val with
  | VNone => Ok st
  | _ =>
      let s := VStr (py_str val) in
      if Py.str_eqb k k_name && is_full_name s then
        Ok (Signals true (has_email st) (has_address st) (has_device st)
                (fields st ++ [k]))
      else if Py.str_eqb k k_email && is_email s then
        Ok (Signals (has_full_name st) true (has_address st) (has_device st)
                (fields st ++ [k]))
      else if Py.str_eqb k k_address && has_address_components s then
        Ok (Signals (has_full_name st) (has_email st) true (has_device st)
                (fields st ++ [k]))
      else if bool_decide (k ∈ [k_device_id; k_ip_address]) then
        Ok (Signals (has_full_name st) (has_email st) (has_address st) true
                (fields st ++ [k]))
      else Ok st
  end.

Definition combinatorial_loop (data : dict) : result signals :=
  for_each combinatorial_body (Signals false false false false []) data.

(** [data.get('first_name') and data.get('last_name')], as a condition. *)
Definition name_parts (data : dict) : bool :=
  truthy (dict_get k_first_name data) && truthy (dict_get k_last_name data).

(** [sum(elements)] for a list of booleans. *)
Definition count_true (elements : list bool) : nat :=
  foldr (λ (b : bool) n, ((if b then 1 else 0) + n)%nat) 0%nat elements.

Definition detect_combinatorial_pii (data : dict)
    : result (bool * list Py.str * nat) :=
  st ← combinatorial_loop data;
  let has_name_parts := name_parts data in
  let fields :=
    if has_name_parts then fields st ++ [k_first_name; k_last_name]
    else fields st in
  let elements :=
    [has_full_name st; has_email st; has_address st; has_device st;
     has_name_parts] in
  let count := count_true elements in
  Ok (bool_decide (2 ≤ count)%nat, fields, count).

(** *** Masking *)

(** [(u[:1] + 'X' * (len(u) - 2) + u[-1:]) if len(u) > 2 else 'X' * len(u)] *)
Definition mask_local (u : Py.str) : Py.str :=
  if bool_decide (2 < length u)%nat
  then Py.slice_to 1 u ++ Py.xs (length u - 2) ++ Py.slice_last 1 u
  else Py.xs (length u).

(** The body shared by the [upi_id] and [email] branches. *)
Definition mask_at (s : Py.str) : Py.str :=
  match Py.split_on (ord "@") s with
  | [u; d] => mask_local u ++ py"@" ++ d
  | _ => Py.xs (length s)
  end.

(** [(p[0] + 'X' * (len(p) - 1)) if len(p) > 1 else 'X'] *)
Definition mask_initial (p : Py.str) : result Py.str :=
  if bool_decide (1 < length p)%nat
  then c ← first_char p; Ok (c :: Py.xs (length p - 1))
  else Ok py"X".

Fixpoint map_result {A B} (f : A → result B) (l : list A) : result (list B) :=
  match l with
  | [] => Ok []
  | a :: l' => b ← f a; bs ← map_result f l'; Ok (b :: bs)
  end.

Definition mask_value (key : Py.str) (value : pyvalue) : result pyvalue :=
  match value with
  | VNone => Ok VNone
  | _ =>
      let s := py_str value in
      s ← (if is_number value && bool_decide (key ∈ [k_phone; k_aadhar])
           then n ← py_int value; Ok (Py.str_of_int n)
           else Ok s);
      c1 ← or_else (Py.str_eqb key k_phone) (is_phone_number (VStr s));
      if (c1 : bool) then
        Ok (VStr (if bool_decide (10 ≤ length s)%nat
                    then Py.slice_to 2 s ++ Py.xs (length s - 4) ++ Py.slice_last 2 s
                    else Py.xs (length s)))
      else
      c2 ← or_else (Py.str_eqb key k_aadhar) (is_aadhar (VStr s));
      if (c2 : bool) then
        Ok (VStr (if bool_decide (12 ≤ length s)%nat
                    then Py.slice_to 3 s ++ Py.xs 6 ++ Py.slice_last 3 s
                    else Py.xs (length s)))
      else if Py.str_eqb key k_passport || is_passport (VStr s) then
        if bool_decide (3 ≤ length s)%nat
        then a ← first_char s; z ← last_char s;
             Ok (VStr (a :: Py.xs (length s - 2) ++ [z]))
        else Ok (VStr (Py.xs (length s)))
      else if Py.str_eqb key k_upi_id || is_upi_id (VStr s) then
        Ok (VStr (mask_at s))
      else if Py.str_eqb key k_email || is_email (VStr s) then
        Ok (VStr (mask_at s))
      else if Py.str_eqb key k_name && is_full_name (VStr s) then
        ps ← map_result mask_initial (Py.split_ws is_space s);
        Ok (VStr (Py.join py" " ps))
      else if bool_decide (key ∈ [k_first_name; k_last_name]) then
        r ← mask_initial s; Ok (VStr r)
      else if Py.str_eqb key k_address then
        Ok (VStr py"[REDACTED_ADDRESS]")
      else if bool_decide (key ∈ [k_device_id; k_ip_address]) then
        Ok (VStr (py"[REDACTED_" ++ upper key ++ py"]"))
      else Ok (VStr py"[REDACTED_PII]")
  end.

(** *** Per-record processing *)

(** [if f in red: red[f] = self.mask_value(f, red[f])] *)
Definition mask_field (red : loc) (f : Py.str) : M unit :=
  present ← contains red f;
  if (present : bool) then
    v ← getitem red f;
    m ← lift (mask_value f v);
    setitem red f m
  else mret tt.

Definition process_record (record : loc) : M (bool * loc) :=
  red ← copy record;
  data ← read record;
  '(has_standalone, stand_fields) ← lift (detect_standalone_pii data);
  data ← read record;
  '(has_combo, combo_fields, _) ← lift (detect_combinatorial_pii data);
  let is_pii := has_standalone || has_combo in
  (if is_pii then
     for_in stand_fields (mask_field red) ;;
     if has_combo then for_in combo_fields (mask_field red) else mret tt
   else mret tt) ;;
  mret (is_pii, red).

End Detector.
End PIIDetector.

(** ** [main]: the loop over the rows

    Of [main] the loop over the rows of the frame is modelled: what is
    appended to [out] for each row, and the error message printed for it.
    Reading the frame, choosing the JSON column, writing the result and
    the other messages are left out. The frame and the JSON codec are not
    part of the program and are taken as parameters: what a cell holds,
    the labels of the index, [json.loads] on the cell of the JSON column
    (for the payloads that decode to a record of scalars, or fail to
    decode) and [json.dumps] on a record. The JSON column is one of the
    columns of the frame, so [row[json_col]] is there for every row; the
    [record_id] column may be missing. *)

Module Main.
Import PIIDetector.

Section Rows.
Context {U : Unicode}.
Variable cell : Type.
Variable label : Type.
Variable json_loads : cell → result dict.
Variable json_dumps : dict → cell.

(** One row of [df.iterrows()]: its index label, [row['record_id']] when
    the frame has that column, and [row[json_col]]. *)
Record row := Row {
  row_index : label;
  row_record_id : option cell;
  row_json : cell;
}.

(** One dictionary appended to [out]; the record id is a cell of the
    frame or, when there is no such column, the index label. *)
Record out_row := OutRow {
  record_id : cell + label;
  redacted_data_json : cell;
  is_pii : bool;
}.

(** [print(f"Error processing record {record_id}: {e}")] *)
Record message := Error_processing {
  message_record_id : cell + label;
  message_exception : exn;
}.

(** [try: body except Exception as e: handler] *)
Definition try_except {A} (body : M A) (handler : exn → M A) : M A :=
  λ h, match body h with
       | (h', Ok a) => (h', Ok a)
       | (h', Raise e) => handler e h'
       end.

(** [row['record_id']], a KeyError without the column. *)
Definition row_getitem_record_id (r : row) : result cell :=
  match row_record_id r with Some c => Ok c | None => Raise KeyError end.

(** [row.get('record_id', idx)] *)
Definition row_get_record_id (r : row) : cell + label :=
  match row_record_id r with Some c => inl c | None => inr (row_index r) end.

(** The body of the loop, from [out] and the messages printed so far to
    their next values. The object [json.loads] returns is new in the
    store. *)
Definition loop_body (out : list out_row) (printed : list message) (r : row)
    : M (list out_row * list message) :=
  try_except
    (record_id ← lift (row_getitem_record_id r);
     let raw_json := row_json r in
     d ← lift (json_loads raw_json);
     data ← alloc d;
     '(is_pii, red_data) ← process_record data;
     red ← read red_data;
     mret (out ++ [OutRow (inl record_id) (json_dumps red) is_pii], printed))
    (λ e,
     let record_id := row_get_record_id r in
     let raw_json := row_json r in
     mret (out ++ [OutRow record_id raw_json false],
           printed ++ [Error_processing record_id e])).

(** [for idx, row in df.iterrows(): ...] *)
Fixpoint loop (rows : list row) (out : list out_row) (printed : list message)
    : M (list out_row * list message) :=
  match rows with
  | [] => mret (out, printed)
  | r :: rows' =>
      '(out', printed') ← loop_body out printed r; loop rows' out' printed'
  end.

(** [sum(1 for r in out if r['is_pii'])] *)
Definition pii_count (out : list out_row) : nat :=
  length (List.filter is_pii out).

End Rows.
End Main.


(** * The vocabulary of the properties

    What the program computes, written as functions and predicates of the
    record and of the text: the fields each classifier lists, the signals,
    the rule of the masking table a value falls under, the items of the
    redacted copy, what a pattern matches. The lemmas of the next part
    relate them to the code above. *)

Import PIIDetector.

Section Vocabulary.
Context {U : Unicode}.
Import Re.

(** ** The classifiers *)

(** The item is flagged by the standalone classifier: its value is not
    [None] and its name is one of the four field names or its text matches
    one of the four recognizers. *)
Definition flagged (kv : Py.str * pyvalue) : bool :=
  match kv.2 with
  | VNone => false
  | v =>
      let s := py_str v in
      Py.str_eqb kv.1 k_phone || Re.re_match phone_pattern s
      || (Py.str_eqb kv.1 k_aadhar || Re.re_match aadhar_pattern s)
      || (Py.str_eqb kv.1 k_passport || is_passport (VStr s))
      || (Py.str_eqb kv.1 k_upi_id || is_upi_id (VStr s))
  end.

Definition standalone_fields (data : dict) : list Py.str :=
  (List.filter flagged data).*1.

(** The four signals the loop of the combinatorial classifier looks for
    in one item. *)
Definition full_name_item (kv : Py.str * pyvalue) : bool :=
  match kv.2 with
  | VNone => false
  | v => Py.str_eqb kv.1 k_name && is_full_name (VStr (py_str v))
  end.
Definition email_item (kv : Py.str * pyvalue) : bool :=
  match kv.2 with
  | VNone => false
  | v => Py.str_eqb kv.1 k_email && is_email (VStr (py_str v))
  end.
Definition address_item (kv : Py.str * pyvalue) : bool :=
  match kv.2 with
  | VNone => false
  | v => Py.str_eqb kv.1 k_address && has_address_components (VStr (py_str v))
  end.
Definition device_item (kv : Py.str * pyvalue) : bool :=
  match kv.2 with
  | VNone => false
  | _ => bool_decide (kv.1 ∈ [k_device_id; k_ip_address])
  end.
Definition contributes (kv : Py.str * pyvalue) : bool :=
  full_name_item kv || email_item kv || address_item kv || device_item kv.

Definition is_device_key (k : Py.str) : Prop := k = k_device_id ∨ k = k_ip_address.

(** The five signals of a record, and what its contributing fields are. *)
Definition full_name_signal (data : dict) : bool := existsb full_name_item data.
Definition email_signal (data : dict) : bool := existsb email_item data.
Definition address_signal (data : dict) : bool := existsb address_item data.
Definition device_signal (data : dict) : bool := existsb device_item data.
Definition name_parts_signal (data : dict) : bool := name_parts data.

Definition signal_count (data : dict) : nat :=
  count_true [full_name_signal data; email_signal data; address_signal data;
              device_signal data; name_parts_signal data].

Definition combinatorial_fields (data : dict) : list Py.str :=
  (List.filter contributes data).*1 ++
  (if name_parts data then [k_first_name; k_last_name] else []).

(** The five signals, said of the record itself. A field counts when its
    value is not [None]; the first three look at the text of the value,
    the fourth at the name of the field only. *)
Definition full_name_present (data : dict) : Prop :=
  ∃ v, (k_name, v) ∈ data ∧ v ≠ VNone ∧ is_full_name (VStr (py_str v)) = true.
Definition email_present (data : dict) : Prop :=
  ∃ v, (k_email, v) ∈ data ∧ v ≠ VNone ∧ is_email (VStr (py_str v)) = true.
Definition address_present (data : dict) : Prop :=
  ∃ v, (k_address, v) ∈ data ∧ v ≠ VNone
       ∧ has_address_components (VStr (py_str v)) = true.
Definition device_present (data : dict) : Prop :=
  ∃ k v, (k, v) ∈ data ∧ is_device_key k ∧ v ≠ VNone.

(** A value that a condition takes as false: [None], the empty string, the
    integer zero and a float that is zero. *)
Definition falsy (v : pyvalue) : Prop :=
  v = VNone ∨ v = VStr [] ∨ v = VInt 0 ∨ ∃ r t, v = VFloat (FFinite r t false).

(** The fifth signal: [first_name] and [last_name] are both in the record
    with values that a condition takes as true. *)
Definition name_pair_present (data : dict) : Prop :=
  ∃ v w, dict_find k_first_name data = Some v
         ∧ dict_find k_last_name data = Some w
         ∧ ¬ falsy v ∧ ¬ falsy w.

(** The fifth signal in the words of the design document: both
    [first_name] and [last_name] present with non-empty, non-null values. *)
Definition spec_name_pair_present (data : dict) : Prop :=
  ∃ v w, dict_find k_first_name data = Some v
         ∧ dict_find k_last_name data = Some w
         ∧ v ≠ VNone ∧ v ≠ VStr [] ∧ w ≠ VNone ∧ w ≠ VStr [].

(** ** The redacted copy *)

(** What one turn of a masking loop does to the items of the copy. *)
Definition redact_field (d : dict) (f : Py.str) : result dict :=
  if dict_contains f d then
    v ← dict_getitem f d; m ← mask_value f v; Ok (dict_setitem f m d)
  else Ok d.

Definition redact (d : dict) (fs : list Py.str) : result dict :=
  for_each redact_field d fs.

(** The flag and the items of the redacted copy. *)
Definition redacted (r : dict) : result (bool * dict) :=
  let has_standalone := existsb flagged r in
  let has_combo := bool_decide (2 ≤ signal_count r)%nat in
  if has_standalone || has_combo then
    d ← redact r (standalone_fields r);
    d ← (if has_combo then redact d (combinatorial_fields r) else Ok d);
    Ok (true, d)
  else Ok (false, r).

(** The items of the copy when a masking loop stops: at its end, or where
    [mask_value] raises. *)
Fixpoint reached (d : dict) (fs : list Py.str) : dict :=
  match fs with
  | [] => d
  | f :: fs' =>
      match redact_field d f with
      | Ok d' => reached d' fs'
      | Raise _ => d
      end
  end.

Definition loop_outcome (d : dict) (fs : list Py.str) : result unit :=
  match redact d fs with Ok _ => Ok tt | Raise e => Raise e end.

(** The items of the copy when [process_record] stops. *)
Definition final_copy (r : dict) : dict :=
  let has_combo := bool_decide (2 ≤ signal_count r)%nat in
  if existsb flagged r || has_combo then
    let d1 := reached r (standalone_fields r) in
    match redact r (standalone_fields r) with
    | Ok _ => if has_combo then reached d1 (combinatorial_fields r) else d1
    | Raise _ => d1
    end
  else r.

(** The list the second loop of [process_record] runs over: empty when the
    combinatorial flag is false. *)
Definition applied_combo (r : dict) : list Py.str :=
  if bool_decide (2 ≤ signal_count r)%nat then combinatorial_fields r else [].

(** ** The masking table *)

(** The text a value is masked from: [str(value)], or [str(int(value))]
    for a number under the key [phone] or [aadhar]. *)
Definition string_form (key : Py.str) (v : pyvalue) : result Py.str :=
  if is_number v && bool_decide (key ∈ [k_phone; k_aadhar])
  then n ← py_int v; Ok (Py.str_of_int n)
  else Ok (py_str v).

Inductive rule :=
| RPhone | RAadhar | RPassport | RUpi | REmail | RName | RNamePart
| RAddress | RDevice | ROther.

(** The branch of the [if]/[elif] chain that is taken. *)
Definition dispatch (key s : Py.str) : rule :=
  if Py.str_eqb key k_phone || Re.re_match phone_pattern s then RPhone
  else if Py.str_eqb key k_aadhar || Re.re_match aadhar_pattern s then RAadhar
  else if Py.str_eqb key k_passport || is_passport (VStr s) then RPassport
  else if Py.str_eqb key k_upi_id || is_upi_id (VStr s) then RUpi
  else if Py.str_eqb key k_email || is_email (VStr s) then REmail
  else if Py.str_eqb key k_name && is_full_name (VStr s) then RName
  else if bool_decide (key ∈ [k_first_name; k_last_name]) then RNamePart
  else if Py.str_eqb key k_address then RAddress
  else if bool_decide (key ∈ [k_device_id; k_ip_address]) then RDevice
  else ROther.

(** The initial of a token followed by [X]s, without the indexing. *)
Definition initial_mask (p : Py.str) : Py.str :=
  match p with
  | c :: (_ :: _) as t => c :: Py.xs (length t)
  | _ => py"X"
  end.

(** What each branch returns. *)
Definition apply_rule (ρ : rule) (key s : Py.str) : Py.str :=
  match ρ with
  | RPhone =>
      if bool_decide (10 ≤ length s)%nat
      then Py.slice_to 2 s ++ Py.xs (length s - 4) ++ Py.slice_last 2 s
      else Py.xs (length s)
  | RAadhar =>
      if bool_decide (12 ≤ length s)%nat
      then Py.slice_to 3 s ++ Py.xs 6 ++ Py.slice_last 3 s
      else Py.xs (length s)
  | RPassport =>
      if bool_decide (3 ≤ length s)%nat
      then Py.slice_to 1 s ++ Py.xs (length s - 2) ++ Py.slice_last 1 s
      else Py.xs (length s)
  | RUpi | REmail => mask_at s
  | RName => Py.join py" " (initial_mask <$> Py.split_ws is_space s)
  | RNamePart => initial_mask s
  | RAddress => py"[REDACTED_ADDRESS]"
  | RDevice => py"[REDACTED_" ++ upper key ++ py"]"
  | ROther => py"[REDACTED_PII]"
  end.

(** The only call that can fail: [int(value)] on a float that is not
    finite, which [mask_value] makes under the keys [phone] and [aadhar]. *)
Definition int_fails (kv : Py.str * pyvalue) : bool :=
  match kv.2 with
  | VFloat FNan | VFloat (FInf _) => bool_decide (kv.1 ∈ [k_phone; k_aadhar])
  | _ => false
  end.

Definition convertible (d : dict) : Prop := Forall (λ kv, int_fails kv = false) d.

(** ** What a pattern matches *)

(** The position reached from one with [b] behind it by reading [t]. *)
Definition after (b : option Py.char) (t rest : Py.str) : cursor :=
  Cursor (match last t with Some x => Some x | None => b end) rest.

Definition within (hi : option nat) (n : nat) : Prop :=
  match hi with Some m => (n ≤ m)%nat | None => True end.

Definition all_in (cs : charset) (t : Py.str) : Prop :=
  Forall (λ x, in_set cs x = true) t.

(** [den r c c']: a match of [r] that starts at [c] ends at [c']. *)
Fixpoint den (r : regex) (c c' : cursor) : Prop :=
  match r with
  | Eps => c' = c
  | Chr d => ∃ t, ahead c = d :: t ∧ c' = Cursor (Some d) t
  | Set_ cs => ∃ x t, ahead c = x :: t ∧ in_set cs x = true ∧ c' = Cursor (Some x) t
  | Rep cs lo hi =>
      ∃ t rest, ahead c = t ++ rest ∧ all_in cs t
                ∧ (lo ≤ length t)%nat ∧ within hi (length t)
                ∧ c' = after (behind c) t rest
  | WordB => boundary c = true ∧ c' = c
  | Bol => behind c = None ∧ c' = c
  | Eol => at_end c = true ∧ c' = c
  | Cat r1 r2 => ∃ m, den r1 c m ∧ den r2 m c'
  | Alt r1 r2 => den r1 c c' ∨ den r2 c c'
  end.

(** ** The shapes the recognizers accept *)

(** The text is made of decimal digits. *)
Definition digits (t : Py.str) : Prop := Forall (λ c, is_decimal c = true) t.

(** The text does not go on with a word character: it is empty or starts
    with a character that [\w] does not match. *)
Definition ends_here (rest : Py.str) : Prop := word_at (head rest) = false.

(** One character of a range of ASCII letters or digits, then exactly [n]
    digits: the shape of the phone and of the passport pattern. *)
Definition initial_and_digits (lo hi : Py.char) (n : nat) (p : Py.str) : Prop :=
  ∃ d ds, p = d :: ds ∧ lo ≤ d ≤ hi ∧ length ds = n ∧ digits ds.

Definition phone_shape (p : Py.str) : Prop :=
  initial_and_digits (ord "6") (ord "9") 9 p.

Definition passport_shape (p : Py.str) : Prop :=
  initial_and_digits (ord "A") (ord "Z") 7 p.

Definition aadhar_shape (p : Py.str) : Prop := length p = 12%nat ∧ digits p.

Definition upi_shape (p : Py.str) : Prop :=
  ∃ loc h, p = loc ++ ord "@" :: h ∧ loc ≠ []
           ∧ Forall (λ c, is_word c = true) loc ∧ h ∈ upi_handles.

Definition email_shape (p : Py.str) : Prop :=
  ∃ loc dom tld,
    p = loc ++ ord "@" :: dom ++ ord "." :: tld
    ∧ loc ≠ [] ∧ all_in email_local loc
    ∧ dom ≠ [] ∧ all_in email_domain dom
    ∧ (2 ≤ length tld)%nat ∧ all_in [upperAZ; loweraz] tld.

Definition capitalized (u : Py.char) (l : Py.str) : Prop :=
  ord "A" ≤ u ≤ ord "Z" ∧ l ≠ [] ∧ Forall (λ c, ord "a" ≤ c ≤ ord "z") l.

Definition name_shape (p : Py.str) : Prop :=
  ∃ u1 l1 u2 l2,
    p = u1 :: l1 ++ ord " " :: u2 :: l2 ∧ capitalized u1 l1 ∧ capitalized u2 l2.

(** ** ASCII text *)

Definition ascii_cursor (c : cursor) : Prop :=
  (∀ x, behind c = Some x → x < 128) ∧ Py.is_ascii (ahead c).

(** The texts of a value are ASCII: the string itself, the [repr] of a
    finite float. The other texts are fixed or made of digits. *)
Definition ascii_value (v : pyvalue) : Prop :=
  match v with
  | VStr s => Py.is_ascii s
  | VFloat (FFinite r _ _) => Py.is_ascii r
  | _ => True
  end.

Definition ascii_record (d : dict) : Prop := Forall (λ kv, ascii_value kv.2) d.

(** ** Records of the scenarios *)

Definition phone_and_name : dict :=
  [(py"phone", VStr py"9876543210"); (py"name", VStr py"Ravi Kumar")].

Definition name_only : dict := [(py"name", VStr py"Ravi Kumar")].

Definition name_and_email : dict :=
  [(py"name", VStr py"Ravi Kumar");
   (py"email", VStr py"ravi.kumar@example.com")].

Definition null_device : dict := [(py"device_id", VNone)].
Definition device_and_ip : dict :=
  [(py"device_id", VStr py"dev-1"); (py"ip_address", VStr py"10.0.0.5")].

Definition infinite_phone : dict := [(py"phone", VFloat (FInf false))].

Definition phone_like_address : dict :=
  [(py"address", VStr py"9876543210, 560001"); (py"device_id", VStr py"x")].

Definition zero_first_name : dict :=
  [(py"first_name", VInt 0); (py"last_name", VStr py"Rao");
   (py"email", VStr py"a@b.co")].

End Vocabulary.

(** ** The vocabulary of the further properties *)

Section Further_vocabulary.
Context {U : Unicode}.
Import Re.

(** The field names the standalone classifier flags by name, and the names
    a contributing field of the combinatorial classifier can have. *)
Definition standalone_names : list Py.str :=
  [k_phone; k_aadhar; k_passport; k_upi_id].
Definition combinatorial_names : list Py.str :=
  [k_name; k_email; k_address; k_device_id; k_ip_address; k_first_name;
   k_last_name].

Definition placeholder_phone : dict := [(py"phone", VStr py"n/a")].

Definition null_and_phone : dict :=
  [(py"email", VNone); (py"phone", VInt 9876543210)].

(** The text before a position does not end in a word character: it is
    empty or its last character is one that [\w] does not match. *)
Definition begins_here (pre : Py.str) : Prop := word_at (last pre) = false.

(** A postal code: six decimal digits. *)
Definition pin_shape (p : Py.str) : Prop := length p = 6%nat ∧ digits p.

(** What the phone, aadhar and passport patterns have in common: a first
    character that is a decimal digit or an ASCII capital, then at least
    seven decimal digits. *)
Definition numeric_head (out : Py.str) : Prop :=
  ∃ c ds rest,
    out = c :: ds ++ rest ∧ length ds = 7%nat ∧ digits ds
    ∧ (is_decimal c = true ∨ ord "A" ≤ c ≤ ord "Z").

(** The text of a full name: two capitalized words, one space, and what
    [$] lets follow. *)
Definition full_name_text (u1 : Py.char) (l1 : Py.str) (u2 : Py.char)
    (l2 tail : Py.str) : Py.str :=
  u1 :: l1 ++ ord " " :: u2 :: l2 ++ tail.

(** A frame for the examples of the loop: a cell is the JSON of a record,
    given by the record it decodes to, or a text that is not JSON, on which
    [json.loads] raises a JSONDecodeError (a ValueError); the index labels
    are numbers. *)
Inductive sample_cell := Not_json (s : Py.str) | Payload (d : dict).

Definition sample_loads (c : sample_cell) : result dict :=
  match c with Payload d => Ok d | Not_json _ => Raise ValueError end.

Definition sample_dumps (d : dict) : sample_cell := Payload d.

Definition rows_without_record_id : list (Main.row sample_cell nat) :=
  [Main.Row _ _ 0%nat None (Payload phone_and_name);
   Main.Row _ _ 1%nat None (Payload name_only)].

Definition row_with_phone_and_name : Main.row sample_cell nat :=
  Main.Row _ _ 0%nat (Some (Not_json py"r1")) (Payload phone_and_name).

Definition row_with_infinite_phone : Main.row sample_cell nat :=
  Main.Row _ _ 0%nat (Some (Not_json py"r1")) (Payload infinite_phone).

(** [str] of an integer returns only below the interpreter's limit for the
    conversion of an [int] to text, 4300 decimal digits by default; above
    it the call raises ValueError. [json.loads] reads integers under the
    same limit, so the integers of a decoded record are below it. *)
Definition max_str_digits : Z := 4300.

Definition str_returns (v : pyvalue) : Prop :=
  match v with
  | VInt n => (Z.abs n < 10 ^ max_str_digits)%Z
  | _ => True
  end.

Definition str_returns_on (data : dict) : Prop :=
  Forall (λ kv, str_returns kv.2) data.

(** The number a text of ASCII digits writes in base ten. *)
Definition decimal_step (a : Z) (c : Py.char) : Z := (10 * a + (Z.of_N c - 48))%Z.
Definition decimal_value (s : Py.str) : Z := fold_left decimal_step s 0%Z.
Definition ascii_digits (s : Py.str) : Prop := Forall (λ c, 48 ≤ c ≤ 57) s.

(** The integers the phone pattern and the aadhar pattern accept: ten
    digits of which the first is 6 to 9, and twelve digits. *)
Definition phone_range (n : Z) : Prop := (6000000000 ≤ n ≤ 9999999999)%Z.
Definition twelve_digit_range (n : Z) : Prop :=
  (100000000000 ≤ n ≤ 999999999999)%Z.

Definition numeric_customer_id : dict := [(py"customer_id", VInt 9876543210)].

End Further_vocabulary.

(** * Properties *)

(** ** Dictionaries *)

Lemma str_eqb_eq (a b : Py.str) : Py.str_eqb a b = true ↔ a = b.
Proof. unfold Py.str_eqb. apply bool_decide_eq_true. Qed.

Lemma str_eqb_neq (a b : Py.str) : Py.str_eqb a b = false ↔ a ≠ b.
Proof. unfold Py.str_eqb. apply bool_decide_eq_false. Qed.

Lemma contains_find (k : Py.str) (d : dict) :
  dict_contains k d = true ↔ is_Some (dict_find k d).
Proof.
  induction d as [|[k' v] d IH]; simpl.
  - split; [done | intros [? ?]; done].
  - destruct (Py.str_eqb k' k); simpl; [split; eauto | exact IH].
Qed.

Lemma find_keys (k : Py.str) (d : dict) :
  is_Some (dict_find k d) ↔ k ∈ keys d.
Proof.
  unfold keys. induction d as [|[k' v] d IH]; simpl.
  - split; [intros [? ?]; done | intros H; inversion H].
  - destruct (Py.str_eqb k' k) eqn:E.
    + apply str_eqb_eq in E as ->. split; [intros _; left | eauto].
    + apply str_eqb_neq in E. rewrite IH. split; [by right |].
      intros H. apply elem_of_cons in H as [->|H]; done.
Qed.

Lemma find_elem (k : Py.str) (v : pyvalue) (d : dict) :
  dict_find k d = Some v → (k, v) ∈ d.
Proof.
  induction d as [|[k' v'] d IH]; simpl; [done |].
  destruct (Py.str_eqb k' k) eqn:E.
  - apply str_eqb_eq in E as ->. intros [= ->]. left.
  - intros H. right. auto.
Qed.

Lemma elem_find (k : Py.str) (v : pyvalue) (d : dict) :
  well_formed d → (k, v) ∈ d → dict_find k d = Some v.
Proof.
  unfold well_formed, keys. induction d as [|[k' v'] d IH]; simpl.
  - intros _ H. inversion H.
  - intros Hnd H. apply NoDup_cons in Hnd as [Hk Hnd].
    apply elem_of_cons in H as [[= -> ->]|H].
    + by rewrite (proj2 (str_eqb_eq k' k')).
    + destruct (Py.str_eqb k' k) eqn:E; [| by apply IH].
      apply str_eqb_eq in E as ->. exfalso. apply Hk.
      apply (list_elem_of_fmap_2 fst) in H. exact H.
Qed.

Lemma keys_setitem (k : Py.str) (v : pyvalue) (d : dict) :
  dict_contains k d = true → keys (dict_setitem k v d) = keys d.
Proof.
  unfold keys. induction d as [|[k' v'] d IH]; simpl; [done |].
  destruct (Py.str_eqb k' k); simpl; [done |]. intros H. f_equal. by apply IH.
Qed.

Lemma find_setitem (k k' : Py.str) (v : pyvalue) (d : dict) :
  dict_find k' (dict_setitem k v d) =
  if decide (k' = k) then Some v else dict_find k' d.
Proof.
  induction d as [|[k0 v0] d IH]; simpl.
  - unfold Py.str_eqb. destruct (decide (k' = k)) as [->|Hne].
    + by rewrite bool_decide_eq_true_2.
    + rewrite bool_decide_eq_false_2; [done | congruence].
  - destruct (Py.str_eqb k0 k) eqn:E; simpl.
    + apply str_eqb_eq in E as ->.
      destruct (decide (k' = k)) as [->|Hne].
      * by rewrite (proj2 (str_eqb_eq k k)).
      * by rewrite (proj2 (str_eqb_neq k k')).
    + apply str_eqb_neq in E.
      destruct (Py.str_eqb k0 k') eqn:E'; [| exact IH].
      apply str_eqb_eq in E' as ->. by rewrite decide_False.
Qed.

(** ** The classifiers, as functions of the record

    Both loops are folds that never raise: the recognizers are always
    called on [str(val)], a string. What they compute is read off the
    items of the record. *)

Section Classifiers.
Context {U : Unicode}.

Lemma is_phone_number_str (s : Py.str) :
  is_phone_number (VStr s) = Ok (Re.re_match phone_pattern s).
Proof. reflexivity. Qed.

Lemma is_aadhar_str (s : Py.str) :
  is_aadhar (VStr s) = Ok (Re.re_match aadhar_pattern s).
Proof. reflexivity. Qed.

Lemma standalone_body_eq (b : bool) (fs : list Py.str) (kv : Py.str * pyvalue) :
  standalone_body (b, fs) kv =
  Ok (if flagged kv then (true, fs ++ [kv.1]) else (b, fs)).
Proof.
  destruct kv as [k v]. unfold standalone_body, flagged.
  destruct v as [|s|n|f]; [reflexivity | | |];
    cbn [snd fst]; rewrite is_phone_number_str, is_aadhar_str;
    unfold or_else;
    destruct (Py.str_eqb k k_phone); cbn [orb mbind result_bind]; try reflexivity;
    destruct (Re.re_match phone_pattern _); cbn [orb mbind result_bind]; try reflexivity;
    destruct (Py.str_eqb k k_aadhar); cbn [orb mbind result_bind]; try reflexivity;
    destruct (Re.re_match aadhar_pattern _); cbn [orb mbind result_bind]; try reflexivity;
    destruct (Py.str_eqb k k_passport || is_passport _); cbn [orb]; try reflexivity;
    destruct (Py.str_eqb k k_upi_id || is_upi_id _); reflexivity.
Qed.

Lemma standalone_loop_eq (data : dict) (b : bool) (fs : list Py.str) :
  for_each standalone_body (b, fs) data =
  Ok (b || existsb flagged data, fs ++ (List.filter flagged data).*1).
Proof.
  revert b fs. induction data as [|kv data IH]; intros b fs; cbn [for_each].
  - simpl. by rewrite orb_false_r, app_nil_r.
  - rewrite standalone_body_eq. cbn [mbind result_bind].
    destruct (flagged kv) eqn:E; rewrite IH; simpl; rewrite E; simpl.
    + by rewrite orb_true_r, <- app_assoc.
    + done.
Qed.

Lemma detect_standalone_pii_eq (data : dict) :
  detect_standalone_pii data = Ok (existsb flagged data, standalone_fields data).
Proof. unfold detect_standalone_pii. by rewrite standalone_loop_eq. Qed.

Lemma combinatorial_body_eq (st : signals) (kv : Py.str * pyvalue) :
  combinatorial_body st kv =
  Ok (Signals (has_full_name st || full_name_item kv)
        (has_email st || email_item kv)
        (has_address st || address_item kv)
        (has_device st || device_item kv)
        (if contributes kv then fields st ++ [kv.1] else fields st)).
Proof.
  destruct kv as [k v], st as [a b c d fs].
  unfold combinatorial_body, contributes, full_name_item, email_item,
    address_item, device_item. cbn [fst snd has_full_name has_email has_address
    has_device fields].
  destruct v as [|s|n|f]; cbn [py_str].
  1: by rewrite !orb_false_r.
  all: destruct (Py.str_eqb k k_name) eqn:E1;
    [apply str_eqb_eq in E1 as ->; cbn -[is_full_name is_email has_address_components];
     destruct (is_full_name _); cbn -[is_full_name is_email has_address_components];
     rewrite ?orb_true_r, ?orb_false_r; try reflexivity;
     destruct (is_email _), (has_address_components _); reflexivity |].
  all: cbn [andb orb];
    destruct (Py.str_eqb k k_email) eqn:E2;
    [apply str_eqb_eq in E2 as ->; cbn -[is_full_name is_email has_address_components];
     destruct (is_email _); cbn -[is_full_name is_email has_address_components];
     rewrite ?orb_true_r, ?orb_false_r; try reflexivity;
     destruct (has_address_components _); reflexivity |].
  all: cbn [andb orb];
    destruct (Py.str_eqb k k_address) eqn:E3;
    [apply str_eqb_eq in E3 as ->; cbn -[is_full_name is_email has_address_components];
     destruct (has_address_components _); cbn -[is_full_name is_email has_address_components];
     rewrite ?orb_true_r, ?orb_false_r; reflexivity |].
  all: cbn [andb orb];
    destruct (bool_decide (k ∈ [k_device_id; k_ip_address]));
    rewrite ?orb_true_r, ?orb_false_r; reflexivity.
Qed.

Lemma combinatorial_loop_gen (data : dict) (st : signals) :
  for_each combinatorial_body st data =
  Ok (Signals (has_full_name st || existsb full_name_item data)
        (has_email st || existsb email_item data)
        (has_address st || existsb address_item data)
        (has_device st || existsb device_item data)
        (fields st ++ (List.filter contributes data).*1)).
Proof.
  revert st. induction data as [|kv data IH]; intros st; cbn [for_each].
  - simpl. rewrite !orb_false_r, app_nil_r. by destruct st.
  - rewrite combinatorial_body_eq. cbn [mbind result_bind]. rewrite IH.
    cbn [has_full_name has_email has_address has_device fields existsb List.filter].
    rewrite !orb_assoc. do 2 f_equal.
    destruct (contributes kv); simpl; [by rewrite <- app_assoc | done].
Qed.

Lemma combinatorial_loop_eq (data : dict) :
  combinatorial_loop data =
  Ok (Signals (full_name_signal data) (email_signal data) (address_signal data)
        (device_signal data) (List.filter contributes data).*1).
Proof. unfold combinatorial_loop. by rewrite combinatorial_loop_gen. Qed.

Lemma detect_combinatorial_pii_eq (data : dict) :
  detect_combinatorial_pii data =
  Ok (bool_decide (2 ≤ signal_count data)%nat, combinatorial_fields data,
      signal_count data).
Proof.
  unfold detect_combinatorial_pii. rewrite combinatorial_loop_eq.
  cbn [mbind result_bind has_full_name has_email has_address has_device fields].
  unfold combinatorial_fields, signal_count, name_parts_signal.
  destruct (name_parts data); [reflexivity | by rewrite app_nil_r].
Qed.

End Classifiers.

(** ** The processor, as a function of the record *)

Section Processing.
Context {U : Unicode}.

Lemma redact_field_keys (d d' : dict) (f : Py.str) :
  redact_field d f = Ok d' → keys d' = keys d.
Proof.
  unfold redact_field. destruct (dict_contains f d) eqn:E; [| by intros [= ->]].
  destruct (dict_getitem f d) as [v|]; [| done]. cbn [mbind result_bind].
  destruct (mask_value f v) as [m|]; [| done]. cbn [mbind result_bind].
  intros [= <-]. by apply keys_setitem.
Qed.

Lemma redact_keys (fs : list Py.str) (d d' : dict) :
  redact d fs = Ok d' → keys d' = keys d.
Proof.
  unfold redact. revert d. induction fs as [|f fs IH]; intros d; cbn [for_each].
  - by intros [= ->].
  - destruct (redact_field d f) as [d1|] eqn:E; [| done]. cbn [mbind result_bind].
    intros H. rewrite (IH _ H). by eapply redact_field_keys.
Qed.

Lemma bind_run {A B} (m : M A) (k : A → M B) (h : heap) :
  (m ≫= k) h =
  match m h with
  | (h', Ok a) => k a h'
  | (h', Raise e) => (h', Raise e)
  end.
Proof. reflexivity. Qed.

Lemma read_run (l : loc) (h : heap) (d : dict) :
  h !! l = Some d → read l h = (h, Ok d).
Proof. intros H. unfold read. by rewrite H. Qed.

Lemma contains_run (l : loc) (k : Py.str) (h : heap) (d : dict) :
  h !! l = Some d → contains l k h = (h, Ok (dict_contains k d)).
Proof. intros H. unfold contains. by rewrite bind_run, (read_run _ _ _ H). Qed.

Lemma getitem_run (l : loc) (k : Py.str) (h : heap) (d : dict) :
  h !! l = Some d → getitem l k h = (h, dict_getitem k d).
Proof. intros H. unfold getitem. by rewrite bind_run, (read_run _ _ _ H). Qed.

Lemma setitem_run (l : loc) (k : Py.str) (v : pyvalue) (h : heap) (d : dict) :
  h !! l = Some d → setitem l k v h = (<[l := dict_setitem k v d]> h, Ok tt).
Proof. intros H. unfold setitem. by rewrite bind_run, (read_run _ _ _ H). Qed.

Lemma redact_field_find (d d' : dict) (f : Py.str) :
  redact_field d f = Ok d' →
  (∀ k, k ≠ f → dict_find k d' = dict_find k d)
  ∧ (∀ v, dict_find f d = Some v →
       ∃ m, mask_value f v = Ok m ∧ dict_find f d' = Some m).
Proof.
  unfold redact_field, dict_getitem. destruct (dict_contains f d) eqn:E.
  - apply contains_find in E as [v Hv]. rewrite Hv. cbn [mbind result_bind].
    destruct (mask_value f v) as [m|] eqn:Em; [| done]. cbn [mbind result_bind].
    intros [= <-]. split.
    + intros k Hk. rewrite find_setitem. by rewrite decide_False.
    + intros v' [= <-]. exists m. split; [done |]. rewrite find_setitem.
      by rewrite decide_True.
  - intros [= <-]. split; [done |]. intros v Hv.
    assert (is_Some (dict_find f d)) as H%contains_find by eauto. congruence.
Qed.

(** A masking loop over distinct names masks the listed fields once and
    leaves the others as they are. *)
Lemma redact_find (fs : list Py.str) (d d' : dict) :
  NoDup fs → redact d fs = Ok d' →
  ∀ k v, dict_find k d = Some v →
    (k ∈ fs → ∃ m, mask_value k v = Ok m ∧ dict_find k d' = Some m)
    ∧ (k ∉ fs → dict_find k d' = Some v).
Proof.
  unfold redact. revert d. induction fs as [|f fs IH]; intros d Hnd; cbn [for_each].
  - intros [= ->] k v Hv. split; [intros H; inversion H | done].
  - apply NoDup_cons in Hnd as [Hf Hnd].
    destruct (redact_field d f) as [d1|] eqn:E; [| done]. cbn [mbind result_bind].
    intros Hd' k v Hv. apply redact_field_find in E as [Hother Hsame].
    destruct (decide (k = f)) as [->|Hne].
    + destruct (Hsame v Hv) as (m & Hm & Hm').
      destruct (IH d1 Hnd Hd' f m Hm') as [_ Hkeep]. split.
      * intros _. exists m. auto.
      * intros H. exfalso. apply H. left.
    + rewrite <- (Hother k Hne) in Hv.
      destruct (IH d1 Hnd Hd' k v Hv) as [Hin Hout]. split.
      * intros H. apply elem_of_cons in H as [?|H]; [done | auto].
      * intros H. apply Hout. intros ?. apply H. by right.
Qed.

(** Whatever the list, a field that is not on it keeps its value. *)
Lemma redact_frame (fs : list Py.str) (d d' : dict) (k : Py.str) :
  redact d fs = Ok d' → k ∉ fs → dict_find k d' = dict_find k d.
Proof.
  unfold redact. revert d. induction fs as [|f fs IH]; intros d; cbn [for_each].
  - by intros [= ->].
  - destruct (redact_field d f) as [d1|] eqn:E; [| done]. cbn [mbind result_bind].
    intros Hd' Hk. apply redact_field_find in E as [Hother _].
    rewrite (IH d1 Hd'), Hother; [done | |]; intros ?; apply Hk; subst.
    + left.
    + by right.
Qed.

Lemma mask_field_run (red : loc) (f : Py.str) (h : heap) (d : dict) :
  h !! red = Some d →
  mask_field red f h =
  match redact_field d f with
  | Ok d' => (<[red := d']> h, Ok tt)
  | Raise e => (h, Raise e)
  end.
Proof.
  intros Hd. unfold mask_field, redact_field.
  rewrite bind_run, (contains_run _ _ _ _ Hd).
  destruct (dict_contains f d).
  - rewrite bind_run, (getitem_run _ _ _ _ Hd).
    destruct (dict_getitem f d) as [v|e]; [| done]. cbn [mbind result_bind].
    rewrite bind_run. unfold lift.
    destruct (mask_value f v) as [m|e]; [| done]. cbn [mbind result_bind].
    by rewrite (setitem_run _ _ _ _ _ Hd).
  - by rewrite list_insert_id.
Qed.

Lemma reached_redact (fs : list Py.str) (d d' : dict) :
  redact d fs = Ok d' → reached d fs = d'.
Proof.
  unfold redact. revert d. induction fs as [|f fs IH]; intros d; cbn [for_each reached].
  - by intros [= ->].
  - destruct (redact_field d f) as [d1|]; [| done]. cbn [mbind result_bind]. apply IH.
Qed.

Lemma reached_keys (fs : list Py.str) (d : dict) : keys (reached d fs) = keys d.
Proof.
  revert d. induction fs as [|f fs IH]; intros d; cbn [reached]; [done |].
  destruct (redact_field d f) as [d1|] eqn:E; [| done].
  rewrite IH. by eapply redact_field_keys.
Qed.

Lemma mask_fields_run (red : loc) (fs : list Py.str) (h : heap) (d : dict) :
  h !! red = Some d →
  for_in fs (mask_field red) h = (<[red := reached d fs]> h, loop_outcome d fs).
Proof.
  unfold loop_outcome, redact. revert h d.
  induction fs as [|f fs IH]; intros h d Hd; cbn [for_in for_each reached].
  - by rewrite list_insert_id.
  - rewrite bind_run, (mask_field_run _ _ _ _ Hd).
    destruct (redact_field d f) as [d1|e] eqn:E; cbn [mbind result_bind].
    + assert (Hlt : (red < length h)%nat) by (by eapply lookup_lt_Some).
      rewrite (IH (<[red := d1]> h) d1) by (by apply list_lookup_insert_eq).
      by rewrite list_insert_insert_eq.
    + by rewrite list_insert_id.
Qed.

Lemma copy_run (l : loc) (h : heap) (d : dict) :
  h !! l = Some d → copy l h = (h ++ [d], Ok (length h)).
Proof. intros H. unfold copy. by rewrite bind_run, (read_run _ _ _ H). Qed.

Lemma insert_snoc (h : heap) (d d' : dict) :
  <[length h := d']> (h ++ [d]) = h ++ [d'].
Proof.
  rewrite insert_app_r_alt by lia. by rewrite Nat.sub_diag.
Qed.

Lemma lookup_snoc (h : heap) (d : dict) : (h ++ [d]) !! length h = Some d.
Proof. rewrite lookup_app_r by lia. by rewrite Nat.sub_diag. Qed.

(** Running [process_record] on the record at [l]: the store gains one
    object, the copy; what is returned or raised is read off [redacted]. *)
Lemma process_record_exact (l : loc) (h : heap) (r : dict) :
  h !! l = Some r →
  process_record l h =
  (h ++ [final_copy r],
   match redacted r with
   | Ok (b, _) => Ok (b, length h)
   | Raise e => Raise e
   end).
Proof.
  intros Hl. unfold process_record, redacted, final_copy.
  assert (Hl' : (h ++ [r]) !! l = Some r).
  { rewrite lookup_app_l; [done | by eapply lookup_lt_Some]. }
  rewrite bind_run, (copy_run _ _ _ Hl).
  rewrite bind_run, (read_run _ _ _ Hl').
  rewrite bind_run. unfold lift at 1. rewrite detect_standalone_pii_eq.
  rewrite bind_run, (read_run _ _ _ Hl').
  rewrite bind_run. unfold lift at 1. rewrite detect_combinatorial_pii_eq.
  rewrite bind_run. cbv zeta.
  destruct (existsb flagged r || bool_decide (2 ≤ signal_count r)%nat) eqn:Epii;
    [| reflexivity].
  rewrite bind_run, (mask_fields_run _ _ _ _ (lookup_snoc h r)), insert_snoc.
  unfold loop_outcome.
  destruct (redact r (standalone_fields r)) as [d1|e] eqn:E1;
    cbn [mbind result_bind]; [| reflexivity].
  rewrite (reached_redact _ _ _ E1).
  destruct (bool_decide (2 ≤ signal_count r)%nat); [| reflexivity].
  rewrite (mask_fields_run _ _ _ _ (lookup_snoc h d1)), insert_snoc.
  unfold loop_outcome.
  by destruct (redact d1 (combinatorial_fields r)).
Qed.

Lemma final_copy_keys (r : dict) : keys (final_copy r) = keys r.
Proof.
  unfold final_copy. cbv zeta.
  destruct (existsb flagged r || bool_decide (2 ≤ signal_count r)%nat); [| done].
  destruct (redact r (standalone_fields r)); [| apply reached_keys].
  destruct (bool_decide (2 ≤ signal_count r)%nat); by rewrite !reached_keys.
Qed.

Lemma final_copy_redacted (r d : dict) (b : bool) :
  redacted r = Ok (b, d) → final_copy r = d.
Proof.
  unfold redacted, final_copy. cbv zeta.
  destruct (existsb flagged r || bool_decide (2 ≤ signal_count r)%nat);
    [| congruence].
  destruct (redact r (standalone_fields r)) as [d1|] eqn:E1; [| done].
  cbn [mbind result_bind]. rewrite (reached_redact _ _ _ E1).
  destruct (bool_decide (2 ≤ signal_count r)%nat).
  - destruct (redact d1 (combinatorial_fields r)) as [d2|] eqn:E2; [| done].
    cbn [mbind result_bind]. rewrite (reached_redact _ _ _ E2). congruence.
  - cbn [mbind result_bind]. congruence.
Qed.

Lemma process_record_run (l : loc) (h : heap) (r : dict) :
  h !! l = Some r →
  ∃ d', (process_record l h).1 = h ++ [d']
        ∧ keys d' = keys r
        ∧ match redacted r with
          | Ok (b, d) => d' = d ∧ (process_record l h).2 = Ok (b, length h)
          | Raise e => (process_record l h).2 = Raise e
          end.
Proof.
  intros Hl. rewrite (process_record_exact l h r Hl). cbn [fst snd].
  exists (final_copy r). split; [done |]. split; [apply final_copy_keys |].
  destruct (redacted r) as [[b d]|e] eqn:E; [| done].
  split; [by eapply final_copy_redacted | done].
Qed.

(** The two field lists name each field at most once. *)
Lemma filter_keys_elem (p : Py.str * pyvalue → bool) (d : dict) (k : Py.str) :
  k ∈ (List.filter p d).*1 → k ∈ keys d.
Proof.
  unfold keys. induction d as [|kv d IH]; simpl; [done |].
  destruct (p kv); simpl.
  - intros H. apply elem_of_cons in H as [->|H]; [left | right; auto].
  - intros H. right. auto.
Qed.

Lemma filter_keys_NoDup (p : Py.str * pyvalue → bool) (d : dict) :
  well_formed d → NoDup (List.filter p d).*1.
Proof.
  unfold well_formed, keys. induction d as [|kv d IH]; simpl; [constructor |].
  intros [Hk Hnd]%NoDup_cons. destruct (p kv); simpl; [| auto].
  apply NoDup_cons. split; [| auto]. intros H. apply Hk.
  by apply filter_keys_elem in H.
Qed.

Lemma standalone_fields_NoDup (r : dict) :
  well_formed r → NoDup (standalone_fields r).
Proof. apply filter_keys_NoDup. Qed.

Lemma contributes_key (kv : Py.str * pyvalue) :
  contributes kv = true →
  kv.1 ∈ [k_name; k_email; k_address; k_device_id; k_ip_address].
Proof.
  destruct kv as [k v].
  unfold contributes, full_name_item, email_item, address_item, device_item.
  cbn [fst snd]. destruct v; [done | | |].
  all: intros H; repeat (apply orb_true_iff in H as [H|H]).
  all: try (apply andb_true_iff in H as [->%str_eqb_eq _];
            repeat first [by left | right]).
  all: apply bool_decide_eq_true in H; do 3 right; exact H.
Qed.

Lemma combinatorial_fields_NoDup (r : dict) :
  well_formed r → NoDup (combinatorial_fields r).
Proof.
  intros Hwf. unfold combinatorial_fields. apply NoDup_app. split.
  { by apply filter_keys_NoDup. }
  split.
  - intros k Hk Hk'. apply list_elem_of_fmap in Hk as (kv & -> & Hkv).
    apply list_elem_of_In, filter_In in Hkv as [_ Hc%contributes_key].
    destruct (name_parts r); [| inversion Hk'].
    apply elem_of_cons in Hk' as [E|Hk'];
      [| apply list_elem_of_singleton in Hk' as E]; rewrite E in Hc;
      repeat (apply elem_of_cons in Hc as [Hc|Hc]; [by vm_compute in Hc |]);
      inversion Hc.
  - destruct (name_parts r); [| constructor].
    apply NoDup_cons. split; [| apply NoDup_singleton].
    intros H. apply list_elem_of_singleton in H. by vm_compute in H.
Qed.

Lemma redact_nil (d : dict) : redact d [] = Ok d.
Proof. reflexivity. Qed.

(** Two masking loops in a row: a field on one list is masked once, a
    field on both twice, the second time from its masked text. *)
Lemma redact_twice (fs gs : list Py.str) (d d1 d2 : dict) :
  NoDup fs → NoDup gs → redact d fs = Ok d1 → redact d1 gs = Ok d2 →
  ∀ k v, dict_find k d = Some v →
    (k ∈ fs → k ∉ gs → ∃ m, mask_value k v = Ok m ∧ dict_find k d2 = Some m)
    ∧ (k ∉ fs → k ∈ gs → ∃ m, mask_value k v = Ok m ∧ dict_find k d2 = Some m)
    ∧ (k ∉ fs → k ∉ gs → dict_find k d2 = Some v)
    ∧ (k ∈ fs → k ∈ gs →
         ∃ m m', mask_value k v = Ok m ∧ mask_value k m = Ok m'
                 ∧ dict_find k d2 = Some m').
Proof.
  intros Hfs Hgs H1 H2 k v Hv.
  destruct (redact_find fs d d1 Hfs H1 k v Hv) as [Hin Hout].
  split_and!.
  - intros Hf Hg. destruct (Hin Hf) as (m & Hm & Hm'). exists m. split; [done |].
    by apply (redact_find gs d1 d2 Hgs H2 k m Hm').
  - intros Hf Hg. by apply (redact_find gs d1 d2 Hgs H2 k v (Hout Hf)).
  - intros Hf Hg. by apply (redact_find gs d1 d2 Hgs H2 k v (Hout Hf)).
  - intros Hf Hg. destruct (Hin Hf) as (m & Hm & Hm').
    destruct (redact_find gs d1 d2 Hgs H2 k m Hm') as [Hin2 _].
    destruct (Hin2 Hg) as (m' & ? & ?). eauto.
Qed.

Lemma redacted_pii (r d : dict) :
  redacted r = Ok (true, d) →
  ∃ d1, redact r (standalone_fields r) = Ok d1
        ∧ redact d1 (applied_combo r) = Ok d.
Proof.
  unfold redacted, applied_combo.
  destruct (existsb flagged r || bool_decide (2 ≤ signal_count r)%nat); [| done].
  destruct (redact r (standalone_fields r)) as [d1|]; [| done].
  cbn [mbind result_bind]. exists d1. split; [done |].
  destruct (bool_decide (2 ≤ signal_count r)%nat).
  - destruct (redact d1 (combinatorial_fields r)); [| done].
    cbn [mbind result_bind] in *. congruence.
  - rewrite redact_nil. cbn [mbind result_bind] in *. congruence.
Qed.

Lemma redacted_flag (r d : dict) (b : bool) :
  redacted r = Ok (b, d) →
  b = existsb flagged r || bool_decide (2 ≤ signal_count r)%nat.
Proof.
  unfold redacted.
  destruct (existsb flagged r || bool_decide (2 ≤ signal_count r)%nat).
  - destruct (redact r (standalone_fields r)) as [d1|]; [| done].
    cbn [mbind result_bind].
    destruct (if bool_decide (2 ≤ signal_count r)%nat then _ else _); [| done].
    cbn [mbind result_bind]. congruence.
  - congruence.
Qed.

(** What a returning run of [process_record] says about [redacted]. *)
Lemma process_record_returns (l l' : loc) (h h' : heap) (r : dict) (b : bool) :
  h !! l = Some r → process_record l h = (h', Ok (b, l')) →
  ∃ red, h' = h ++ [red] ∧ l' = length h ∧ h' !! l' = Some red
         ∧ redacted r = Ok (b, red).
Proof.
  intros Hl Hrun. destruct (process_record_run l h r Hl) as (d' & H1 & _ & H3).
  rewrite Hrun in H1, H3. cbn [fst snd] in H1, H3. subst h'.
  destruct (redacted r) as [[b' d]|e]; [| done].
  destruct H3 as [-> [= -> ->]]. exists d. split_and!; try done.
  apply lookup_snoc.
Qed.

Lemma redacted_not_pii (r d : dict) :
  redacted r = Ok (false, d) → d = r.
Proof.
  unfold redacted.
  destruct (existsb flagged r || bool_decide (2 ≤ signal_count r)%nat).
  - destruct (redact r (standalone_fields r)) as [d1|]; [| done].
    cbn [mbind result_bind].
    destruct (if bool_decide (2 ≤ signal_count r)%nat then _ else _); done.
  - congruence.
Qed.

(** A classifier that raises no flag lists no field... *)
Lemma standalone_flag_fields (r : dict) :
  existsb flagged r = true ↔ standalone_fields r ≠ [].
Proof.
  unfold standalone_fields. induction r as [|kv r IH]; simpl; [done |].
  destruct (flagged kv); simpl; [done | exact IH].
Qed.

Lemma existsb_or {A} (f g : A → bool) (l : list A) :
  existsb (λ x, f x || g x) l = existsb f l || existsb g l.
Proof.
  induction l as [|a l IH]; simpl; [done |]. rewrite IH.
  by destruct (f a), (g a), (existsb f l).
Qed.

(** ... and a combinatorial flag needs a contributing field. *)
Lemma combinatorial_flag_fields (r : dict) :
  (2 ≤ signal_count r)%nat → combinatorial_fields r ≠ [].
Proof.
  unfold signal_count, combinatorial_fields, name_parts_signal, full_name_signal,
    email_signal, address_signal, device_signal.
  destruct (name_parts r); [intros _; by destruct (List.filter contributes r).*1 |].
  rewrite app_nil_r. intros H.
  assert (He : existsb contributes r = true).
  { unfold contributes. rewrite !existsb_or.
    destruct (existsb full_name_item r), (existsb email_item r),
      (existsb address_item r), (existsb device_item r); simpl in *; done || lia. }
  clear H. induction r as [|kv r IH]; simpl in *; [done |].
  destruct (contributes kv); simpl in *; [done | auto].
Qed.

End Processing.

(** * The claims about the record processor *)

Section Processor_claims.
Context {U : Unicode}.

(** C7. A record on which [is_pii] is false, which includes every record
    on which neither classifier lists a field, is returned as an exact
    copy: the new object has the items of the input, same keys, same values,
    same order, and the flag is [False]. *)
Theorem non_pii_record_copied_exactly (l : loc) (h : heap) (r : dict)
    (has_standalone has_combo : bool) (stand_fields combo_fields : list Py.str)
    (n : nat) :
  h !! l = Some r →
  detect_standalone_pii r = Ok (has_standalone, stand_fields) →
  detect_combinatorial_pii r = Ok (has_combo, combo_fields, n) →
  has_standalone || has_combo = false ∨ (stand_fields = [] ∧ combo_fields = []) →
  process_record l h = (h ++ [r], Ok (false, length h)).
Proof.
  intros Hl Hs Hc Hno.
  rewrite detect_standalone_pii_eq in Hs. injection Hs as <- <-.
  rewrite detect_combinatorial_pii_eq in Hc. injection Hc as <- <- <-.
  assert (Hpii : existsb flagged r || bool_decide (2 ≤ signal_count r)%nat = false).
  { destruct Hno as [? | [Hs Hc]]; [done |].
    apply orb_false_iff. split.
    - apply not_true_is_false. intros H%standalone_flag_fields. done.
    - apply bool_decide_eq_false. intros H%combinatorial_flag_fields. done. }
  destruct (process_record_run l h r Hl) as (d' & H1 & _ & H3).
  unfold redacted in H3. rewrite Hpii in H3. destruct H3 as [-> H3].
  destruct (process_record l h) as [h' o]. cbn [fst snd] in *. congruence.
Qed.

(** C8. Whatever the run does, the store afterwards is the old store plus
    one new object with the keys of the input in the same order; the input
    object is as it was; and a returned reference is that of the new
    object, not of the input. *)
Theorem keys_kept_and_input_untouched (l : loc) (h : heap) (r : dict) :
  h !! l = Some r →
  ∃ red, (process_record l h).1 = h ++ [red]
         ∧ keys red = keys r
         ∧ (process_record l h).1 !! l = Some r
         ∧ ∀ b l', (process_record l h).2 = Ok (b, l') →
             l' ≠ l ∧ (process_record l h).1 !! l' = Some red.
Proof.
  intros Hl. destruct (process_record_run l h r Hl) as (d' & H1 & H2 & H3).
  assert (Hlt : (l < length h)%nat) by (by eapply lookup_lt_Some).
  exists d'. rewrite H1. split_and!; [done | done | by rewrite lookup_app_l |].
  intros b l' Hret. rewrite Hret in H3.
  destruct (redacted r) as [[b' d]|e]; [| done].
  destruct H3 as [_ [= _ ->]]. split; [lia | apply lookup_snoc].
Qed.

(** C6. A field whose value in the redacted copy differs from its value in
    the input is on the standalone list or on the combinatorial list. *)
Theorem altered_field_is_implicated (l l' : loc) (h h' : heap) (r : dict)
    (is_pii has_standalone has_combo : bool)
    (stand_fields combo_fields : list Py.str) (n : nat) :
  h !! l = Some r →
  detect_standalone_pii r = Ok (has_standalone, stand_fields) →
  detect_combinatorial_pii r = Ok (has_combo, combo_fields, n) →
  process_record l h = (h', Ok (is_pii, l')) →
  ∃ red, h' !! l' = Some red
         ∧ ∀ k, dict_find k red ≠ dict_find k r →
             k ∈ stand_fields ∨ k ∈ combo_fields.
Proof.
  intros Hl Hs Hc Hrun.
  rewrite detect_standalone_pii_eq in Hs. injection Hs as <- <-.
  rewrite detect_combinatorial_pii_eq in Hc. injection Hc as <- <- <-.
  destruct (process_record_returns _ _ _ _ _ _ Hl Hrun) as (red & _ & _ & Hred & Hr).
  exists red. split; [done |]. intros k Hdiff.
  destruct is_pii.
  - apply redacted_pii in Hr as (d1 & H1 & H2).
    destruct (decide (k ∈ standalone_fields r)) as [|Hs]; [by left |].
    destruct (decide (k ∈ combinatorial_fields r)) as [|Hc]; [by right |].
    exfalso. apply Hdiff.
    rewrite (redact_frame _ _ _ k H2), (redact_frame _ _ _ k H1); [done.. |].
    unfold applied_combo. destruct (bool_decide _); [done | intros H; inversion H].
  - apply redacted_not_pii in Hr as ->. done.
Qed.

(** C1, as amended. For a record classified as PII the redacted copy has
    the keys of the input in the same order, and for every field [k] of the
    input with value [v]: if [k] is on the standalone list, or the
    combinatorial flag is true and [k] is on the combinatorial list, but not
    both, its value is the masking engine's output for [(k, v)]; if both,
    the field is masked by each loop in turn and its value is the masking
    engine's output for [k] and the masked value; if neither, its value is
    [v]. In particular the contributing fields of a combinatorial
    classifier whose flag is false are not masked unless the standalone
    classifier lists them. *)
Theorem pii_record_redaction (l l' : loc) (h h' : heap) (r : dict)
    (has_standalone has_combo : bool)
    (stand_fields combo_fields : list Py.str) (n : nat) :
  h !! l = Some r → well_formed r →
  detect_standalone_pii r = Ok (has_standalone, stand_fields) →
  detect_combinatorial_pii r = Ok (has_combo, combo_fields, n) →
  process_record l h = (h', Ok (true, l')) →
  ∃ red, h' !! l' = Some red ∧ keys red = keys r ∧
    ∀ k v, dict_find k r = Some v →
      let by_standalone := bool_decide (k ∈ stand_fields) in
      let by_combo := has_combo && bool_decide (k ∈ combo_fields) in
      (xorb by_standalone by_combo = true →
         ∃ m, mask_value k v = Ok m ∧ dict_find k red = Some m)
      ∧ (by_standalone && by_combo = true →
           ∃ m m', mask_value k v = Ok m ∧ mask_value k m = Ok m'
                   ∧ dict_find k red = Some m')
      ∧ (by_standalone || by_combo = false → dict_find k red = Some v).
Proof.
  intros Hl Hwf Hs Hc Hrun.
  rewrite detect_standalone_pii_eq in Hs. injection Hs as <- <-.
  rewrite detect_combinatorial_pii_eq in Hc. injection Hc as <- <- <-.
  destruct (process_record_returns _ _ _ _ _ _ Hl Hrun) as (red & _ & _ & Hred & Hr).
  exists red. split; [done |].
  apply redacted_pii in Hr as (d1 & H1 & H2). split.
  { rewrite (redact_keys _ _ _ H2). by apply (redact_keys _ _ _ H1). }
  intros k v Hv.
  assert (Hnd : NoDup (applied_combo r)).
  { unfold applied_combo. destruct (bool_decide _);
      [by apply combinatorial_fields_NoDup | constructor]. }
  destruct (redact_twice _ _ _ _ _ (standalone_fields_NoDup r Hwf) Hnd H1 H2 k v Hv)
    as (Hfs & Hgs & Hnone & Hboth).
  assert (Hiff : k ∈ applied_combo r ↔
    bool_decide (2 ≤ signal_count r)%nat
    && bool_decide (k ∈ combinatorial_fields r) = true).
  { unfold applied_combo. destruct (bool_decide (2 ≤ signal_count r)%nat); simpl.
    - by rewrite bool_decide_eq_true.
    - split; [intros H; inversion H | done]. }
  cbv zeta. split_and!.
  - intros Hx. destruct (bool_decide (k ∈ standalone_fields r)) eqn:Es.
    + apply bool_decide_eq_true in Es. apply Hfs; [done |].
      rewrite Hiff. simpl in Hx. by destruct (_ && _).
    + apply bool_decide_eq_false in Es. apply Hgs; [done |].
      rewrite Hiff. exact Hx.
  - intros [Es Ec]%andb_true_iff. apply bool_decide_eq_true in Es.
    apply Hboth; [done |]. by rewrite Hiff.
  - intros [Es Ec]%orb_false_iff. apply bool_decide_eq_false in Es.
    apply Hnone; [done |]. rewrite Hiff. by rewrite Ec.
Qed.

End Processor_claims.

(** ** The record processor on the scenarios of the design document *)

(** C1, counterexample. On [{"phone": "9876543210", "name": "Ravi Kumar"}]
    the record is PII through the standalone classifier alone; [name] is a
    contributing field of the full-name signal, the masking engine would
    turn its value into ["RXXX KXXXX"], and the redacted copy keeps
    ["Ravi Kumar"]. On [{"address": "9876543210, 560001", "device_id": "x"}]
    the field [address] is on both lists; the masking engine's output for it
    is ["98XXXXXXXXXXXXXX01"], and the redacted copy holds
    ["[REDACTED_ADDRESS]"], the output for that output. *)
Lemma contributing_field_left_unmasked :
  (detect_standalone_pii (U:=basic_latin) phone_and_name = Ok (true, [py"phone"])
   ∧ detect_combinatorial_pii (U:=basic_latin) phone_and_name
     = Ok (false, [py"name"], 1%nat)
   ∧ mask_value (U:=basic_latin) py"name" (VStr py"Ravi Kumar")
     = Ok (VStr py"RXXX KXXXX")
   ∧ process_record (U:=basic_latin) 0%nat [phone_and_name]
     = ([phone_and_name;
         [(py"phone", VStr py"98XXXXXX10"); (py"name", VStr py"Ravi Kumar")]],
        Ok (true, 1%nat)))
  ∧ (detect_standalone_pii (U:=basic_latin) phone_like_address
     = Ok (true, [py"address"])
     ∧ detect_combinatorial_pii (U:=basic_latin) phone_like_address
       = Ok (true, [py"address"; py"device_id"], 2%nat)
     ∧ mask_value (U:=basic_latin) py"address" (VStr py"9876543210, 560001")
       = Ok (VStr py"98XXXXXXXXXXXXXX01")
     ∧ mask_value (U:=basic_latin) py"address" (VStr py"98XXXXXXXXXXXXXX01")
       = Ok (VStr py"[REDACTED_ADDRESS]")
     ∧ process_record (U:=basic_latin) 0%nat [phone_like_address]
       = ([phone_like_address;
           [(py"address", VStr py"[REDACTED_ADDRESS]");
            (py"device_id", VStr py"[REDACTED_DEVICE_ID]")]],
          Ok (true, 1%nat))).
Proof. split_and!; vm_compute; reflexivity. Qed.

(** The redaction theorem on
    [{"address": "9876543210, 560001", "device_id": "x"}], where [address]
    is on both lists and [device_id] on the combinatorial list only. *)
Lemma pii_record_redaction_witness :
  ∃ red, [phone_like_address;
          [(py"address", VStr py"[REDACTED_ADDRESS]");
           (py"device_id", VStr py"[REDACTED_DEVICE_ID]")]]
         !! 1%nat = Some red
    ∧ keys red = keys phone_like_address
    ∧ ∀ k v, dict_find k phone_like_address = Some v →
        let by_standalone := bool_decide (k ∈ [py"address"]) in
        let by_combo := true && bool_decide (k ∈ [py"address"; py"device_id"]) in
        (xorb by_standalone by_combo = true →
           ∃ m, mask_value (U:=basic_latin) k v = Ok m ∧ dict_find k red = Some m)
        ∧ (by_standalone && by_combo = true →
             ∃ m m', mask_value (U:=basic_latin) k v = Ok m
                     ∧ mask_value (U:=basic_latin) k m = Ok m'
                     ∧ dict_find k red = Some m')
        ∧ (by_standalone || by_combo = false → dict_find k red = Some v).
Proof.
  apply (pii_record_redaction (U:=basic_latin) 0%nat 1%nat [phone_like_address] _
           phone_like_address true true [py"address"]
           [py"address"; py"device_id"] 2%nat).
  - reflexivity.
  - unfold well_formed. vm_compute. repeat constructor; intros H; inversion H; subst;
      match goal with H : _ ∈ _ |- _ => inversion H end.
  - vm_compute; reflexivity.
  - vm_compute; reflexivity.
  - vm_compute; reflexivity.
Defined.

(** On the same record, the two altered fields are on the combinatorial
    list. *)
Lemma altered_field_is_implicated_witness :
  ∃ red, [name_and_email; [(py"name", VStr py"RXXX KXXXX");
                           (py"email", VStr py"rXXXXXXXXr@example.com")]]
         !! 1%nat = Some red
    ∧ ∀ k, dict_find k red ≠ dict_find k name_and_email →
        k ∈ ([] : list Py.str) ∨ k ∈ [py"name"; py"email"].
Proof.
  apply (altered_field_is_implicated (U:=basic_latin) 0%nat 1%nat [name_and_email] _
           name_and_email true false true [] [py"name"; py"email"] 2%nat).
  - reflexivity.
  - vm_compute; reflexivity.
  - vm_compute; reflexivity.
  - vm_compute; reflexivity.
Defined.

(** Scenario 2: a full name alone is one signal, and the record comes back
    as it was. *)
Lemma non_pii_record_copied_exactly_witness :
  process_record (U:=basic_latin) 0%nat [name_only]
  = ([name_only] ++ [name_only], Ok (false, length [name_only])).
Proof.
  apply (non_pii_record_copied_exactly (U:=basic_latin) 0%nat [name_only]
           name_only false false [] [py"name"] 1%nat).
  - reflexivity.
  - vm_compute; reflexivity.
  - vm_compute; reflexivity.
  - left. reflexivity.
Defined.

(** The store after processing [{"phone": ..., "name": ...}]. *)
Lemma keys_kept_and_input_untouched_witness :
  ∃ red, (process_record (U:=basic_latin) 0%nat [phone_and_name]).1
         = [phone_and_name] ++ [red]
    ∧ keys red = keys phone_and_name
    ∧ (process_record (U:=basic_latin) 0%nat [phone_and_name]).1 !! 0%nat
      = Some phone_and_name
    ∧ ∀ b l', (process_record (U:=basic_latin) 0%nat [phone_and_name]).2
              = Ok (b, l') →
        l' ≠ 0%nat
        ∧ (process_record (U:=basic_latin) 0%nat [phone_and_name]).1 !! l'
          = Some red.
Proof.
  apply (keys_kept_and_input_untouched (U:=basic_latin) 0%nat [phone_and_name]
           phone_and_name).
  reflexivity.
Defined.

(** Scenarios 1, 4 and 5 of the design document. *)
Example phone_record_masked :
  process_record (U:=basic_latin) 0%nat [[(py"phone", VStr py"9876543210")]]
  = ([[(py"phone", VStr py"9876543210")]; [(py"phone", VStr py"98XXXXXX10")]],
     Ok (true, 1%nat)).
Proof. vm_compute; reflexivity. Qed.

Example name_parts_alone_not_pii :
  detect_combinatorial_pii (U:=basic_latin)
    [(py"first_name", VStr py"Asha"); (py"last_name", VStr py"Rao")]
  = Ok (false, [py"first_name"; py"last_name"], 1%nat).
Proof. vm_compute; reflexivity. Qed.

Example aadhar_record_masked :
  process_record (U:=basic_latin) 0%nat [[(py"aadhar", VStr py"123456789012")]]
  = ([[(py"aadhar", VStr py"123456789012")];
      [(py"aadhar", VStr py"123XXXXXX012")]],
     Ok (true, 1%nat)).
Proof. vm_compute; reflexivity. Qed.

(** An integer under [phone] is masked from its decimal text. *)
Example integer_phone_masked :
  mask_value (U:=basic_latin) py"phone" (VInt 9876543210)
  = Ok (VStr py"98XXXXXX10").
Proof. vm_compute; reflexivity. Qed.

(** A field on both lists is masked twice. The address below starts like a
    phone number, so the standalone classifier lists it and the first loop
    masks it by the phone rule; the combinatorial classifier lists it too,
    and the second loop masks the masked text again, by the address rule. *)
Example field_on_both_lists_masked_twice :
  detect_standalone_pii (U:=basic_latin) phone_like_address
  = Ok (true, [py"address"])
  ∧ detect_combinatorial_pii (U:=basic_latin) phone_like_address
    = Ok (true, [py"address"; py"device_id"], 2%nat)
  ∧ mask_value (U:=basic_latin) py"address" (VStr py"9876543210, 560001")
    = Ok (VStr py"98XXXXXXXXXXXXXX01")
  ∧ process_record (U:=basic_latin) 0%nat [phone_like_address]
    = ([phone_like_address;
        [(py"address", VStr py"[REDACTED_ADDRESS]");
         (py"device_id", VStr py"[REDACTED_DEVICE_ID]")]],
       Ok (true, 1%nat)).
Proof. split_and!; vm_compute; reflexivity. Qed.

(** * The claims about the combinatorial classifier *)

Section Combinatorial_claims.
Context {U : Unicode}.

Lemma existsb_elem {A} (p : A → bool) (l : list A) :
  existsb p l = true ↔ ∃ x, x ∈ l ∧ p x = true.
Proof.
  rewrite existsb_exists. split; intros (x & H & Hp); exists x;
    (split; [by apply list_elem_of_In | done]).
Qed.

Lemma filter_keys_elem_iff (p : Py.str * pyvalue → bool) (d : dict) (k : Py.str) :
  k ∈ (List.filter p d).*1 ↔ ∃ v, (k, v) ∈ d ∧ p (k, v) = true.
Proof.
  rewrite list_elem_of_fmap. split.
  - intros ([k' v] & -> & H). apply list_elem_of_In, filter_In in H as [H Hp].
    exists v. split; [by apply list_elem_of_In | done].
  - intros (v & H & Hp). exists (k, v). split; [done |].
    apply list_elem_of_In, filter_In. split; [by apply list_elem_of_In | done].
Qed.

Lemma device_item_iff (k : Py.str) (v : pyvalue) :
  device_item (k, v) = true ↔ is_device_key k ∧ v ≠ VNone.
Proof.
  unfold device_item, is_device_key. cbn [fst snd]. destruct v.
  1: split; [done | intros [_ ?]; done].
  all: rewrite bool_decide_eq_true; split.
  all: try (intros H; split; [| done];
            apply elem_of_cons in H as [H|H]; [by left | right];
            by apply list_elem_of_singleton in H).
  all: intros [[->| ->] _]; [left | right; left].
Qed.

Lemma device_key_contributes (k : Py.str) (v : pyvalue) :
  is_device_key k → contributes (k, v) = device_item (k, v).
Proof.
  unfold contributes, full_name_item, email_item, address_item. cbn [fst snd].
  intros Hk. destruct v; [done | | |].
  all: replace (Py.str_eqb k k_name) with false
         by (by destruct Hk as [-> | ->]; vm_compute).
  all: replace (Py.str_eqb k k_email) with false
         by (by destruct Hk as [-> | ->]; vm_compute).
  all: replace (Py.str_eqb k k_address) with false
         by (by destruct Hk as [-> | ->]; vm_compute).
  all: reflexivity.
Qed.

(** C4, as amended. The device signal is true exactly when the record has
    a field named [device_id] or [ip_address] whose value is not [None]; the
    value is not looked at otherwise. Each of the two names is a
    contributing field, in the loop and in what the classifier returns,
    exactly when the record has it with a value that is not [None], so both
    are when both are present. *)
Theorem device_signal_when_present_and_not_null (data : dict) :
  ∃ st flag fs n,
    combinatorial_loop data = Ok st
    ∧ detect_combinatorial_pii data = Ok (flag, fs, n)
    ∧ (has_device st = true ↔
       ∃ k v, (k, v) ∈ data ∧ is_device_key k ∧ v ≠ VNone)
    ∧ ∀ k, is_device_key k →
        (k ∈ fields st ↔ ∃ v, (k, v) ∈ data ∧ v ≠ VNone)
        ∧ (k ∈ fs ↔ ∃ v, (k, v) ∈ data ∧ v ≠ VNone).
Proof.
  eexists _, _, _, _. split; [apply combinatorial_loop_eq |].
  split; [apply detect_combinatorial_pii_eq |].
  cbn [has_device fields]. split.
  - unfold device_signal. rewrite existsb_elem. split.
    + intros ([k v] & H & Hd). apply device_item_iff in Hd. eauto.
    + intros (k & v & H & Hk & Hv). exists (k, v). split; [done |].
      by apply device_item_iff.
  - intros k Hk.
    assert (Hloop : k ∈ (List.filter contributes data).*1
                    ↔ ∃ v, (k, v) ∈ data ∧ v ≠ VNone).
    { rewrite filter_keys_elem_iff. split; intros (v & H & Hv); exists v;
        (split; [done |]); rewrite (device_key_contributes k v Hk) in *;
        apply device_item_iff in Hv || apply device_item_iff; tauto. }
    split; [exact Hloop |].
    rewrite <- Hloop. unfold combinatorial_fields. rewrite elem_of_app.
    split; [| by left]. intros [H | H]; [done |].
    destruct (name_parts data); [| inversion H]. exfalso.
    apply elem_of_cons in H as [H|H]; [| apply list_elem_of_singleton in H];
      destruct Hk as [-> | ->]; by vm_compute in H.
Qed.

Lemma named_item_iff (name : Py.str) (p : pyvalue → bool) (data : dict) :
  existsb (λ kv, match kv.2 with
                 | VNone => false
                 | v => Py.str_eqb kv.1 name && p (VStr (py_str v))
                 end) data = true
  ↔ ∃ v, (name, v) ∈ data ∧ v ≠ VNone ∧ p (VStr (py_str v)) = true.
Proof.
  rewrite existsb_elem. split.
  - intros ([k v] & Hin & H). cbn [fst snd] in H. exists v.
    destruct v; [done | ..]; apply andb_true_iff in H as [->%str_eqb_eq H];
      done.
  - intros (v & Hin & Hv & H). exists (name, v). split; [done |]. cbn [fst snd].
    destruct v; [done | ..]; apply andb_true_iff; split;
      (by apply str_eqb_eq) || done.
Qed.

Lemma truthy_iff (v : pyvalue) : truthy v = true ↔ ¬ falsy v.
Proof.
  unfold falsy. destruct v as [|s|n|[|neg|r t nz]]; cbn [truthy].
  - split; [done | intros H; exfalso; apply H; by left].
  - destruct s; split; try done.
    + intros H; exfalso; apply H; right; by left.
    + intros _ [? | [? | [? | (? & ? & ?)]]]; done.
  - rewrite negb_true_iff, Z.eqb_neq. split.
    + intros Hn [? | [? | [[= ->] | (? & ? & ?)]]]; done.
    + intros H ->. apply H. right; right; by left.
  - split; [| done]. intros _ [? | [? | [? | (? & ? & ?)]]]; done.
  - split; [| done]. intros _ [? | [? | [? | (? & ? & ?)]]]; done.
  - destruct nz; split; try done.
    + intros _ [? | [? | [? | (? & ? & ?)]]]; done.
    + intros H. exfalso. apply H. right; right; right. eauto.
Qed.

Lemma name_parts_iff (data : dict) :
  name_parts data = true ↔ name_pair_present data.
Proof.
  unfold name_parts, name_pair_present, dict_get.
  rewrite andb_true_iff, !truthy_iff. split.
  - intros [H1 H2].
    destruct (dict_find k_first_name data) as [v|];
      [| exfalso; apply H1; by left].
    destruct (dict_find k_last_name data) as [w|];
      [| exfalso; apply H2; by left].
    by exists v, w.
  - intros (v & w & -> & -> & Hv & Hw). done.
Qed.

(** C5, as amended. The classifier returns the number of true signals
    among the five and flags the record exactly when that number is at
    least 2. The signals are: a field [name] that is a full name, a field
    [email] that is an email, a field [address] that passes the address
    check, a field [device_id] or [ip_address], each with a value that is
    not [None]; and [first_name] and [last_name] both present with values
    that are neither [None], nor the empty string, nor a zero. A signal
    counts once however many fields stand behind it: [device_id] and
    [ip_address] together are one signal. *)
Theorem combinatorial_flag_iff_two_signals (data : dict) :
  ∃ flag fs count (s1 s2 s3 s4 s5 : bool),
    detect_combinatorial_pii data = Ok (flag, fs, count)
    ∧ (s1 = true ↔ full_name_present data)
    ∧ (s2 = true ↔ email_present data)
    ∧ (s3 = true ↔ address_present data)
    ∧ (s4 = true ↔ device_present data)
    ∧ (s5 = true ↔ name_pair_present data)
    ∧ count = (Nat.b2n s1 + Nat.b2n s2 + Nat.b2n s3 + Nat.b2n s4
               + Nat.b2n s5)%nat
    ∧ (flag = true ↔ (2 ≤ count)%nat)
    ∧ (count = 1%nat → flag = false).
Proof.
  exists (bool_decide (2 ≤ signal_count data)%nat), (combinatorial_fields data),
    (signal_count data), (full_name_signal data), (email_signal data),
    (address_signal data), (device_signal data), (name_parts data).
  split; [apply detect_combinatorial_pii_eq |]. split_and!.
  - apply (named_item_iff k_name is_full_name).
  - apply (named_item_iff k_email is_email).
  - apply (named_item_iff k_address has_address_components).
  - unfold device_signal, device_present. rewrite existsb_elem. split.
    + intros ([k v] & H & Hd). apply device_item_iff in Hd. eauto.
    + intros (k & v & H & Hk & Hv). exists (k, v). split; [done |].
      by apply device_item_iff.
  - apply name_parts_iff.
  - unfold signal_count, count_true, name_parts_signal.
    destruct (full_name_signal data), (email_signal data), (address_signal data),
      (device_signal data), (name_parts data); reflexivity.
  - apply bool_decide_eq_true.
  - intros H. apply bool_decide_eq_false_2. lia.
Qed.

End Combinatorial_claims.

(** C4, counterexample. [{"device_id": null}] contains the key, and the
    loop skips it: no device signal, no contributing field. *)
Lemma null_device_gives_no_signal :
  dict_contains py"device_id" null_device = true
  ∧ combinatorial_loop (U:=basic_latin) null_device
    = Ok (Signals false false false false [])
  ∧ detect_combinatorial_pii (U:=basic_latin) null_device = Ok (false, [], 0%nat).
Proof. split_and!; vm_compute; reflexivity. Qed.

(** C5, counterexample. In
    [{"first_name": 0, "last_name": "Rao", "email": "a@b.co"}] both name
    fields are present with values that are neither null nor empty, and
    the email is one: two signals of the design document. The classifier
    takes the zero as false, counts one signal and does not flag the
    record. *)
Lemma zero_first_name_is_no_signal :
  spec_name_pair_present zero_first_name
  ∧ email_present (U:=basic_latin) zero_first_name
  ∧ ¬ name_pair_present zero_first_name
  ∧ detect_combinatorial_pii (U:=basic_latin) zero_first_name
    = Ok (false, [py"email"], 1%nat).
Proof.
  split_and!.
  - exists (VInt 0), (VStr py"Rao"). by split_and!.
  - exists (VStr py"a@b.co"). split_and!; [| done | vm_compute; reflexivity].
    right; right; left.
  - intros (v & w & [= <-] & _ & Hv & _). apply Hv. right; right; by left.
  - vm_compute; reflexivity.
Qed.

(** Scenario 6: both device fields, one signal, not flagged. *)
Example device_and_ip_one_signal :
  detect_combinatorial_pii (U:=basic_latin) device_and_ip
  = Ok (false, [py"device_id"; py"ip_address"], 1%nat).
Proof. vm_compute; reflexivity. Qed.

(** * The masking engine as an ordered table

    [mask_value] first fixes the text [s] it works on, then takes the
    first rule of a fixed list whose condition holds, and applies it. *)

Section Masking.
Context {U : Unicode}.

Lemma mask_initial_ok (p : Py.str) : mask_initial p = Ok (initial_mask p).
Proof.
  unfold mask_initial, initial_mask. by destruct p as [|c [|d t]].
Qed.

Lemma map_mask_initial_ok (ps : list Py.str) :
  map_result mask_initial ps = Ok (initial_mask <$> ps).
Proof.
  induction ps as [|p ps IH]; [reflexivity |]. cbn [map_result].
  rewrite mask_initial_ok, IH. reflexivity.
Qed.

Lemma first_last_ok (s : Py.str) :
  (3 ≤ length s)%nat →
  ∃ a z, first_char s = Ok a ∧ last_char s = Ok z
         ∧ a :: Py.xs (length s - 2) ++ [z]
           = Py.slice_to 1 s ++ Py.xs (length s - 2) ++ Py.slice_last 1 s.
Proof.
  intros Hlen. destruct s as [|a t]; [simpl in Hlen; lia |].
  destruct (last (a :: t)) as [z|] eqn:Ez.
  2:{ apply last_None in Ez. done. }
  exists a, z. unfold first_char, last_char. rewrite Ez. split_and!; try done.
  unfold Py.slice_to, Py.slice_last. change (take 1 (a :: t)) with [a].
  cbn [app]. do 2 f_equal.
  apply last_Some in Ez as [l' El]. rewrite El.
  rewrite length_app. cbn [length].
  replace (length l' + 1 - 1)%nat with (length l') by lia.
  by rewrite drop_app_length.
Qed.

(** A value that is not [None] whose text can be fixed is masked by the
    rule the table selects; the indexing of the source never fails. *)
Lemma mask_value_dispatch (key : Py.str) (v : pyvalue) (s : Py.str) :
  v ≠ VNone → string_form key v = Ok s →
  mask_value key v = Ok (VStr (apply_rule (dispatch key s) key s)).
Proof.
  intros Hv Hs. unfold string_form in Hs.
  unfold mask_value. destruct v as [|s0|n0|f0]; [done | | |].
  all: cbv beta iota zeta; rewrite Hs; cbn [mbind result_bind];
    rewrite is_phone_number_str; unfold dispatch, or_else;
    destruct (Py.str_eqb key k_phone); cbn [orb mbind result_bind apply_rule];
    [reflexivity |];
    destruct (Re.re_match phone_pattern s); cbn [orb mbind result_bind apply_rule];
    [reflexivity |];
    rewrite is_aadhar_str;
    destruct (Py.str_eqb key k_aadhar); cbn [orb mbind result_bind apply_rule];
    [reflexivity |];
    destruct (Re.re_match aadhar_pattern s); cbn [orb mbind result_bind apply_rule];
    [reflexivity |];
    destruct (Py.str_eqb key k_passport || is_passport (VStr s));
    [cbn [apply_rule];
     destruct (bool_decide (3 ≤ length s)%nat) eqn:Hlen; [| reflexivity];
     apply bool_decide_eq_true in Hlen;
     destruct (first_last_ok s Hlen) as (a & z & -> & -> & <-); reflexivity |];
    destruct (Py.str_eqb key k_upi_id || is_upi_id (VStr s)); [reflexivity |];
    destruct (Py.str_eqb key k_email || is_email (VStr s)); [reflexivity |];
    destruct (Py.str_eqb key k_name && is_full_name (VStr s));
    [rewrite map_mask_initial_ok; reflexivity |];
    destruct (bool_decide (key ∈ [k_first_name; k_last_name]));
    [rewrite mask_initial_ok; reflexivity |];
    destruct (Py.str_eqb key k_address); [reflexivity |];
    destruct (bool_decide (key ∈ [k_device_id; k_ip_address])); reflexivity.
Qed.

Lemma mask_value_raises (key : Py.str) (v : pyvalue) (e : exn) :
  v ≠ VNone → string_form key v = Raise e → mask_value key v = Raise e.
Proof.
  intros Hv Hs. unfold string_form in Hs. unfold mask_value.
  destruct v; [done | | |]; cbv beta iota zeta; by rewrite Hs.
Qed.

Lemma split_on_length (sep : Py.char) (s : Py.str) :
  length (Py.split_on sep s) = S (Py.count sep s).
Proof.
  unfold Py.count. induction s as [|c t IH]; [reflexivity |]. cbn [Py.split_on List.filter].
  rewrite (N.eqb_sym sep c). destruct (c =? sep).
  - cbn [length]. by rewrite IH.
  - destruct (Py.split_on sep t) as [|p ps]; [simpl in IH; lia |]. exact IH.
Qed.

Lemma mask_at_many (s : Py.str) :
  (2 ≤ Py.count (ord "@") s)%nat → mask_at s = Py.xs (length s).
Proof.
  intros H. unfold mask_at. pose proof (split_on_length (ord "@") s) as Hl.
  destruct (Py.split_on (ord "@") s) as [|u [|d [|x ps]]]; try reflexivity.
  cbn [length] in Hl. lia.
Qed.

(** The output of the aadhar rule: six [X]s between the first and the last
    three characters whatever the length, so twelve characters for any
    text of twelve or more. *)
Lemma aadhar_rule_output (key : Py.str) (v : pyvalue) (s : Py.str) :
  v ≠ VNone → string_form key v = Ok s → dispatch key s = RAadhar →
  ∃ out, mask_value key v = Ok (VStr out)
         ∧ ((12 ≤ length s)%nat →
              out = take 3 s ++ Py.xs 6 ++ drop (length s - 3) s
              ∧ length out = 12%nat)
         ∧ ((length s < 12)%nat → out = Py.xs (length s)).
Proof.
  intros Hv Hs Hd. rewrite (mask_value_dispatch key v s Hv Hs), Hd.
  eexists. split; [reflexivity |]. cbn [apply_rule]. split; intros Hlen.
  - rewrite bool_decide_eq_true_2 by done. split; [reflexivity |].
    unfold Py.slice_to, Py.slice_last, Py.xs.
    rewrite !length_app, length_take, length_drop, length_replicate. lia.
  - rewrite bool_decide_eq_false_2 by lia. reflexivity.
Qed.

(** C10. A value that reaches the [upi_id] or the [email] branch and whose
    text has two or more [@] is replaced by as many [X]s as it has
    characters: the result is the character [X], [len(s)] times. *)
Theorem several_at_signs_fully_masked (key : Py.str) (v : pyvalue) (s : Py.str) :
  v ≠ VNone → string_form key v = Ok s →
  dispatch key s = RUpi ∨ dispatch key s = REmail →
  (2 ≤ Py.count (ord "@") s)%nat →
  (3 ≤ length (Py.split_on (ord "@") s))%nat
  ∧ mask_value key v = Ok (VStr (replicate (length s) (ord "X"))).
Proof.
  intros Hv Hs Hd Hat. split.
  - rewrite split_on_length. lia.
  - rewrite (mask_value_dispatch key v s Hv Hs).
    destruct Hd as [-> | ->]; cbn [apply_rule]; by rewrite mask_at_many.
Qed.

(** ** When the processor returns *)

Lemma string_form_ok (key : Py.str) (v : pyvalue) :
  int_fails (key, v) = false → ∃ s, string_form key v = Ok s.
Proof.
  unfold int_fails, string_form. cbn [fst snd].
  destruct v as [| |n|[|neg|r t nz]]; cbn [is_number andb py_int]; eauto;
    intros H; try rewrite H; eauto;
    destruct (bool_decide (key ∈ [k_phone; k_aadhar])); cbn [mbind result_bind];
    eauto.
Qed.

Lemma mask_value_ok (key : Py.str) (v : pyvalue) :
  int_fails (key, v) = false →
  ∃ m, mask_value key v = Ok m ∧ ∀ k, int_fails (k, m) = false.
Proof.
  intros H. destruct (decide (v = VNone)) as [->|Hv].
  - exists VNone. done.
  - destruct (string_form_ok key v H) as [s Hs].
    rewrite (mask_value_dispatch key v s Hv Hs). eauto.
Qed.

Lemma convertible_setitem (k : Py.str) (v : pyvalue) (d : dict) :
  convertible d → int_fails (k, v) = false → convertible (dict_setitem k v d).
Proof.
  unfold convertible. induction d as [|[k' v'] d IH]; intros Hd Hv; simpl.
  - by constructor.
  - apply Forall_cons in Hd as [H Hd].
    destruct (Py.str_eqb k' k) eqn:E.
    + apply str_eqb_eq in E as ->. by constructor.
    + constructor; auto.
Qed.

Lemma redact_ok (fs : list Py.str) (d : dict) :
  convertible d → ∃ d', redact d fs = Ok d' ∧ convertible d'.
Proof.
  unfold redact. revert d. induction fs as [|f fs IH]; intros d Hd; cbn [for_each].
  - eauto.
  - assert (∃ d1, redact_field d f = Ok d1 ∧ convertible d1) as (d1 & -> & Hd1).
    { unfold redact_field, dict_getitem.
      destruct (dict_contains f d) eqn:E; [| eauto].
      apply contains_find in E as [v Hv]. rewrite Hv. cbn [mbind result_bind].
      assert (Hok : int_fails (f, v) = false).
      { apply find_elem in Hv. unfold convertible in Hd.
        rewrite Forall_forall in Hd. by apply Hd. }
      destruct (mask_value_ok f v Hok) as (m & -> & Hm). cbn [mbind result_bind].
      eexists. split; [reflexivity |]. by apply convertible_setitem. }
    cbn [mbind result_bind]. by apply IH.
Qed.

(** On a record with no infinite or NaN float under [phone] or [aadhar],
    the processor returns: a flag and a reference to the copy. *)
Lemma process_record_returns_when_convertible (l : loc) (h : heap) (r : dict) :
  h !! l = Some r → convertible r →
  ∃ is_pii red, process_record l h = (h ++ [red], Ok (is_pii, length h)).
Proof.
  intros Hl Hr. destruct (process_record_run l h r Hl) as (d' & H1 & _ & H3).
  assert (∃ b d, redacted r = Ok (b, d)) as (b & d & Hd).
  { unfold redacted.
    destruct (existsb flagged r || bool_decide (2 ≤ signal_count r)%nat); [| eauto].
    destruct (redact_ok (standalone_fields r) r Hr) as (d1 & -> & Hd1).
    cbn [mbind result_bind].
    destruct (bool_decide (2 ≤ signal_count r)%nat).
    - destruct (redact_ok (combinatorial_fields r) d1 Hd1) as (d2 & -> & _). eauto.
    - eauto. }
  rewrite Hd in H3. destruct H3 as [-> H3]. exists b, d.
  destruct (process_record l h) as [h' o]. cbn [fst snd] in *. congruence.
Qed.

End Masking.

(** ** The masking engine on concrete values *)

(** C3, the failing input. Under the key [aadhar] a 13-digit text comes
    back with 12 characters: the first three, six [X]s, the last three.
    The middle has seven characters; one is dropped, not masked. *)
Theorem aadhar_mask_of_thirteen_digits :
  mask_value (U:=basic_latin) py"aadhar" (VStr py"1234567890123")
  = Ok (VStr py"123XXXXXX123")
  ∧ length py"1234567890123" = 13%nat
  ∧ length py"123XXXXXX123" = 12%nat.
Proof. split_and!; vm_compute; reflexivity. Qed.

(** ["a@ybl@x"] under the key [upi_id]: three parts, seven [X]s. *)
Lemma several_at_signs_fully_masked_witness :
  (3 ≤ length (Py.split_on (ord "@") py"a@ybl@x"))%nat
  ∧ mask_value (U:=basic_latin) py"upi_id" (VStr py"a@ybl@x")
    = Ok (VStr (replicate (length py"a@ybl@x") (ord "X"))).
Proof.
  apply (several_at_signs_fully_masked (U:=basic_latin) py"upi_id"
           (VStr py"a@ybl@x") py"a@ybl@x").
  - discriminate.
  - reflexivity.
  - left. vm_compute; reflexivity.
  - vm_compute. lia.
Defined.

(** C9, the failing input. [{"phone": 1e999}] decodes to a record whose
    [phone] is the float infinity. The standalone classifier flags the
    field by its name, [mask_value] calls [int] on it, and the
    OverflowError leaves [process_record]. *)
Theorem infinite_phone_raises :
  detect_standalone_pii (U:=basic_latin) infinite_phone = Ok (true, [py"phone"])
  ∧ mask_value (U:=basic_latin) py"phone" (VFloat (FInf false))
    = Raise OverflowError
  ∧ process_record (U:=basic_latin) 0%nat [infinite_phone]
    = ([infinite_phone; infinite_phone], Raise OverflowError).
Proof. split_and!; vm_compute; reflexivity. Qed.

(** * What a pattern matches

    The matcher computes the end positions of the matches; [den] says what
    a match is. The two agree, and the recognizers are read off [den]. *)

Section Regex_semantics.
Context {U : Unicode}.
Import Re.

Lemma after_cons (b : option Py.char) (x : Py.char) (t rest : Py.str) :
  after b (x :: t) rest = after (Some x) t rest.
Proof.
  unfold after. destruct t as [|y t]; [reflexivity |].
  change (last (x :: y :: t)) with (last (y :: t)).
  destruct (last (y :: t)) eqn:E; [reflexivity |].
  by apply last_None in E.
Qed.

Lemma rep_den (cs : charset) (s : Py.str) (lo : nat) (hi : option nat)
    (b : option Py.char) (c' : cursor) :
  c' ∈ rep cs lo hi b s ↔
  ∃ t rest, s = t ++ rest ∧ all_in cs t ∧ (lo ≤ length t)%nat
            ∧ within hi (length t) ∧ c' = after b t rest.
Proof.
  revert lo hi b. induction s as [|x s IH]; intros lo hi b.
  - assert (Hnil : c' ∈ (match lo with O => [Cursor b []] | S _ => [] end) ↔
      ∃ t rest, @nil Py.char = t ++ rest ∧ all_in cs t ∧ (lo ≤ length t)%nat
                ∧ within hi (length t) ∧ c' = after b t rest).
    { split.
      - destruct lo; [| intros H; inversion H].
        intros ->%list_elem_of_singleton. exists [], []. split_and!; try done.
        + constructor.
        + destruct hi; simpl; [lia | done].
      - intros (t & rest & Ht & _ & Hlo & _ & ->).
        symmetry in Ht. apply app_eq_nil in Ht as [-> ->].
        simpl in Hlo. destruct lo; [| lia]. left. }
    cbn [rep]. destruct hi as [[|m]|]; by rewrite app_nil_r.
  - cbn [rep]. rewrite elem_of_app. split.
    + intros [H | H].
      * destruct lo; [| inversion H]. apply list_elem_of_singleton in H as ->.
        exists [], (x :: s). split_and!; try done.
        -- constructor.
        -- destruct hi; simpl; [lia | done].
      * assert (Hhi : hi ≠ Some O) by (intros ->; inversion H).
        assert (H' : c' ∈ (if in_set cs x
                           then rep cs (pred lo) (pred <$> hi) (Some x) s else [])).
        { destruct hi as [[|m]|]; done. }
        clear H. destruct (in_set cs x) eqn:Ex; [| inversion H'].
        apply IH in H' as (t & rest & -> & Ht & Hlo & Hhi' & ->).
        exists (x :: t), rest. split_and!; try done.
        -- by constructor.
        -- simpl. lia.
        -- destruct hi as [[|m]|]; simpl in *; [done | lia | done].
        -- by rewrite after_cons.
    + intros (t & rest & Hs & Ht & Hlo & Hhi & Hc).
      destruct t as [|y t].
      * left. simpl in Hs, Hlo. subst rest c'. destruct lo; [| lia]. left.
      * right. simpl in Hs. injection Hs as -> ->.
        apply Forall_cons in Ht as [Hy Ht]. simpl in Hlo, Hhi.
        assert (H' : c' ∈ rep cs (pred lo) (pred <$> hi) (Some y) (t ++ rest)
                    → c' ∈ match hi with
                           | Some O => []
                           | _ => if in_set cs y
                                  then rep cs (pred lo) (pred <$> hi) (Some y) (t ++ rest)
                                  else []
                           end).
        { rewrite Hy. destruct hi as [[|m]|]; [simpl in Hhi; lia | done | done]. }
        rewrite after_cons in Hc. apply H'. apply IH.
        exists t, rest. split_and!; try done.
        -- lia.
        -- destruct hi as [[|m]|]; simpl in *; [lia | lia | done].
Qed.

(** The matcher finds exactly the matches. *)
Lemma run_den (r : regex) (c c' : cursor) : c' ∈ run r c ↔ den r c c'.
Proof.
  revert c c'. induction r as [|d|cs|cs lo hi| | | |r1 IH1 r2 IH2|r1 IH1 r2 IH2];
    intros c c'; cbn [run den].
  - by rewrite list_elem_of_singleton.
  - destruct (ahead c) as [|x t].
    + split; [intros H; inversion H | intros (t & H & _); done].
    + destruct (x =? d) eqn:E.
      * apply N.eqb_eq in E as ->. rewrite list_elem_of_singleton. split.
        -- intros ->. eauto.
        -- intros (t' & [= ->] & ->). done.
      * apply N.eqb_neq in E. split; [intros H; inversion H |].
        intros (t' & [= ? ?] & _). done.
  - destruct (ahead c) as [|x t].
    + split; [intros H; inversion H | intros (x & t & H & _); done].
    + destruct (in_set cs x) eqn:E.
      * rewrite list_elem_of_singleton. split.
        -- intros ->. eauto.
        -- intros (x' & t' & [= -> ->] & _ & ->). done.
      * split; [intros H; inversion H |].
        intros (x' & t' & [= -> ->] & ? & _). congruence.
  - apply rep_den.
  - destruct (boundary c).
    + rewrite list_elem_of_singleton. split; [by intros -> | by intros [_ ->]].
    + split; [intros H; inversion H | intros [? _]; done].
  - destruct (behind c).
    + split; [intros H; inversion H | intros [? _]; done].
    + rewrite list_elem_of_singleton. split; [by intros -> | by intros [_ ->]].
  - destruct (at_end c).
    + rewrite list_elem_of_singleton. split; [by intros -> | by intros [_ ->]].
    + split; [intros H; inversion H | intros [? _]; done].
  - rewrite list_elem_of_bind. split.
    + intros (m & H2 & H1). exists m. by rewrite <- IH1, <- IH2.
    + intros (m & H1 & H2). exists m. by rewrite IH1, IH2.
  - rewrite elem_of_app, IH1, IH2. done.
Qed.

Lemma matches_at_den (r : regex) (c : cursor) :
  matches_at r c = true ↔ ∃ c', den r c c'.
Proof.
  unfold matches_at. destruct (run r c) as [|c0 l] eqn:E.
  - split; [done |]. intros [c' H]. apply run_den in H. rewrite E in H. inversion H.
  - split; [| done]. intros _. exists c0. apply run_den. rewrite E. left.
Qed.

End Regex_semantics.

(** * What the recognizers accept *)

Section Recognizers.
Context {U : Unicode}.
Import Re.

Lemma word_of_decimal (c : Py.char) : is_decimal c = true → is_word c = true.
Proof. intros H. unfold is_word. by rewrite (decimal_alnum c H). Qed.

Lemma word_of_ascii_alnum (c : Py.char) :
  Py.alnum_of c = true → is_word c = true.
Proof.
  intros H. unfold is_word. rewrite alnum_ascii, H; [done |].
  unfold Py.alnum_of, Py.digit_of, Py.upper_of, Py.lower_of in H.
  repeat match type of H with
    | context [?a <=? ?b] => destruct (N.leb_spec a b); simpl in H
    end; try done; lia.
Qed.

Lemma in_range (lo hi c : Py.char) :
  in_set [IRange lo hi] c = true ↔ lo ≤ c ≤ hi.
Proof.
  unfold in_set. cbn [existsb in_item]. rewrite orb_false_r, andb_true_iff.
  by rewrite !N.leb_le.
Qed.

Lemma all_in_digits (t : Py.str) : all_in [IDigit] t ↔ digits t.
Proof.
  unfold all_in, digits, in_set. cbn [existsb in_item].
  apply Forall_proper; [| done]. intros c. by rewrite orb_false_r.
Qed.

Lemma after_behind (b : option Py.char) (t rest : Py.str) (x : Py.char) :
  last t = Some x → after b t rest = Cursor (Some x) rest.
Proof. intros H. unfold after. by rewrite H. Qed.

(** After a text that ends in a word character, [\b] holds exactly when
    the text does not go on with one. *)
Lemma boundary_after (b : option Py.char) (t rest : Py.str) (x : Py.char) :
  last t = Some x → is_word x = true →
  boundary (after b t rest) = true ↔ ends_here rest.
Proof.
  intros Hl Hx. rewrite (after_behind _ _ _ _ Hl). unfold boundary, ends_here.
  cbn [behind ahead word_at]. rewrite Hx. by destruct (word_at (head rest)).
Qed.

(** [\b body \b] from the start of [s]: [s] starts with a word character,
    [body] matches a prefix, and [\b] holds where it ends. *)
Lemma re_match_bounded (r : regex) (s : Py.str) :
  re_match (bounded r) s = true ↔
  word_at (head s) = true
  ∧ ∃ c', den r (Cursor None s) c' ∧ boundary c' = true.
Proof.
  unfold re_match. rewrite matches_at_den. unfold bounded.
  cbn [cat foldr den]. split.
  - intros (c' & m1 & [Hb ->] & m2 & Hr & m3 & [Hb' ->] & ->).
    split; [| eauto]. unfold boundary in Hb. cbn [behind ahead word_at] in Hb.
    by destruct (word_at (head s)).
  - intros (Hw & c' & Hr & Hb'). exists c', (Cursor None s). split.
    + split; [| done]. unfold boundary. cbn [behind ahead word_at]. by rewrite Hw.
    + exists c'. split; [done |]. exists c'. done.
Qed.

Lemma last_Forall {A} (P : A → Prop) (t : list A) :
  t ≠ [] → Forall P t → ∃ x, last t = Some x ∧ P x.
Proof.
  intros Hne Ht. destruct (last t) as [x|] eqn:E.
  - exists x. split; [done |]. rewrite Forall_forall in Ht. apply Ht.
    apply last_Some in E as [l' ->]. apply elem_of_app. right. left.
  - by apply last_None in E.
Qed.

Lemma boundary_cursor (x : Py.char) (rest : Py.str) :
  is_word x = true → boundary (Cursor (Some x) rest) = true ↔ ends_here rest.
Proof.
  intros Hx. unfold boundary, ends_here. cbn [behind ahead word_at]. rewrite Hx.
  by destruct (word_at (head rest)).
Qed.

Lemma word_of_range (lo hi c : Py.char) :
  (∀ x, lo ≤ x ≤ hi → Py.alnum_of x = true) → lo ≤ c ≤ hi → is_word c = true.
Proof. intros H Hc. apply word_of_ascii_alnum. auto. Qed.

Lemma alnum_digit (x : Py.char) : ord "0" ≤ x ≤ ord "9" → Py.alnum_of x = true.
Proof.
  unfold ord. simpl. intros H. unfold Py.alnum_of, Py.digit_of.
  destruct (N.leb_spec 48 x), (N.leb_spec x 57); simpl; try done; lia.
Qed.

Lemma alnum_upper (x : Py.char) : ord "A" ≤ x ≤ ord "Z" → Py.alnum_of x = true.
Proof.
  unfold ord. simpl. intros H. unfold Py.alnum_of, Py.upper_of.
  destruct (N.leb_spec 65 x), (N.leb_spec x 90); simpl; try done;
    try lia; apply orb_true_r.
Qed.

Lemma alnum_lower (x : Py.char) : ord "a" ≤ x ≤ ord "z" → Py.alnum_of x = true.
Proof.
  unfold ord. simpl. intros H. unfold Py.alnum_of, Py.lower_of.
  destruct (N.leb_spec 97 x), (N.leb_spec x 122); simpl; try done;
    try lia; apply orb_true_r.
Qed.

Lemma initial_and_digits_iff (lo hi : Py.char) (n : nat) (s : Py.str) :
  (∀ x, lo ≤ x ≤ hi → Py.alnum_of x = true) → (0 < n)%nat →
  re_match (bounded (cat [Set_ [IRange lo hi]; exactly n [IDigit]])) s = true ↔
  ∃ p rest, s = p ++ rest ∧ initial_and_digits lo hi n p ∧ ends_here rest.
Proof.
  intros Hrange Hn. rewrite re_match_bounded. cbn [cat foldr den exactly].
  split.
  - intros (_ & c' & (m & (d & t & Hs & Hd & ->) & m' & Hrep & ->) & Hb).
    cbn [ahead behind] in *. destruct Hrep as (ds & rest & -> & Hds & Hlo & Hhi & ->).
    subst s. apply in_range in Hd. apply all_in_digits in Hds. simpl in Hhi.
    assert (Hne : ds ≠ []) by (intros ->; simpl in Hlo; lia).
    destruct (last_Forall _ ds Hne Hds) as (x & Hx & Hxd).
    apply (boundary_after _ _ _ _ Hx (word_of_decimal _ Hxd)) in Hb.
    exists (d :: ds), rest. split; [done |]. split; [| done].
    exists d, ds. split_and!; try done; lia.
  - intros (p & rest & -> & (d & ds & -> & Hd & Hlen & Hds) & Hend).
    split; [exact (word_of_range _ _ _ Hrange Hd) |].
    assert (Hne : ds ≠ []) by (intros ->; simpl in Hlen; lia).
    destruct (last_Forall _ ds Hne Hds) as (x & Hx & Hxd).
    exists (after (Some d) ds rest). split.
    + exists (Cursor (Some d) (ds ++ rest)). split.
      * exists d, (ds ++ rest). split_and!; try done. by apply in_range.
      * eexists. split; [| reflexivity]. exists ds, rest. cbn [ahead behind].
        split_and!; try done; [by apply all_in_digits | lia | simpl; lia].
    + by apply (boundary_after _ _ _ _ Hx (word_of_decimal _ Hxd)).
Qed.

(** *** phone: [6]..[9], then nine digits *)

Lemma phone_pattern_iff (s : Py.str) :
  re_match phone_pattern s = true ↔
  ∃ p rest, s = p ++ rest ∧ phone_shape p ∧ ends_here rest.
Proof.
  apply initial_and_digits_iff; [| lia]. intros x Hx. apply alnum_digit.
  unfold ord in *. simpl in *. lia.
Qed.

(** *** passport: an ASCII capital, then seven digits *)

Lemma passport_pattern_iff (s : Py.str) :
  re_match passport_pattern s = true ↔
  ∃ p rest, s = p ++ rest ∧ passport_shape p ∧ ends_here rest.
Proof. apply initial_and_digits_iff; [apply alnum_upper | lia]. Qed.

(** *** aadhar: twelve digits *)

Lemma aadhar_pattern_iff (s : Py.str) :
  re_match aadhar_pattern s = true ↔
  ∃ p rest, s = p ++ rest ∧ aadhar_shape p ∧ ends_here rest.
Proof.
  unfold aadhar_pattern. rewrite re_match_bounded. cbn [den exactly ahead behind].
  split.
  - intros (_ & c' & (p & rest & -> & Hp & Hlo & Hhi & ->) & Hb).
    apply all_in_digits in Hp. simpl in Hhi.
    assert (Hne : p ≠ []) by (intros ->; simpl in Hlo; lia).
    destruct (last_Forall _ p Hne Hp) as (x & Hx & Hxd).
    apply (boundary_after _ _ _ _ Hx (word_of_decimal _ Hxd)) in Hb.
    exists p, rest. split_and!; try done. split; [lia | done].
  - intros (p & rest & -> & [Hlen Hp] & Hend).
    assert (Hne : p ≠ []) by (intros ->; simpl in Hlen; lia).
    destruct (last_Forall _ p Hne Hp) as (x & Hx & Hxd). split.
    + destruct p as [|d p]; [done |]. apply Forall_cons in Hp as [Hd _].
      cbn [app head word_at]. by apply word_of_decimal.
    + exists (after None p rest). split.
      * exists p, rest. split_and!; try done; [by apply all_in_digits | lia | simpl; lia].
      * by apply (boundary_after _ _ _ _ Hx (word_of_decimal _ Hxd)).
Qed.

(** *** upi_id: word characters, [@], one of the handles *)

Lemma cursor_eta (c : cursor) : Cursor (behind c) (ahead c) = c.
Proof. by destruct c. Qed.

Lemma den_word (w : Py.str) (c c' : cursor) :
  den (word w) c c' ↔
  ahead c = w ++ ahead c' ∧ c' = after (behind c) w (ahead c').
Proof.
  unfold word. revert c. induction w as [|x w IH]; intros c; cbn [fmap list_fmap cat foldr den].
  - unfold after. cbn [last app]. split.
    + intros ->. by rewrite cursor_eta.
    + intros [H ->]. rewrite <- H. by rewrite cursor_eta.
  - split.
    + intros (m & (t & Hc & ->) & Hm). apply IH in Hm as [Hm Hc'].
      cbn [ahead behind] in *. subst t. split; [done |]. by rewrite after_cons.
    + intros [Hc Hc']. exists (Cursor (Some x) (w ++ ahead c')). split; [eauto |].
      apply IH. cbn [ahead behind]. split; [done |].
      by rewrite <- (after_cons (behind c)).
Qed.

Lemma den_alt (rs : list regex) (c c' : cursor) :
  den (alt rs) c c' ↔ ∃ r, r ∈ rs ∧ den r c c'.
Proof.
  induction rs as [|r rs IH].
  - cbn [alt den]. split.
    + intros (x & t & _ & H & _). done.
    + intros (r & H & _). inversion H.
  - destruct rs as [|r2 rs].
    + cbn [alt]. split.
      * intros H. exists r. split; [left | done].
      * intros (r' & ->%list_elem_of_singleton & H). done.
    + change (alt (r :: r2 :: rs)) with (Alt r (alt (r2 :: rs))). cbn [den].
      rewrite IH. split.
      * intros [H | (r' & Hr & H)]; [exists r; split; [left | done] |].
        exists r'. split; [by right | done].
      * intros (r' & Hr & H). apply elem_of_cons in Hr as [->|Hr]; [by left |].
        right. eauto.
Qed.

Lemma den_alt_words (ws : list Py.str) (c c' : cursor) :
  den (alt (word <$> ws)) c c' ↔
  ∃ w, w ∈ ws ∧ ahead c = w ++ ahead c' ∧ c' = after (behind c) w (ahead c').
Proof.
  rewrite den_alt. split.
  - intros (r & Hr & H). apply list_elem_of_fmap in Hr as (w & -> & Hw).
    apply den_word in H. eauto.
  - intros (w & Hw & H). exists (word w). split.
    + apply list_elem_of_fmap. eauto.
    + by apply den_word.
Qed.

Lemma handle_ends_in_letter (w : Py.str) :
  w ∈ upi_handles → ∃ x, last w = Some x ∧ is_word x = true.
Proof.
  intros Hw.
  assert (Hall : forallb (λ w, match last w with
                               | Some x => Py.alnum_of x
                               | None => false
                               end) upi_handles = true) by (by vm_compute).
  rewrite forallb_forall in Hall. apply list_elem_of_In, Hall in Hw.
  destruct (last w) as [x|]; [| done]. exists x. split; [done |].
  by apply word_of_ascii_alnum.
Qed.

Lemma in_word_or_digit (c : Py.char) : in_set [IWord; IDigit] c = is_word c.
Proof.
  unfold in_set. cbn [existsb in_item]. rewrite orb_false_r.
  destruct (is_decimal c) eqn:E; [| by rewrite orb_false_r].
  by rewrite (word_of_decimal c E).
Qed.

Lemma upi_pattern_iff (s : Py.str) :
  re_match upi_pattern s = true ↔
  ∃ p rest, s = p ++ rest ∧ upi_shape p ∧ ends_here rest.
Proof.
  unfold upi_pattern. rewrite re_match_bounded.
  cbn [cat foldr den plus ahead behind]. split.
  - intros (_ & c' & (m1 & (loc & r1 & -> & Hloc & Hlen & _ & ->) & m2
            & (t & Ht & ->) & m3 & Halt & ->) & Hb).
    cbn [ahead behind after] in *. subst r1.
    apply den_alt_words in Halt as (h & Hh & Ht & Hc'). cbn [ahead behind] in *.
    destruct (handle_ends_in_letter h Hh) as (x & Hx & Hxw).
    rewrite Hc', (after_behind _ _ _ _ Hx) in Hb. apply boundary_cursor in Hb; [| done].
    exists (loc ++ ord "@" :: h), (ahead m3). split_and!; try done.
    + rewrite Ht. by rewrite <- app_assoc.
    + exists loc, h. split_and!; try done.
      * intros ->. simpl in Hlen. lia.
      * eapply Forall_impl; [exact Hloc |]. intros c Hc. cbv beta in Hc.
        by rewrite in_word_or_digit in Hc.
  - intros (p & rest & -> & (loc & h & -> & Hne & Hloc & Hh) & Hend).
    destruct (handle_ends_in_letter h Hh) as (x & Hx & Hxw). split.
    + destruct loc as [|c loc]; [done |]. apply Forall_cons in Hloc as [Hc _].
      done.
    + exists (Cursor (Some x) rest). split; [| by apply boundary_cursor].
      exists (after None loc (ord "@" :: h ++ rest)). split.
      * exists loc, (ord "@" :: h ++ rest). split_and!; try done.
        -- by rewrite <- app_assoc.
        -- eapply Forall_impl; [exact Hloc |]. intros c Hc. cbv beta in *.
           by rewrite in_word_or_digit.
        -- destruct loc; [done | simpl; lia].
      * exists (Cursor (Some (ord "@")) (h ++ rest)). split; [by exists (h ++ rest) |].
        eexists. split; [| reflexivity]. apply den_alt_words. exists h.
        cbn [ahead behind]. split_and!; try done. by rewrite (after_behind _ _ _ _ Hx).
Qed.

(** *** email: local part, [@], domain, [.], two or more ASCII letters *)

Lemma letter_is_word (x : Py.char) :
  in_set [upperAZ; loweraz] x = true → is_word x = true.
Proof.
  unfold in_set, upperAZ, loweraz. cbn [existsb in_item]. rewrite orb_false_r.
  intros [H | H]%orb_true_iff; apply andb_true_iff in H as [H1 H2];
    apply N.leb_le in H1, H2; apply word_of_ascii_alnum;
    [by apply alnum_upper | by apply alnum_lower].
Qed.

Lemma nonempty_length {A} (l : list A) : l ≠ [] ↔ (1 ≤ length l)%nat.
Proof. destruct l; simpl; split; try done; lia. Qed.

Lemma email_pattern_iff (s : Py.str) :
  re_match email_pattern s = true ↔
  word_at (head s) = true
  ∧ ∃ p rest, s = p ++ rest ∧ email_shape p ∧ ends_here rest.
Proof.
  unfold email_pattern. rewrite re_match_bounded.
  cbn [cat foldr den plus ahead behind]. split.
  - intros (Hw & c' & (m1 & (loc & r1 & Hs & Hloc & Hlen & _ & ->) & m2
            & (r2 & Hr1 & ->) & m3 & (dom & r3 & Hr2 & Hdom & Hdlen & _ & ->)
            & m4 & (r4 & Hr3 & ->) & m5
            & (tld & rest & Hr4 & Htld & Htlen & _ & ->) & ->) & Hb).
    cbn [ahead behind after] in *. subst r1 r2 r3 r4. split; [done |].
    assert (Hne : tld ≠ []) by (intros ->; simpl in Htlen; lia).
    destruct (last_Forall _ tld Hne Htld) as (x & Hx & Hxl).
    apply (boundary_after _ _ _ _ Hx (letter_is_word _ Hxl)) in Hb.
    exists (loc ++ ord "@" :: dom ++ ord "." :: tld), rest. split_and!; try done.
    + rewrite Hs. rewrite <- !app_assoc. cbn [app]. by rewrite <- !app_assoc.
    + exists loc, dom, tld. split_and!; try done; by apply nonempty_length.
  - intros (Hw & p & rest & -> & (loc & dom & tld & -> & Hl & Hloc & Hd & Hdom
                                  & Htlen & Htld) & Hend).
    split; [done |].
    assert (Hne : tld ≠ []) by (intros ->; simpl in Htlen; lia).
    destruct (last_Forall _ tld Hne Htld) as (x & Hx & Hxl).
    exists (after (Some (ord ".")) tld rest).
    split; [| by apply (boundary_after _ _ _ _ Hx (letter_is_word _ Hxl))].
    exists (after None loc (ord "@" :: dom ++ ord "." :: tld ++ rest)). split.
    { exists loc, (ord "@" :: dom ++ ord "." :: tld ++ rest).
      split_and!; try done; [| by apply nonempty_length].
      rewrite <- !app_assoc. cbn [app]. by rewrite <- !app_assoc. }
    exists (Cursor (Some (ord "@")) (dom ++ ord "." :: tld ++ rest)).
    split; [by eexists |].
    exists (after (Some (ord "@")) dom (ord "." :: tld ++ rest)). split.
    { exists dom, (ord "." :: tld ++ rest).
      split_and!; try done. by apply nonempty_length. }
    exists (Cursor (Some (ord ".")) (tld ++ rest)). split; [by eexists |].
    eexists. split; [| reflexivity]. exists tld, rest. split_and!; done.
Qed.

(** *** full name: two capitalized ASCII words and one space *)

Lemma all_in_lower (l : Py.str) :
  all_in [loweraz] l ↔ Forall (λ c, ord "a" ≤ c ≤ ord "z") l.
Proof. unfold all_in, loweraz. apply Forall_proper; [| done]. intros c. apply in_range. Qed.

Lemma at_end_iff (c : cursor) :
  at_end c = true ↔ ahead c = [] ∨ ahead c = [10].
Proof.
  unfold at_end. destruct (ahead c) as [|n [|m t]].
  - split; [by left | done].
  - rewrite N.eqb_eq. split; [intros ->; by right | intros [? | [= ->]]; done].
  - split; [done | intros [? | ?]; done].
Qed.

Lemma name_pattern_iff (s : Py.str) :
  re_match name_pattern s = true ↔
  ∃ p, name_shape p ∧ (s = p ∨ s = p ++ [10]).
Proof.
  unfold name_pattern, re_match. rewrite matches_at_den.
  cbn [cat foldr den plus ahead behind]. split.
  - intros (c' & m0 & [_ ->] & m1 & (u1 & r1 & Hs & Hu1 & ->) & m2
            & (l1 & r2 & Hr1 & Hl1 & Hlen1 & _ & ->) & m3 & (r3 & Hr2 & ->)
            & m4 & (u2 & r4 & Hr3 & Hu2 & ->) & m5
            & (l2 & tail & Hr4 & Hl2 & Hlen2 & _ & ->) & m6 & [Hend ->] & ->).
    cbn [ahead behind after] in *. subst r1 r2 r3 r4.
    apply in_range in Hu1, Hu2. apply all_in_lower in Hl1, Hl2.
    apply at_end_iff in Hend. unfold after in Hend. cbn [ahead] in Hend.
    exists (u1 :: l1 ++ ord " " :: u2 :: l2). split.
    + exists u1, l1, u2, l2. split; [done |].
      split; (split; [done |]; split; [by apply nonempty_length | done]).
    + rewrite Hs. destruct Hend as [-> | ->]; [left | right].
      * by rewrite app_nil_r.
      * repeat (progress (cbn [app]; rewrite <- ?app_assoc)). done.
  - intros (p & (u1 & l1 & u2 & l2 & -> & (Hu1 & Hn1 & Hl1) & (Hu2 & Hn2 & Hl2))
            & Hs).
    set (tail := if decide (s = u1 :: l1 ++ ord " " :: u2 :: l2)
                 then [] else [10] : Py.str).
    assert (Hs' : s = u1 :: l1 ++ ord " " :: u2 :: l2 ++ tail).
    { unfold tail. destruct (decide _) as [-> | Hne].
      - by rewrite app_nil_r.
      - destruct Hs as [? | ->]; [done |].
        repeat (progress (cbn [app]; rewrite <- ?app_assoc)). done. }
    assert (Htail : tail = [] ∨ tail = [10]).
    { unfold tail. destruct (decide _); [by left | by right]. }
    clearbody tail. clear Hs. subst s.
    exists (after (Some u2) l2 tail), (Cursor None (u1 :: l1 ++ ord " " :: u2 :: l2 ++ tail)).
    split; [done |].
    exists (Cursor (Some u1) (l1 ++ ord " " :: u2 :: l2 ++ tail)). split.
    { exists u1. eexists. split_and!; try done. by apply in_range. }
    exists (after (Some u1) l1 (ord " " :: u2 :: l2 ++ tail)). split.
    { exists l1. eexists. split_and!; try done;
        [by apply all_in_lower | by apply nonempty_length]. }
    exists (Cursor (Some (ord " ")) (u2 :: l2 ++ tail)). split; [by eexists |].
    exists (Cursor (Some u2) (l2 ++ tail)). split.
    { exists u2. eexists. split_and!; try done. by apply in_range. }
    exists (after (Some u2) l2 tail). split.
    { exists l2, tail. split_and!; try done;
        [by apply all_in_lower | by apply nonempty_length]. }
    eexists. split; [| reflexivity]. split; [| done].
    apply at_end_iff. done.
Qed.

(** C2, as amended. The phone, aadhar, passport, upi_id and email
    recognizers return true exactly when the string starts with a text of
    the pattern's shape that is not followed by a word character (and, for
    email, the string starts with a word character): what comes after a
    character that is not a word character is not looked at. The full_name
    recognizer returns true exactly when the whole string, or the whole
    string without a final newline, has the shape of its pattern. *)
Theorem recognizers_accept_a_bounded_prefix (s : Py.str) :
  (is_phone_number (VStr s) = Ok true ↔
     ∃ p rest, s = p ++ rest ∧ phone_shape p ∧ ends_here rest)
  ∧ (is_aadhar (VStr s) = Ok true ↔
       ∃ p rest, s = p ++ rest ∧ aadhar_shape p ∧ ends_here rest)
  ∧ (is_passport (VStr s) = true ↔
       ∃ p rest, s = p ++ rest ∧ passport_shape p ∧ ends_here rest)
  ∧ (is_upi_id (VStr s) = true ↔
       ∃ p rest, s = p ++ rest ∧ upi_shape p ∧ ends_here rest)
  ∧ (is_email (VStr s) = true ↔
       word_at (head s) = true
       ∧ ∃ p rest, s = p ++ rest ∧ email_shape p ∧ ends_here rest)
  ∧ (is_full_name (VStr s) = true ↔
       ∃ p, name_shape p ∧ (s = p ∨ s = p ++ [10])).
Proof.
  split_and!.
  - rewrite is_phone_number_str, <- phone_pattern_iff.
    split; [by intros [= ->] | by intros ->].
  - rewrite is_aadhar_str, <- aadhar_pattern_iff.
    split; [by intros [= ->] | by intros ->].
  - apply passport_pattern_iff.
  - apply upi_pattern_iff.
  - apply email_pattern_iff.
  - apply name_pattern_iff.
Qed.

End Recognizers.

(** C2, counterexample. Each recognizer accepts a string that goes on
    after the text of its pattern: ten digits and [" home"] for the phone
    recognizer, and likewise for the others; the full_name recognizer
    accepts a name followed by a newline. *)
Lemma recognizers_accept_trailing_text :
  is_phone_number (U:=basic_latin) (VStr py"9876543210 home") = Ok true
  ∧ is_aadhar (U:=basic_latin) (VStr py"123456789012-34") = Ok true
  ∧ is_passport (U:=basic_latin) (VStr py"P1234567 (expired)") = true
  ∧ is_upi_id (U:=basic_latin) (VStr py"ravi@ybl.example.com") = true
  ∧ is_email (U:=basic_latin) (VStr py"ravi@example.com, or call") = true
  ∧ is_full_name (U:=basic_latin) (VStr (py"Ravi Kumar" ++ [10])) = true.
Proof. split_and!; vm_compute; reflexivity. Qed.

(** * ASCII text is read the same by every Unicode database

    The concrete runs above are computed with [basic_latin]. On a record
    whose texts are ASCII the program asks the database nothing that its
    laws do not fix, so any two instances give the same run. *)

Section Agreement.
Context (U1 U2 : Unicode).
Import Re.

Lemma is_word_agree (x : Py.char) :
  x < 128 → is_word (U:=U1) x = is_word (U:=U2) x.
Proof. intros H. unfold is_word. by rewrite !alnum_ascii. Qed.

Lemma in_item_agree (i : item) (x : Py.char) :
  x < 128 → in_item (U:=U1) i x = in_item (U:=U2) i x.
Proof.
  intros H. destruct i; cbn [in_item]; try done.
  - by rewrite !decimal_ascii.
  - by apply is_word_agree.
Qed.

Lemma in_set_agree (cs : charset) (x : Py.char) :
  x < 128 → in_set (U:=U1) cs x = in_set (U:=U2) cs x.
Proof.
  intros H. unfold in_set. induction cs as [|i cs IH]; [done |].
  cbn [existsb]. by rewrite IH, in_item_agree.
Qed.

Lemma word_at_agree (o : option Py.char) :
  (∀ x, o = Some x → x < 128) → word_at (U:=U1) o = word_at (U:=U2) o.
Proof. intros H. destruct o as [x|]; [| done]. apply is_word_agree. auto. Qed.

Lemma boundary_agree (c : cursor) :
  ascii_cursor c → boundary (U:=U1) c = boundary (U:=U2) c.
Proof.
  intros [Hb Ha]. unfold boundary. f_equal; apply word_at_agree; [done |].
  intros x Hx. destruct (ahead c) as [|y t]; [done |].
  injection Hx as ->. by apply Forall_cons in Ha as [? _].
Qed.

Lemma rep_agree (cs : charset) (s : Py.str) (lo : nat) (hi : option nat)
    (b : option Py.char) :
  Py.is_ascii s → rep (U:=U1) cs lo hi b s = rep (U:=U2) cs lo hi b s.
Proof.
  revert lo hi b. induction s as [|x s IH]; intros lo hi b Hs; [done |].
  apply Forall_cons in Hs as [Hx Hs]. cbn [rep]. f_equal.
  rewrite (in_set_agree cs x Hx).
  destruct hi as [[|m]|]; [done | |]; destruct (in_set cs x); try done; by apply IH.
Qed.

Lemma rep_ascii (cs : charset) (s : Py.str) (lo : nat) (hi : option nat)
    (b : option Py.char) (c' : cursor) :
  (∀ x, b = Some x → x < 128) → Py.is_ascii s →
  c' ∈ rep (U:=U1) cs lo hi b s → ascii_cursor c'.
Proof.
  intros Hb Hs [t [rest (-> & _ & _ & _ & ->)]]%rep_den.
  apply Forall_app in Hs as [Ht Hrest]. split; [| done].
  unfold after. cbn [behind]. intros x Hx.
  destruct (last t) as [y|] eqn:E; [| auto]. injection Hx as ->.
  apply last_Some in E as [l' ->]. apply Forall_app in Ht as [_ Ht].
  by inversion Ht.
Qed.

Lemma run_ascii (r : regex) (c c' : cursor) :
  ascii_cursor c → c' ∈ run (U:=U1) r c → ascii_cursor c'.
Proof.
  revert c c'. induction r as [|d|cs|cs lo hi| | | |r1 IH1 r2 IH2|r1 IH1 r2 IH2];
    intros c c' Hc; cbn [run].
  - by intros ->%list_elem_of_singleton.
  - destruct Hc as [Hb Ha]. destruct (ahead c) as [|x t]; [intros H; inversion H |].
    apply Forall_cons in Ha as [Hx Ht].
    destruct (x =? d); [| intros H; inversion H].
    intros ->%list_elem_of_singleton. split; [| done]. by intros ? [= <-].
  - destruct Hc as [Hb Ha]. destruct (ahead c) as [|x t]; [intros H; inversion H |].
    apply Forall_cons in Ha as [Hx Ht].
    destruct (in_set cs x); [| intros H; inversion H].
    intros ->%list_elem_of_singleton. split; [| done]. by intros ? [= <-].
  - destruct Hc as [Hb Ha]. by apply rep_ascii.
  - destruct (boundary c); [| intros H; inversion H].
    by intros ->%list_elem_of_singleton.
  - destruct (behind c); [intros H; inversion H |].
    by intros ->%list_elem_of_singleton.
  - destruct (at_end c); [| intros H; inversion H].
    by intros ->%list_elem_of_singleton.
  - intros (m & H2 & H1)%list_elem_of_bind. eauto.
  - intros [H | H]%elem_of_app; eauto.
Qed.

Lemma run_agree (r : regex) (c : cursor) :
  ascii_cursor c → run (U:=U1) r c = run (U:=U2) r c.
Proof.
  revert c. induction r as [|d|cs|cs lo hi| | | |r1 IH1 r2 IH2|r1 IH1 r2 IH2];
    intros c Hc; cbn [run]; try done.
  - destruct Hc as [_ Ha]. destruct (ahead c) as [|x t]; [done |].
    apply Forall_cons in Ha as [Hx _]. by rewrite (in_set_agree cs x Hx).
  - destruct Hc as [_ Ha]. by apply rep_agree.
  - by rewrite (boundary_agree c Hc).
  - rewrite <- (IH1 c Hc). apply Forall_bind_ext, Forall_forall.
    intros m Hm. apply IH2. by apply (run_ascii r1 c m Hc).
  - by rewrite IH1, IH2.
Qed.

Lemma start_ascii (s : Py.str) : Py.is_ascii s → ascii_cursor (Cursor None s).
Proof. intros Hs. split; [done | exact Hs]. Qed.

Lemma re_match_agree (r : regex) (s : Py.str) :
  Py.is_ascii s → re_match (U:=U1) r s = re_match (U:=U2) r s.
Proof.
  intros Hs. unfold re_match, matches_at. by rewrite (run_agree r _ (start_ascii s Hs)).
Qed.

Lemma cursors_ascii (s : Py.str) (b : option Py.char) :
  (∀ x, b = Some x → x < 128) → Py.is_ascii s →
  Forall ascii_cursor (cursors b s).
Proof.
  revert b. induction s as [|x s IH]; intros b Hb Hs; cbn [cursors].
  - constructor; [by split | constructor].
  - constructor; [by split |]. apply Forall_cons in Hs as [Hx Hs].
    apply IH; [| done]. by intros ? [= <-].
Qed.

Lemma re_search_agree (r : regex) (s : Py.str) :
  Py.is_ascii s → re_search (U:=U1) r s = re_search (U:=U2) r s.
Proof.
  intros Hs. unfold re_search.
  pose proof (cursors_ascii s None (λ x (H : None = Some x), match H with end)) as Hall.
  specialize (Hall Hs). induction Hall as [|c l Hc _ IH]; [done |].
  cbn [existsb]. rewrite IH. unfold matches_at. by rewrite (run_agree r c Hc).
Qed.

Lemma uint_chars_ascii (u : Decimal.uint) : Py.is_ascii (Py.uint_chars u).
Proof. induction u; cbn [Py.uint_chars]; constructor; done || lia. Qed.

Lemma str_of_int_ascii (z : Z) : Py.is_ascii (Py.str_of_int z).
Proof.
  unfold Py.str_of_int. destruct (Z.to_int z).
  - apply uint_chars_ascii.
  - constructor; [lia | apply uint_chars_ascii].
Qed.

Lemma py_str_ascii (v : pyvalue) : ascii_value v → Py.is_ascii (py_str v).
Proof.
  destruct v as [|s|n|[|[|]|r t nz]]; cbn [py_str ascii_value]; intros H;
    try done; try apply str_of_int_ascii; by repeat constructor.
Qed.

Lemma string_form_ascii (key : Py.str) (v : pyvalue) (s : Py.str) :
  ascii_value v → string_form key v = Ok s → Py.is_ascii s.
Proof.
  intros Hv. unfold string_form.
  destruct (is_number v && bool_decide (key ∈ [k_phone; k_aadhar])).
  - destruct (py_int v) as [n|]; [| done]. cbn [mbind result_bind].
    intros [= <-]. apply str_of_int_ascii.
  - intros [= <-]. by apply py_str_ascii.
Qed.

Lemma to_lower_ascii (s : Py.str) :
  Py.is_ascii s → Py.is_ascii (map Py.to_lower_of s).
Proof.
  intros Hs. apply Forall_fmap. eapply Forall_impl; [exact Hs |].
  intros c Hc. unfold compose, Py.to_lower_of, Py.upper_of. cbv beta in *.
  destruct (N.leb_spec 65 c), (N.leb_spec c 90); cbn [andb]; lia.
Qed.

Lemma to_upper_ascii (s : Py.str) :
  Py.is_ascii s → Py.is_ascii (map Py.to_upper_of s).
Proof.
  intros Hs. apply Forall_fmap. eapply Forall_impl; [exact Hs |].
  intros c Hc. unfold compose, Py.to_upper_of, Py.lower_of. cbv beta in *.
  destruct (N.leb_spec 97 c), (N.leb_spec c 122); cbn [andb]; lia.
Qed.

Lemma has_address_components_agree (s : Py.str) :
  Py.is_ascii s →
  has_address_components (U:=U1) (VStr s) = has_address_components (U:=U2) (VStr s).
Proof.
  intros Hs. unfold has_address_components. cbn [py_str].
  rewrite !(lower_ascii s Hs).
  by rewrite !(re_search_agree _ _ (to_lower_ascii s Hs)).
Qed.

Lemma existsb_agree {A} (f g : A → bool) (l : list A) :
  Forall (λ x, f x = g x) l → existsb f l = existsb g l.
Proof. induction 1 as [|x l Hx _ IH]; [done |]. cbn [existsb]. by rewrite Hx, IH. Qed.

Lemma filter_agree {A} (f g : A → bool) (l : list A) :
  Forall (λ x, f x = g x) l → List.filter f l = List.filter g l.
Proof. induction 1 as [|x l Hx _ IH]; [done |]. cbn [List.filter]. by rewrite Hx, IH. Qed.

Lemma flagged_agree (kv : Py.str * pyvalue) :
  ascii_value kv.2 → flagged (U:=U1) kv = flagged (U:=U2) kv.
Proof.
  destruct kv as [k v]. cbn [snd]. intros Hv%py_str_ascii. unfold flagged.
  cbn [fst snd]. destruct v; [done | | |]; cbv zeta;
    unfold is_passport, is_upi_id; cbn [py_str] in *;
    by rewrite !(re_match_agree _ _ Hv).
Qed.

Lemma contributes_agree (kv : Py.str * pyvalue) :
  ascii_value kv.2 →
  full_name_item (U:=U1) kv = full_name_item (U:=U2) kv
  ∧ email_item (U:=U1) kv = email_item (U:=U2) kv
  ∧ address_item (U:=U1) kv = address_item (U:=U2) kv
  ∧ contributes (U:=U1) kv = contributes (U:=U2) kv.
Proof.
  destruct kv as [k v]. cbn [snd]. intros Hv%py_str_ascii.
  unfold contributes, full_name_item, email_item, address_item. cbn [fst snd].
  destruct v; [done | | |];
    rewrite !(has_address_components_agree _ Hv);
    unfold is_full_name, is_email; cbn [py_str] in *;
    by rewrite !(re_match_agree _ _ Hv).
Qed.

Lemma standalone_agree (r : dict) :
  ascii_record r →
  existsb (flagged (U:=U1)) r = existsb (flagged (U:=U2)) r
  ∧ standalone_fields (U:=U1) r = standalone_fields (U:=U2) r.
Proof.
  intros Hr.
  assert (H : Forall (λ kv, flagged (U:=U1) kv = flagged (U:=U2) kv) r).
  { eapply Forall_impl; [exact Hr |]. apply flagged_agree. }
  unfold standalone_fields. by rewrite (existsb_agree _ _ _ H), (filter_agree _ _ _ H).
Qed.

Lemma combinatorial_agree (r : dict) :
  ascii_record r →
  signal_count (U:=U1) r = signal_count (U:=U2) r
  ∧ combinatorial_fields (U:=U1) r = combinatorial_fields (U:=U2) r.
Proof.
  intros Hr.
  assert (H1 : Forall (λ kv, full_name_item (U:=U1) kv = full_name_item (U:=U2) kv) r).
  { eapply Forall_impl; [exact Hr |]. intros kv H. apply (contributes_agree kv H). }
  assert (H2 : Forall (λ kv, email_item (U:=U1) kv = email_item (U:=U2) kv) r).
  { eapply Forall_impl; [exact Hr |]. intros kv H. apply (contributes_agree kv H). }
  assert (H3 : Forall (λ kv, address_item (U:=U1) kv = address_item (U:=U2) kv) r).
  { eapply Forall_impl; [exact Hr |]. intros kv H. apply (contributes_agree kv H). }
  assert (H4 : Forall (λ kv, contributes (U:=U1) kv = contributes (U:=U2) kv) r).
  { eapply Forall_impl; [exact Hr |]. intros kv H. apply (contributes_agree kv H). }
  unfold signal_count, combinatorial_fields, full_name_signal, email_signal,
    address_signal.
  by rewrite (existsb_agree _ _ _ H1), (existsb_agree _ _ _ H2),
    (existsb_agree _ _ _ H3), (filter_agree _ _ _ H4).
Qed.

Lemma detect_standalone_pii_agree (r : dict) :
  ascii_record r →
  detect_standalone_pii (U:=U1) r = detect_standalone_pii (U:=U2) r.
Proof.
  intros Hr. rewrite !detect_standalone_pii_eq.
  destruct (standalone_agree r Hr) as [-> ->]. done.
Qed.

Lemma detect_combinatorial_pii_agree (r : dict) :
  ascii_record r →
  detect_combinatorial_pii (U:=U1) r = detect_combinatorial_pii (U:=U2) r.
Proof.
  intros Hr. rewrite !detect_combinatorial_pii_eq.
  destruct (combinatorial_agree r Hr) as [-> ->]. done.
Qed.

Lemma dispatch_agree (key s : Py.str) :
  Py.is_ascii s → dispatch (U:=U1) key s = dispatch (U:=U2) key s.
Proof.
  intros Hs. unfold dispatch, is_passport, is_upi_id, is_email, is_full_name.
  cbn [py_str]. by rewrite !(re_match_agree _ _ Hs).
Qed.

Lemma dispatch_device (U : Unicode) (key s : Py.str) :
  dispatch (U:=U) key s = RDevice → Py.is_ascii key.
Proof.
  unfold dispatch.
  repeat match goal with |- context [if ?b then _ else _] => destruct b eqn:? end;
    try done.
  intros _.
  match goal with H : bool_decide (key ∈ [k_device_id; k_ip_address]) = true |- _ =>
    apply bool_decide_eq_true in H;
    apply elem_of_cons in H as [-> | ->%list_elem_of_singleton] end;
    by repeat constructor.
Qed.

Lemma split_ws_agree (sp1 sp2 : Py.char → bool) (s : Py.str) :
  Forall (λ c, sp1 c = sp2 c) s → Py.split_ws sp1 s = Py.split_ws sp2 s.
Proof.
  induction 1 as [|c t Hc Ht IH]; [done |]. cbn [Py.split_ws]. rewrite Hc, IH.
  destruct t as [|d t']; [done |]. apply Forall_cons in Ht as [-> _]. done.
Qed.

Lemma apply_rule_agree (ρ : rule) (key s : Py.str) :
  Py.is_ascii s → (ρ = RDevice → Py.is_ascii key) →
  apply_rule (U:=U1) ρ key s = apply_rule (U:=U2) ρ key s.
Proof.
  intros Hs Hk. destruct ρ; cbn [apply_rule]; try done.
  - do 2 f_equal. apply split_ws_agree. eapply Forall_impl; [exact Hs |].
    intros c Hc. cbv beta in *. by rewrite !space_ascii.
  - by rewrite !(upper_ascii key (Hk eq_refl)).
Qed.

(** The masking engine gives the same result, and an ASCII one. *)
Lemma mask_value_agree (key : Py.str) (v : pyvalue) :
  ascii_value v → mask_value (U:=U1) key v = mask_value (U:=U2) key v.
Proof.
  intros Hv. destruct (decide (v = VNone)) as [-> | Hne]; [done |].
  destruct (string_form key v) as [s|e] eqn:Es.
  - pose proof (string_form_ascii key v s Hv Es) as Hs.
    rewrite !(mask_value_dispatch key v s Hne Es). do 2 f_equal.
    rewrite (dispatch_agree key s Hs). apply apply_rule_agree; [done |].
    apply dispatch_device.
  - by rewrite !(mask_value_raises key v e Hne Es).
Qed.

Lemma xs_ascii (n : nat) : Py.is_ascii (Py.xs n).
Proof. apply Forall_replicate. lia. Qed.

Lemma split_on_ascii (sep : Py.char) (s : Py.str) :
  Py.is_ascii s → Forall Py.is_ascii (Py.split_on sep s).
Proof.
  induction 1 as [|c t Hc Ht IH]; cbn [Py.split_on].
  - by repeat constructor.
  - destruct (c =? sep); [constructor; [constructor | done] |].
    destruct (Py.split_on sep t) as [|p ps]; [by repeat constructor |].
    apply Forall_cons in IH as [Hp Hps]. constructor; [by constructor | done].
Qed.

Lemma split_ws_ascii (sp : Py.char → bool) (s : Py.str) :
  Py.is_ascii s → Forall Py.is_ascii (Py.split_ws sp s).
Proof.
  induction 1 as [|c t Hc Ht IH]; cbn [Py.split_ws]; [constructor |].
  destruct (sp c); [done |]. destruct t as [|d t']; [by repeat constructor |].
  destruct (sp d); [constructor; [by repeat constructor | done] |].
  destruct (Py.split_ws sp (d :: t')) as [|p ps]; [by repeat constructor |].
  apply Forall_cons in IH as [Hp Hps]. constructor; [by constructor | done].
Qed.

Lemma join_ascii (sep : Py.str) (ps : list Py.str) :
  Py.is_ascii sep → Forall Py.is_ascii ps → Py.is_ascii (Py.join sep ps).
Proof.
  intros Hsep. induction 1 as [|p ps Hp Hps IH]; cbn [Py.join]; [constructor |].
  destruct ps as [|q ps]; [done |]. apply Forall_app. split; [done |].
  apply Forall_app. split; done.
Qed.

Lemma initial_mask_ascii (p : Py.str) : Py.is_ascii p → Py.is_ascii (initial_mask p).
Proof.
  intros Hp. unfold initial_mask. destruct p as [|c [|d t]]; try by repeat constructor.
  apply Forall_cons in Hp as [Hc _]. constructor; [done | apply xs_ascii].
Qed.

Lemma mask_at_ascii (s : Py.str) : Py.is_ascii s → Py.is_ascii (mask_at s).
Proof.
  intros Hs. unfold mask_at. pose proof (split_on_ascii (ord "@") s Hs) as Hps.
  destruct (Py.split_on (ord "@") s) as [|u [|d [|x ps]]]; try apply xs_ascii.
  apply Forall_cons in Hps as [Hu Hps]. apply Forall_cons in Hps as [Hd _].
  apply Forall_app. split.
  - unfold mask_local. destruct (bool_decide _); [| apply xs_ascii].
    repeat (apply Forall_app; split);
      [by apply Forall_take | apply xs_ascii | by apply Forall_drop].
  - apply Forall_app. split; [by repeat constructor | done].
Qed.

Lemma apply_rule_ascii (U : Unicode) (ρ : rule) (key s : Py.str) :
  Py.is_ascii s → (ρ = RDevice → Py.is_ascii key) →
  Py.is_ascii (apply_rule (U:=U) ρ key s).
Proof.
  intros Hs Hk. destruct ρ; cbn [apply_rule];
    try (destruct (bool_decide _); [| apply xs_ascii];
         repeat (apply Forall_app; split);
         [by apply Forall_take | apply xs_ascii | by apply Forall_drop]);
    try (by apply mask_at_ascii); try (by repeat constructor).
  - apply join_ascii; [by repeat constructor |]. apply Forall_fmap.
    eapply Forall_impl; [by apply split_ws_ascii |]. apply initial_mask_ascii.
  - by apply initial_mask_ascii.
  - rewrite (upper_ascii key (Hk eq_refl)).
    repeat (apply Forall_app; split); try (by repeat constructor).
    apply to_upper_ascii. by apply Hk.
Qed.

Lemma mask_value_ascii (U : Unicode) (key : Py.str) (v m : pyvalue) :
  ascii_value v → mask_value (U:=U) key v = Ok m → ascii_value m.
Proof.
  intros Hv. destruct (decide (v = VNone)) as [-> | Hne]; [by intros [= <-] |].
  destruct (string_form key v) as [s|e] eqn:Es.
  - rewrite (mask_value_dispatch key v s Hne Es). intros [= <-].
    apply apply_rule_ascii; [by eapply string_form_ascii | apply dispatch_device].
  - by rewrite (mask_value_raises key v e Hne Es).
Qed.

Lemma ascii_record_setitem (k : Py.str) (v : pyvalue) (d : dict) :
  ascii_record d → ascii_value v → ascii_record (dict_setitem k v d).
Proof.
  unfold ascii_record. induction d as [|[k' v'] d IH]; intros Hd Hv; simpl.
  - by constructor.
  - apply Forall_cons in Hd as [H Hd].
    destruct (Py.str_eqb k' k); constructor; auto.
Qed.

Lemma ascii_record_find (k : Py.str) (v : pyvalue) (d : dict) :
  ascii_record d → dict_find k d = Some v → ascii_value v.
Proof.
  intros Hd Hv%find_elem. unfold ascii_record in Hd. rewrite Forall_forall in Hd.
  by apply (Hd (k, v)).
Qed.

Lemma redact_field_agree (d : dict) (f : Py.str) :
  ascii_record d → redact_field (U:=U1) d f = redact_field (U:=U2) d f.
Proof.
  intros Hd. unfold redact_field, dict_getitem.
  destruct (dict_contains f d); [| done].
  destruct (dict_find f d) as [v|] eqn:Ev; [| done]. cbn [mbind result_bind].
  by rewrite (mask_value_agree f v (ascii_record_find _ _ _ Hd Ev)).
Qed.

Lemma redact_field_ascii (U : Unicode) (d d' : dict) (f : Py.str) :
  ascii_record d → redact_field (U:=U) d f = Ok d' → ascii_record d'.
Proof.
  intros Hd. unfold redact_field, dict_getitem.
  destruct (dict_contains f d); [| by intros [= <-]].
  destruct (dict_find f d) as [v|] eqn:Ev; [| done]. cbn [mbind result_bind].
  destruct (mask_value f v) as [m|] eqn:Em; [| done]. cbn [mbind result_bind].
  intros [= <-]. apply ascii_record_setitem; [done |].
  eapply mask_value_ascii; [| exact Em]. by eapply ascii_record_find.
Qed.

Lemma redact_agree (fs : list Py.str) (d : dict) :
  ascii_record d →
  redact (U:=U1) d fs = redact (U:=U2) d fs
  ∧ reached (U:=U1) d fs = reached (U:=U2) d fs.
Proof.
  unfold redact. revert d. induction fs as [|f fs IH]; intros d Hd;
    cbn [for_each reached]; [done |].
  rewrite (redact_field_agree d f Hd).
  destruct (redact_field (U:=U2) d f) as [d1|] eqn:E; [| done].
  cbn [mbind result_bind]. apply IH. by eapply redact_field_ascii.
Qed.

Lemma redact_ascii (U : Unicode) (fs : list Py.str) (d d' : dict) :
  ascii_record d → redact (U:=U) d fs = Ok d' → ascii_record d'.
Proof.
  unfold redact. revert d. induction fs as [|f fs IH]; intros d Hd; cbn [for_each].
  - by intros [= <-].
  - destruct (redact_field d f) as [d1|] eqn:E; [| done]. cbn [mbind result_bind].
    apply IH. by eapply redact_field_ascii.
Qed.

(** On a record of ASCII texts, [process_record] does the same with any
    two Unicode databases: same store, same flag, same exception. *)
Theorem process_record_agree (l : loc) (h : heap) (r : dict) :
  h !! l = Some r → ascii_record r →
  process_record (U:=U1) l h = process_record (U:=U2) l h.
Proof.
  intros Hl Hr. rewrite !(process_record_exact l h r Hl).
  destruct (standalone_agree r Hr) as [Hflag Hsf].
  destruct (combinatorial_agree r Hr) as [Hcount Hcf].
  destruct (redact_agree (standalone_fields (U:=U2) r) r Hr) as [H1 K1].
  unfold final_copy, redacted. cbv zeta. rewrite Hflag, Hsf, Hcount, Hcf, H1, K1.
  destruct (existsb flagged r || bool_decide (2 ≤ signal_count r)%nat); [| done].
  destruct (redact (U:=U2) r (standalone_fields r)) as [d1|] eqn:E1; [| done].
  cbn [mbind result_bind]. rewrite (reached_redact _ _ _ E1).
  pose proof (redact_ascii U2 _ _ _ Hr E1) as Hd1.
  destruct (redact_agree (combinatorial_fields (U:=U2) r) d1 Hd1) as [H2 K2].
  rewrite H2, K2. done.
Qed.

End Agreement.

(** ** The concrete runs, for every Unicode database *)

Section Any_database.
Context (U : Unicode).

Ltac ascii_texts := repeat constructor.

Lemma phone_and_name_run :
  process_record (U:=U) 0%nat [phone_and_name]
  = ([phone_and_name;
      [(py"phone", VStr py"98XXXXXX10"); (py"name", VStr py"Ravi Kumar")]],
     Ok (true, 1%nat)).
Proof.
  rewrite (process_record_agree U basic_latin 0%nat [phone_and_name] phone_and_name);
    [by vm_compute | done | ascii_texts].
Qed.

Lemma infinite_phone_run :
  process_record (U:=U) 0%nat [infinite_phone]
  = ([infinite_phone; infinite_phone], Raise OverflowError).
Proof.
  rewrite (process_record_agree U basic_latin 0%nat [infinite_phone] infinite_phone);
    [by vm_compute | done | ascii_texts].
Qed.

Lemma null_device_run :
  detect_combinatorial_pii (U:=U) null_device = Ok (false, [], 0%nat).
Proof.
  rewrite (detect_combinatorial_pii_agree U basic_latin null_device);
    [by vm_compute | ascii_texts].
Qed.

Lemma thirteen_digit_aadhar_run :
  mask_value (U:=U) py"aadhar" (VStr py"1234567890123")
  = Ok (VStr py"123XXXXXX123").
Proof.
  rewrite (mask_value_agree U basic_latin); [by vm_compute | ascii_texts].
Qed.

Lemma phone_with_trailing_text_run :
  is_phone_number (U:=U) (VStr py"9876543210 home") = Ok true.
Proof.
  rewrite is_phone_number_str.
  rewrite (re_match_agree U basic_latin); [by vm_compute | ascii_texts].
Qed.

End Any_database.

(** * Further properties of the classifiers and of the processor *)

Section Further_classifiers.
Context {U : Unicode}.

Lemma filter_keys_sublist (p : Py.str * pyvalue → bool) (d : dict) :
  (List.filter p d).*1 `sublist_of` keys d.
Proof.
  unfold keys. induction d as [|kv d IH]; cbn [List.filter fmap list_fmap].
  - constructor.
  - destruct (p kv); cbn [fmap list_fmap]; by constructor.
Qed.

Lemma flagged_not_none (k : Py.str) (v : pyvalue) :
  flagged (k, v) = true → v ≠ VNone.
Proof. unfold flagged. cbn [snd]. by destruct v. Qed.

(** X1. On a record whose integers [str] can convert, the standalone
    classifier returns; its flag is true exactly when its list is not
    empty; the list is made of keys of the record in record order, each
    with a value that is not [None]. *)
Theorem standalone_list_and_flag (data : dict) :
  str_returns_on data →
  ∃ flag fs,
    detect_standalone_pii data = Ok (flag, fs)
    ∧ (flag = true ↔ fs ≠ [])
    ∧ fs `sublist_of` keys data
    ∧ ∀ k, k ∈ fs → ∃ v, (k, v) ∈ data ∧ v ≠ VNone.
Proof.
  intros _. eexists _, _. split; [apply detect_standalone_pii_eq |]. split_and!.
  - apply standalone_flag_fields.
  - apply filter_keys_sublist.
  - intros k (v & Hv & Hf)%filter_keys_elem_iff. exists v. split; [done |].
    by eapply flagged_not_none.
Qed.

Lemma named_flagged (k : Py.str) (v : pyvalue) :
  k ∈ standalone_names → v ≠ VNone → flagged (k, v) = true.
Proof.
  intros Hk Hv. unfold flagged. cbn [fst snd].
  destruct v; [done | | |]; cbv zeta;
    repeat (apply elem_of_cons in Hk as [-> | Hk];
            [rewrite (proj2 (str_eqb_eq _ _) eq_refl);
             by rewrite ?orb_true_r |]);
    inversion Hk.
Qed.

Lemma named_listed (data : dict) (k : Py.str) (v : pyvalue) :
  (k, v) ∈ data → v ≠ VNone → k ∈ standalone_names →
  ∃ fs, detect_standalone_pii data = Ok (true, fs) ∧ k ∈ fs.
Proof.
  intros Hin Hv Hk. rewrite detect_standalone_pii_eq.
  pose proof (named_flagged k v Hk Hv) as Hf.
  assert (He : existsb flagged data = true).
  { apply existsb_elem. eauto. }
  rewrite He. eexists. split; [reflexivity |].
  apply filter_keys_elem_iff. eauto.
Qed.

(** X2. A field named [phone], [aadhar], [passport] or [upi_id] whose value
    is not [None] is on the standalone list, and the flag is true, whatever
    the value is. *)
Theorem named_field_is_flagged (data : dict) (k : Py.str) (v : pyvalue) :
  (k, v) ∈ data → v ≠ VNone → k ∈ standalone_names →
  ∃ fs, detect_standalone_pii data = Ok (true, fs) ∧ k ∈ fs.
Proof. apply named_listed. Qed.

(** X3. On a record with distinct keys the combinatorial classifier lists
    no field twice; every field it lists is one of its seven names and is a
    key of the record with a value that is not [None], so that the test
    [f in red] of the processor holds for it. *)
Theorem contributing_fields_distinct_and_present (data : dict) :
  well_formed data →
  ∃ flag fs n,
    detect_combinatorial_pii data = Ok (flag, fs, n)
    ∧ NoDup fs
    ∧ ∀ k, k ∈ fs →
        k ∈ combinatorial_names
        ∧ ∃ v, dict_find k data = Some v ∧ v ≠ VNone.
Proof.
  intros Hwf. eexists _, _, _. split; [apply detect_combinatorial_pii_eq |].
  split; [by apply combinatorial_fields_NoDup |].
  intros k Hk. unfold combinatorial_fields in Hk. apply elem_of_app in Hk as [Hk | Hk].
  - apply filter_keys_elem_iff in Hk as (v & Hin & Hc). split.
    + apply contributes_key in Hc. cbn [fst] in Hc. unfold combinatorial_names.
      repeat (apply elem_of_cons in Hc as [-> | Hc];
              [repeat first [by left | right] |]).
      inversion Hc.
    + exists v. split; [by apply elem_find |].
      unfold contributes, full_name_item, email_item, address_item, device_item in Hc.
      cbn [snd] in Hc. by destruct v.
  - unfold name_parts, dict_get in Hk.
    destruct (dict_find k_first_name data) as [v1|] eqn:E1; [| inversion Hk].
    destruct (dict_find k_last_name data) as [v2|] eqn:E2;
      [| cbn [from_option id truthy] in Hk; rewrite andb_false_r in Hk;
         inversion Hk].
    cbn [from_option id] in Hk.
    destruct (truthy v1) eqn:T1; [| inversion Hk].
    destruct (truthy v2) eqn:T2; [| inversion Hk]. cbn [andb] in Hk.
    apply elem_of_cons in Hk as [-> | ->%list_elem_of_singleton].
    + split; [unfold combinatorial_names; repeat first [by left | right] |].
      exists v1. split; [done |]. by destruct v1.
    + split; [unfold combinatorial_names; repeat first [by left | right] |].
      exists v2. split; [done |]. by destruct v2.
Qed.

End Further_classifiers.

(** The record [{"email": null, "phone": 9876543210}]. *)
Lemma standalone_list_and_flag_witness :
  ∃ flag fs,
    detect_standalone_pii (U:=basic_latin) null_and_phone = Ok (flag, fs)
    ∧ (flag = true ↔ fs ≠ [])
    ∧ fs `sublist_of` keys null_and_phone
    ∧ ∀ k, k ∈ fs → ∃ v, (k, v) ∈ null_and_phone ∧ v ≠ VNone.
Proof.
  apply (standalone_list_and_flag (U:=basic_latin) null_and_phone).
  apply Forall_cons. split; [exact I |].
  apply Forall_cons. split; [vm_compute; reflexivity | constructor].
Defined.

(** The placeholder ["n/a"] under [phone] is flagged. *)
Lemma named_field_is_flagged_witness :
  ∃ fs, detect_standalone_pii (U:=basic_latin) placeholder_phone = Ok (true, fs)
        ∧ py"phone" ∈ fs.
Proof.
  apply (named_field_is_flagged (U:=basic_latin) placeholder_phone py"phone"
           (VStr py"n/a")).
  - left.
  - discriminate.
  - left.
Defined.

(** The name and email record: two contributing fields, both present. *)
Lemma contributing_fields_distinct_and_present_witness :
  ∃ flag fs n,
    detect_combinatorial_pii (U:=basic_latin) name_and_email = Ok (flag, fs, n)
    ∧ NoDup fs
    ∧ ∀ k, k ∈ fs →
        k ∈ combinatorial_names
        ∧ ∃ v, dict_find k name_and_email = Some v ∧ v ≠ VNone.
Proof.
  apply (contributing_fields_distinct_and_present (U:=basic_latin) name_and_email).
  unfold well_formed. vm_compute. repeat constructor; intros H; inversion H; subst;
    match goal with H : _ ∈ _ |- _ => inversion H end.
Defined.

Section Further_processor.
Context {U : Unicode}.

Lemma int_fails_raises (k : Py.str) (v : pyvalue) :
  int_fails (k, v) = true → v ≠ VNone ∧ ∃ e, mask_value k v = Raise e.
Proof.
  unfold int_fails. cbn [fst snd]. intros H.
  assert (Hv : v ≠ VNone) by (by destruct v).
  split; [done |].
  assert (∃ e, string_form k v = Raise e) as [e He].
  { unfold string_form. destruct v as [| | |[|neg|]]; try done;
      cbn [is_number andb py_int]; rewrite H; cbn [mbind result_bind]; eauto. }
  exists e. by apply mask_value_raises.
Qed.

Lemma redact_raises_at (fs : list Py.str) (d : dict) (k : Py.str) (v : pyvalue)
    (e : exn) :
  k ∈ fs → dict_find k d = Some v → mask_value k v = Raise e →
  ∃ e', redact d fs = Raise e'.
Proof.
  unfold redact. revert d. induction fs as [|f fs IH]; intros d Hk Hv He.
  - inversion Hk.
  - cbn [for_each]. destruct (redact_field d f) as [d1|e1] eqn:E; [| eauto].
    cbn [mbind result_bind]. destruct (decide (k = f)) as [-> | Hne].
    + exfalso. apply redact_field_find in E as [_ Hsame].
      destruct (Hsame v Hv) as (m & Hm & _). congruence.
    + apply IH; [| | done].
      * apply elem_of_cons in Hk as [? | ?]; done.
      * apply redact_field_find in E as [Hother _]. by rewrite Hother.
Qed.

Lemma int_fails_key (k : Py.str) (v : pyvalue) :
  int_fails (k, v) = true → k ∈ standalone_names.
Proof.
  unfold int_fails. cbn [fst snd]. intros Hf.
  assert (Hk : k ∈ [k_phone; k_aadhar]).
  { destruct v as [| | |[| |]]; try done; by apply bool_decide_eq_true in Hf. }
  unfold standalone_names.
  apply elem_of_cons in Hk as [-> | ->%list_elem_of_singleton];
    repeat first [by left | right].
Qed.

Lemma process_record_raises (l : loc) (h : heap) (r : dict) (k : Py.str)
    (v : pyvalue) :
  h !! l = Some r → well_formed r → (k, v) ∈ r → int_fails (k, v) = true →
  ∃ e, (process_record l h).2 = Raise e.
Proof.
  intros Hl Hwf Hin Hf. rewrite (process_record_exact l h r Hl). cbn [snd].
  destruct (int_fails_raises k v Hf) as (Hv & e & He).
  pose proof (named_flagged k v (int_fails_key k v Hf) Hv) as Hflag.
  assert (Hex : existsb flagged r = true) by (apply existsb_elem; eauto).
  assert (Hks : k ∈ standalone_fields r) by (apply filter_keys_elem_iff; eauto).
  destruct (redact_raises_at _ r k v e Hks (elem_find k v r Hwf Hin) He) as [e' He'].
  unfold redacted. rewrite Hex. cbn [orb]. rewrite He'. eauto.
Qed.

(** X4. On a record with distinct keys whose integers [str] can convert,
    the processor raises exactly when some field named [phone] or [aadhar]
    holds a float that is NaN or infinite; on every other such record it
    returns. *)
Theorem processor_raises_iff_not_finite (l : loc) (h : heap) (r : dict) :
  h !! l = Some r → well_formed r → str_returns_on r →
  (∃ e, (process_record l h).2 = Raise e) ↔
  ∃ k v, (k, v) ∈ r ∧ int_fails (k, v) = true.
Proof.
  intros Hl Hwf _. split.
  - intros [e He].
    destruct (decide (convertible r)) as [Hc | Hc].
    + destruct (process_record_returns_when_convertible l h r Hl Hc)
        as (b & red & Hrun). rewrite Hrun in He. done.
    + apply not_Forall_Exists in Hc; [| apply _].
      apply Exists_exists in Hc as ([k v] & Hin & Hkv). exists k, v.
      split; [done |]. cbv beta in Hkv. unfold compose in Hkv.
      by destruct (int_fails (k, v)).
  - intros (k & v & Hin & Hf). by eapply process_record_raises.
Qed.

Lemma mask_value_shape (key : Py.str) (v m : pyvalue) :
  mask_value key v = Ok m → (v = VNone ∧ m = VNone) ∨ ∃ s, m = VStr s.
Proof.
  destruct (decide (v = VNone)) as [-> | Hv]; [intros [= <-]; by left |].
  destruct (string_form key v) as [s|e] eqn:Es.
  - rewrite (mask_value_dispatch key v s Hv Es). intros [= <-]. eauto.
  - by rewrite (mask_value_raises key v e Hv Es).
Qed.

Lemma redact_field_value (d d1 : dict) (f k : Py.str) :
  redact_field d f = Ok d1 →
  dict_find k d1 = dict_find k d
  ∨ (dict_find k d ≠ Some VNone ∧ ∃ s, dict_find k d1 = Some (VStr s)).
Proof.
  intros E. pose proof (redact_field_keys d d1 f E) as Hkeys.
  apply redact_field_find in E as [Hother Hat].
  destruct (decide (k = f)) as [-> | Hne]; [| left; by apply Hother].
  destruct (dict_find f d) as [v|] eqn:Ev.
  - destruct (Hat v eq_refl) as (m & Hm & ->).
    destruct (decide (v = VNone)) as [-> | Hv].
    + left. injection Hm as <-. done.
    + apply mask_value_shape in Hm as [[-> ->] | [s ->]]; [done |].
      right. split; [congruence | eauto].
  - left. destruct (dict_find f d1) as [v1|] eqn:Ev1; [| done].
    exfalso. assert (Hk1 : f ∈ keys d1) by (apply find_keys; eauto).
    rewrite Hkeys in Hk1. apply find_keys in Hk1 as [v Hv]. congruence.
Qed.

(** A masking loop leaves a value alone or puts a string in the place of
    one that is not [None]. *)
Lemma redact_value (fs : list Py.str) (d d' : dict) (k : Py.str) :
  redact d fs = Ok d' →
  dict_find k d' = dict_find k d
  ∨ (dict_find k d ≠ Some VNone ∧ ∃ s, dict_find k d' = Some (VStr s)).
Proof.
  unfold redact. revert d. induction fs as [|f fs IH]; intros d; cbn [for_each].
  - intros [= ->]. by left.
  - destruct (redact_field d f) as [d1|] eqn:E; [| done]. cbn [mbind result_bind].
    intros Hd'. apply (redact_field_value d d1 f k) in E.
    destruct (IH d1 Hd') as [Hsame | [Hne Htext]].
    + rewrite Hsame. exact E.
    + right. split; [| done]. destruct E as [E | [E _]]; congruence.
Qed.

(** X5. In the copy a returning run hands back, every field keeps the
    value it had or holds a string: a value that is [None] stays [None],
    and a number that is masked becomes text. *)
Theorem altered_value_is_text (l l' : loc) (h h' : heap) (r : dict) (is_pii : bool) :
  h !! l = Some r → process_record l h = (h', Ok (is_pii, l')) →
  ∃ red, h' !! l' = Some red
         ∧ ∀ k, dict_find k red = dict_find k r
                ∨ (dict_find k r ≠ Some VNone
                   ∧ ∃ s, dict_find k red = Some (VStr s)).
Proof.
  intros Hl Hrun.
  destruct (process_record_returns _ _ _ _ _ _ Hl Hrun) as (red & _ & _ & Hred & Hr).
  exists red. split; [done |]. intros k. destruct is_pii.
  - apply redacted_pii in Hr as (d1 & H1 & H2).
    destruct (redact_value _ _ _ k H2) as [Hsame | [Hne Htext]].
    + rewrite Hsame. by apply (redact_value _ _ _ k H1).
    + right. split; [| done].
      destruct (redact_value _ _ _ k H1) as [E | [E _]]; congruence.
  - apply redacted_not_pii in Hr as ->. by left.
Qed.

End Further_processor.

(** The record with the infinite phone: the run raises, and the item is
    there. *)
Lemma processor_raises_iff_not_finite_witness :
  (∃ e, (process_record (U:=basic_latin) 0%nat [infinite_phone]).2 = Raise e) ↔
  ∃ k v, (k, v) ∈ infinite_phone ∧ int_fails (k, v) = true.
Proof.
  apply (processor_raises_iff_not_finite (U:=basic_latin) 0%nat [infinite_phone]
           infinite_phone).
  - reflexivity.
  - unfold well_formed. vm_compute. repeat constructor. intros H; inversion H.
  - apply Forall_cons. split; [exact I | constructor].
Defined.

(** A null email and an integer phone: the email stays null, the phone
    becomes the text ["98XXXXXX10"]. *)
Lemma altered_value_is_text_witness :
  ∃ red, [null_and_phone; [(py"email", VNone); (py"phone", VStr py"98XXXXXX10")]]
         !! 1%nat = Some red
    ∧ ∀ k, dict_find k red = dict_find k null_and_phone
           ∨ (dict_find k null_and_phone ≠ Some VNone
              ∧ ∃ s, dict_find k red = Some (VStr s)).
Proof.
  apply (altered_value_is_text (U:=basic_latin) 0%nat 1%nat [null_and_phone] _
           null_and_phone true).
  - reflexivity.
  - vm_compute; reflexivity.
Defined.

(** * The address check *)

Section Address.
Context {U : Unicode}.
Import Re.

Lemma cursors_elem (s : Py.str) (b : option Py.char) (c : cursor) :
  c ∈ cursors b s ↔ ∃ pre, s = pre ++ ahead c ∧ c = after b pre (ahead c).
Proof.
  revert b. induction s as [|x s IH]; intros b; cbn [cursors].
  - rewrite list_elem_of_singleton. split.
    + intros ->. by exists [].
    + intros (pre & Hs & ->). symmetry in Hs. apply app_eq_nil in Hs as [-> ->].
      done.
  - rewrite elem_of_cons, IH. split.
    + intros [-> | (pre & Hs & Hc)]; [by exists [] |].
      exists (x :: pre). split; [by rewrite Hs |]. by rewrite after_cons.
    + intros (pre & Hs & Hc). destruct pre as [|y pre].
      * left. cbn [app] in Hs. rewrite Hc, <- Hs. done.
      * right. cbn [app] in Hs. injection Hs as -> ->. exists pre.
        split; [done |]. by rewrite after_cons in Hc.
Qed.

(** [re.search]: a match of the pattern starts somewhere in the text. *)
Lemma re_search_den (r : regex) (s : Py.str) :
  re_search r s = true ↔
  ∃ pre rest c', s = pre ++ rest ∧ den r (after None pre rest) c'.
Proof.
  unfold re_search. rewrite existsb_elem. split.
  - intros (c & (pre & Hs & Hc)%cursors_elem & [c' Hc']%matches_at_den).
    exists pre, (ahead c), c'. split; [done |]. by rewrite <- Hc.
  - intros (pre & rest & c' & -> & Hden). exists (after None pre rest). split.
    + apply cursors_elem. by exists pre.
    + apply matches_at_den. eauto.
Qed.

Lemma den_bounded (r : regex) (c c' : cursor) :
  den (bounded r) c c' ↔
  boundary c = true ∧ den r c c' ∧ boundary c' = true.
Proof.
  unfold bounded. cbn [cat foldr den]. split.
  - intros (m1 & [Hb ->] & m2 & Hr & m3 & [Hb' ->] & ->). done.
  - intros (Hb & Hr & Hb'). exists c. split; [done |]. exists c'. split; [done |].
    exists c'. done.
Qed.

Lemma contains_elem (c : Py.char) (s : Py.str) : Py.contains c s = true ↔ c ∈ s.
Proof.
  unfold Py.contains. rewrite existsb_elem. split.
  - intros (x & Hx & ->%N.eqb_eq). done.
  - intros H. exists c. split; [done | apply N.eqb_refl].
Qed.

(** The postal code pattern is found exactly where six digits stand between
    two positions that are not inside a word. *)
Lemma pin_search_iff (s : Py.str) :
  re_search pin_pattern s = true ↔
  ∃ pre p post, s = pre ++ p ++ post ∧ pin_shape p
                ∧ begins_here pre ∧ ends_here post.
Proof.
  rewrite re_search_den. unfold pin_pattern. split.
  - intros (pre & rest & c' & -> & (Hb & Hr & Hb')%den_bounded).
    cbn [den exactly ahead behind after] in Hr.
    destruct Hr as (p & post & -> & Hp & Hlo & Hhi & ->).
    apply all_in_digits in Hp. cbn [within] in Hhi.
    assert (Hne : p ≠ []) by (intros ->; simpl in Hlo; lia).
    destruct (last_Forall _ p Hne Hp) as (x & Hx & Hxd).
    apply (boundary_after _ _ _ _ Hx (word_of_decimal _ Hxd)) in Hb'.
    exists pre, p, post. split_and!; try done; [split; [lia | done] |].
    destruct p as [|d p]; [done |]. apply Forall_cons in Hp as [Hd _].
    unfold boundary, after in Hb. cbn [behind ahead app head word_at] in Hb.
    rewrite (word_of_decimal d Hd) in Hb. unfold begins_here.
    destruct (last pre); cbn [word_at] in *; [by destruct (is_word _) | done].
  - intros (pre & p & post & -> & [Hlen Hp] & Hpre & Hpost).
    assert (Hne : p ≠ []) by (intros ->; simpl in Hlen; lia).
    destruct (last_Forall _ p Hne Hp) as (x & Hx & Hxd).
    exists pre, (p ++ post), (after (behind (after None pre (p ++ post))) p post).
    split; [done |]. apply den_bounded. split_and!.
    + destruct p as [|d p]; [done |]. apply Forall_cons in Hp as [Hd _].
      unfold boundary, after. cbn [behind ahead app head word_at].
      rewrite (word_of_decimal d Hd). unfold begins_here in Hpre.
      destruct (last pre); cbn [word_at] in *; [by rewrite Hpre | done].
    + cbn [den exactly ahead behind]. exists p, post.
      split_and!; try done; [by apply all_in_digits | lia | cbn [within]; lia].
    + by apply (boundary_after _ _ _ _ Hx (word_of_decimal _ Hxd)).
Qed.

Lemma pin_implies_numbers (s : Py.str) :
  re_search pin_pattern s = true → re_search numbers_pattern s = true.
Proof.
  intros (pre & p & post & -> & [Hlen Hp] & _ & _)%pin_search_iff.
  apply re_search_den. destruct p as [|d p]; [simpl in Hlen; lia |].
  apply Forall_cons in Hp as [Hd _].
  exists pre, ((d :: p) ++ post).
  exists (after (behind (after None pre ((d :: p) ++ post))) [d] (p ++ post)).
  split; [done |]. unfold numbers_pattern, plus. cbn [den ahead].
  exists [d], (p ++ post). split_and!; try done.
  apply all_in_digits. by repeat constructor.
Qed.

Lemma has_address_components_eq (v : pyvalue) :
  has_address_components v
  = Py.contains (ord ",") (lower (py_str v))
    && re_search pin_pattern (lower (py_str v)).
Proof.
  unfold has_address_components. cbv zeta.
  destruct (re_search pin_pattern (lower (py_str v))) eqn:E.
  - by rewrite (pin_implies_numbers _ E).
  - by rewrite !andb_false_r.
Qed.

(** X6. The first of the three conditions of [has_address_components],
    a run of digits, is implied by the third, a postal code: whenever the
    postal code is found the digits are, so the check is the conjunction of
    the comma and the postal code. *)
Theorem address_digits_condition_is_redundant (v : pyvalue) :
  (re_search pin_pattern (lower (py_str v)) = true →
   re_search numbers_pattern (lower (py_str v)) = true)
  ∧ has_address_components v
    = Py.contains (ord ",") (lower (py_str v))
      && re_search pin_pattern (lower (py_str v)).
Proof. split; [apply pin_implies_numbers | apply has_address_components_eq]. Qed.

(** X7. What the address check accepts: the lowered text of the value
    contains a comma and, somewhere, exactly six decimal digits that are
    neither preceded nor followed by a word character. Seven digits in a
    row, or six digits glued to a letter, are not a postal code. *)
Theorem address_check_iff (v : pyvalue) :
  has_address_components v = true ↔
  ord "," ∈ lower (py_str v)
  ∧ ∃ pre p post, lower (py_str v) = pre ++ p ++ post ∧ pin_shape p
                  ∧ begins_here pre ∧ ends_here post.
Proof.
  rewrite has_address_components_eq, andb_true_iff.
  by rewrite contains_elem, pin_search_iff.
Qed.

End Address.

(** * Further properties of the masking engine *)

Section Further_masking.
Context {U : Unicode}.
Import Re.

(** Splitting on a character and joining with it gives the text back. *)
Lemma join_split_on (sep : Py.char) (s : Py.str) :
  Py.join [sep] (Py.split_on sep s) = s.
Proof.
  induction s as [|c t IH]; [reflexivity |]. cbn [Py.split_on].
  destruct (c =? sep) eqn:E.
  - apply N.eqb_eq in E as ->.
    destruct (Py.split_on sep t) as [|p ps] eqn:Et.
    + pose proof (split_on_length sep t) as Hl. rewrite Et in Hl. simpl in Hl. lia.
    + change (Py.join [sep] ([] :: p :: ps))
        with ([] ++ [sep] ++ Py.join [sep] (p :: ps)).
      by rewrite IH.
  - destruct (Py.split_on sep t) as [|p ps] eqn:Et.
    + pose proof (split_on_length sep t) as Hl. rewrite Et in Hl. simpl in Hl. lia.
    + destruct ps as [|q ps].
      * cbn [Py.join] in *. by rewrite IH.
      * change (Py.join [sep] ((c :: p) :: q :: ps))
          with (c :: (p ++ [sep] ++ Py.join [sep] (q :: ps))).
        change (Py.join [sep] (p :: q :: ps))
          with (p ++ [sep] ++ Py.join [sep] (q :: ps)) in IH.
        by rewrite IH.
Qed.

Lemma split_on_no_sep (sep : Py.char) (s : Py.str) :
  Forall (λ p, sep ∉ p) (Py.split_on sep s).
Proof.
  induction s as [|c t IH]; cbn [Py.split_on].
  - constructor; [| constructor]. intros H. inversion H.
  - destruct (c =? sep) eqn:E.
    + constructor; [| done]. intros H. inversion H.
    + apply N.eqb_neq in E.
      destruct (Py.split_on sep t) as [|p ps]; [constructor; [| constructor] |].
      * intros H. apply list_elem_of_singleton in H. congruence.
      * apply Forall_cons in IH as [Hp Hps]. constructor; [| done].
        intros H. apply elem_of_cons in H as [H | H]; [congruence | done].
Qed.

Lemma split_on_two (sep : Py.char) (s u d : Py.str) :
  Py.split_on sep s = [u; d] → s = u ++ sep :: d ∧ (sep ∉ u) ∧ (sep ∉ d).
Proof.
  intros H. pose proof (join_split_on sep s) as Hj.
  pose proof (split_on_no_sep sep s) as Hn. rewrite H in Hj, Hn.
  apply Forall_cons in Hn as [Hu Hn]. apply Forall_cons in Hn as [Hd _].
  cbn [Py.join app] in Hj. done.
Qed.

Lemma mask_local_length (u : Py.str) : length (mask_local u) = length u.
Proof.
  unfold mask_local, Py.slice_to, Py.slice_last, Py.xs. case_bool_decide.
  - rewrite !length_app, length_take, length_drop, length_replicate. lia.
  - apply length_replicate.
Qed.

Lemma mask_at_length (s : Py.str) : length (mask_at s) = length s.
Proof.
  unfold mask_at. destruct (Py.split_on (ord "@") s) as [|u [|d [|x ps]]] eqn:E;
    try apply length_replicate.
  apply split_on_two in E as (-> & _ & _).
  rewrite !length_app, mask_local_length. cbn [length]. reflexivity.
Qed.

Lemma apply_rule_length (ρ : rule) (key s : Py.str) :
  ρ ∈ [RPhone; RPassport; RUpi; REmail] →
  length (apply_rule ρ key s) = length s.
Proof.
  intros Hρ.
  repeat (apply elem_of_cons in Hρ as [-> | Hρ]); [| | | | inversion Hρ];
    cbn [apply_rule]; try apply mask_at_length;
    unfold Py.slice_to, Py.slice_last, Py.xs; case_bool_decide;
    rewrite ?length_app, ?length_take, ?length_drop, ?length_replicate; lia.
Qed.

(** X8. The phone, passport, upi_id and email rules keep the length of the
    text they mask: one character out for each character in. *)
Theorem four_rules_keep_the_length (key : Py.str) (v : pyvalue) (s : Py.str) :
  v ≠ VNone → string_form key v = Ok s →
  dispatch key s ∈ [RPhone; RPassport; RUpi; REmail] →
  ∃ out, mask_value key v = Ok (VStr out) ∧ length out = length s.
Proof.
  intros Hv Hs Hd. rewrite (mask_value_dispatch key v s Hv Hs).
  eexists. split; [reflexivity |]. by apply apply_rule_length.
Qed.

(** X9. With exactly one [@] in the text, the upi_id and email rules cut
    it at the [@], apply the local-part mask to what is before and leave the
    [@] and everything after it unchanged. *)
Theorem one_at_sign_keeps_the_domain (key : Py.str) (v : pyvalue) (s : Py.str) :
  v ≠ VNone → string_form key v = Ok s →
  dispatch key s = RUpi ∨ dispatch key s = REmail →
  Py.count (ord "@") s = 1%nat →
  ∃ u d, s = u ++ ord "@" :: d ∧ (ord "@" ∉ u) ∧ (ord "@" ∉ d)
         ∧ mask_value key v = Ok (VStr (mask_local u ++ ord "@" :: d)).
Proof.
  intros Hv Hs Hd Hat. rewrite (mask_value_dispatch key v s Hv Hs).
  pose proof (split_on_length (ord "@") s) as Hl. rewrite Hat in Hl.
  destruct (Py.split_on (ord "@") s) as [|u [|d [|x ps]]] eqn:E;
    try (simpl in Hl; lia).
  exists u, d. destruct (split_on_two _ _ _ _ E) as (Hsplit & Hu & Hd').
  split_and!; try done.
  destruct Hd as [-> | ->]; cbn [apply_rule]; unfold mask_at; by rewrite E.
Qed.

End Further_masking.

(** The phone rule on ten digits: ten characters out. *)
Lemma four_rules_keep_the_length_witness :
  ∃ out, mask_value (U:=basic_latin) py"phone" (VStr py"9876543210")
         = Ok (VStr out)
         ∧ length out = length py"9876543210".
Proof.
  apply (four_rules_keep_the_length (U:=basic_latin) py"phone"
           (VStr py"9876543210") py"9876543210").
  - discriminate.
  - reflexivity.
  - left.
Defined.

(** An email address: the local part is masked, ["@example.com"] stays. *)
Lemma one_at_sign_keeps_the_domain_witness :
  ∃ u d, py"ravi.kumar@example.com" = u ++ ord "@" :: d
         ∧ (ord "@" ∉ u) ∧ (ord "@" ∉ d)
         ∧ mask_value (U:=basic_latin) py"email" (VStr py"ravi.kumar@example.com")
           = Ok (VStr (mask_local u ++ ord "@" :: d)).
Proof.
  apply (one_at_sign_keeps_the_domain (U:=basic_latin) py"email"
           (VStr py"ravi.kumar@example.com") py"ravi.kumar@example.com").
  - discriminate.
  - reflexivity.
  - right. vm_compute; reflexivity.
  - vm_compute; reflexivity.
Defined.

(** ** A masked value is not taken for a number again *)

Section Masked_not_numeric.
Context {U : Unicode}.
Import Re.

Lemma digits_app (a b : Py.str) : digits (a ++ b) ↔ digits a ∧ digits b.
Proof. unfold digits. apply Forall_app. Qed.

Lemma phone_shape_head (p rest : Py.str) :
  phone_shape p → numeric_head (p ++ rest).
Proof.
  intros (d & ds & -> & Hd & Hlen & Hds).
  exists d, (take 7 ds), (drop 7 ds ++ rest). split_and!.
  - cbn [app]. by rewrite app_assoc, take_drop.
  - rewrite length_take. lia.
  - by apply Forall_take.
  - left. rewrite decimal_ascii; unfold ord in Hd; simpl in Hd; [| lia].
    unfold Py.digit_of. destruct (N.leb_spec 48 d), (N.leb_spec d 57); simpl; lia || done.
Qed.

Lemma passport_shape_head (p rest : Py.str) :
  passport_shape p → numeric_head (p ++ rest).
Proof.
  intros (d & ds & -> & Hd & Hlen & Hds).
  exists d, ds, rest. split_and!; try done. by right.
Qed.

Lemma aadhar_shape_head (p rest : Py.str) :
  aadhar_shape p → numeric_head (p ++ rest).
Proof.
  intros [Hlen Hp]. destruct p as [|c p]; [simpl in Hlen; lia |].
  apply Forall_cons in Hp as [Hc Hp]. cbn [length] in Hlen.
  exists c, (take 7 p), (drop 7 p ++ rest). split_and!.
  - cbn [app]. by rewrite app_assoc, take_drop.
  - rewrite length_take. lia.
  - by apply Forall_take.
  - by left.
Qed.

Lemma numeric_head_length (out : Py.str) : numeric_head out → (8 ≤ length out)%nat.
Proof.
  intros (c & ds & rest & -> & Hlen & _). cbn [length]. rewrite length_app. lia.
Qed.

Lemma numeric_head_lookup (out : Py.str) (i : nat) (c : Py.char) :
  numeric_head out → (1 ≤ i ≤ 7)%nat → out !! i = Some c → is_decimal c = true.
Proof.
  intros (c0 & ds & rest & -> & Hlen & Hds & _) Hi Hc.
  destruct i as [|i]; [lia |]. change ((ds ++ rest) !! i = Some c) in Hc.
  rewrite lookup_app_l in Hc by lia.
  unfold digits in Hds. rewrite Forall_forall in Hds. apply Hds.
  by eapply list_elem_of_lookup_2.
Qed.

Lemma numeric_head_first (c : Py.char) (t : Py.str) :
  numeric_head (c :: t) → is_decimal c = true ∨ ord "A" ≤ c ≤ ord "Z".
Proof. by intros (c0 & ds & rest & [= -> ->] & _ & _ & H). Qed.

Lemma not_decimal (c : Py.char) :
  c < 128 → Py.digit_of c = false → is_decimal c = false.
Proof. intros H1 H2. by rewrite decimal_ascii. Qed.

(** A text with a non-digit among its second to eighth characters. *)
Lemma blocked_by (out : Py.str) (i : nat) (c : Py.char) :
  (1 ≤ i ≤ 7)%nat → out !! i = Some c → c < 128 → Py.digit_of c = false →
  ¬ numeric_head out.
Proof.
  intros Hi Hc H1 H2 Hh. pose proof (numeric_head_lookup out i c Hh Hi Hc) as Hd.
  rewrite (not_decimal c H1 H2) in Hd. done.
Qed.

Lemma xs_not_numeric (n : nat) : ¬ numeric_head (Py.xs n).
Proof.
  intros Hh. pose proof (numeric_head_length _ Hh) as Hl.
  unfold Py.xs in Hl. rewrite length_replicate in Hl.
  apply (blocked_by (Py.xs n) 1 88); [lia | | done | reflexivity | done].
  unfold Py.xs. apply lookup_replicate. split; [done | lia].
Qed.

Ltac blocked i c :=
  apply (blocked_by _ i c); [lia | try reflexivity | done | reflexivity].

(** The initial of a text, a run of [X]s, and whatever follows. *)
Lemma initial_mask_not_numeric (p rest : Py.str) :
  (rest = [] ∨ ∃ t, rest = 32 :: t) → ¬ numeric_head (initial_mask p ++ rest).
Proof.
  intros Hrest. unfold initial_mask. destruct p as [|c [|d t]].
  - destruct Hrest as [-> | [t ->]]; cbn [Py.lit app].
    + intros Hh%numeric_head_length. simpl in Hh. lia.
    + blocked 1%nat 32.
  - destruct Hrest as [-> | [t ->]]; cbn [Py.lit app].
    + intros Hh%numeric_head_length. simpl in Hh. lia.
    + blocked 1%nat 32.
  - blocked 1%nat 88.
Qed.

Lemma mask_local_then_at_not_numeric (u d : Py.str) :
  ¬ numeric_head (mask_local u ++ py"@" ++ d).
Proof.
  unfold mask_local, Py.slice_to, Py.slice_last, Py.xs. case_bool_decide as Hu.
  - destruct u as [|a [|b u]]; [simpl in Hu; lia | simpl in Hu; lia |].
    blocked 1%nat 88. cbn [length take app].
    replace (S (S (length u)) - 2)%nat with (length u) by lia.
    destruct u; [simpl in Hu; lia |]. reflexivity.
  - destruct u as [|a [|b [|c u]]]; [| | | simpl in Hu; lia].
    + cbn [length replicate app Py.lit].
      intros [Hh | Hh]%numeric_head_first.
      * rewrite not_decimal in Hh; [done | done | reflexivity].
      * unfold ord in Hh. simpl in Hh. lia.
    + blocked 1%nat 64.
    + blocked 1%nat 88.
Qed.

Lemma mask_at_not_numeric (s : Py.str) : ¬ numeric_head (mask_at s).
Proof.
  unfold mask_at.
  destruct (Py.split_on (ord "@") s) as [|u [|d [|x ps]]];
    try apply xs_not_numeric. apply mask_local_then_at_not_numeric.
Qed.

Lemma join_head (p : Py.str) (ps : list Py.str) :
  ∃ rest, Py.join py" " (p :: ps) = p ++ rest ∧ (rest = [] ∨ ∃ t, rest = 32 :: t).
Proof.
  destruct ps as [|q ps].
  - exists []. cbn [Py.join]. split; [by rewrite app_nil_r | by left].
  - eexists. split; [reflexivity |]. right. eauto.
Qed.

Lemma bracket_not_numeric (t : Py.str) : ¬ numeric_head (91 :: t).
Proof.
  intros [Hh | Hh]%numeric_head_first.
  - by rewrite (not_decimal 91) in Hh.
  - unfold ord in Hh. simpl in Hh. lia.
Qed.

Lemma apply_rule_not_numeric (ρ : rule) (key s : Py.str) :
  ¬ numeric_head (apply_rule ρ key s).
Proof.
  destruct ρ; cbn [apply_rule]; try apply mask_at_not_numeric;
    try apply bracket_not_numeric.
  - case_bool_decide as Hl; [| apply xs_not_numeric].
    blocked 2%nat 88.
    unfold Py.slice_to, Py.xs. rewrite lookup_app_r; rewrite length_take; [| lia].
    replace (2 - 2 `min` length s)%nat with 0%nat by lia.
    destruct (length s - 4)%nat eqn:E; [lia | reflexivity].
  - case_bool_decide as Hl; [| apply xs_not_numeric].
    blocked 3%nat 88.
    unfold Py.slice_to, Py.xs. rewrite lookup_app_r; rewrite length_take; [| lia].
    replace (3 - 3 `min` length s)%nat with 0%nat by lia. reflexivity.
  - case_bool_decide as Hl; [| apply xs_not_numeric].
    blocked 1%nat 88.
    unfold Py.slice_to, Py.xs. rewrite lookup_app_r; rewrite length_take; [| lia].
    replace (1 - 1 `min` length s)%nat with 0%nat by lia.
    destruct (length s - 2)%nat eqn:E; [lia | reflexivity].
  - destruct (Py.split_ws is_space s) as [|p ps]; cbn [fmap list_fmap].
    + intros Hh%numeric_head_length. simpl in Hh. lia.
    + destruct (join_head (initial_mask p) (initial_mask <$> ps)) as (rest & -> & Hrest).
      by apply initial_mask_not_numeric.
  - rewrite <- (app_nil_r (initial_mask s)). apply initial_mask_not_numeric. by left.
Qed.

(** X10. Whatever the key and the value, a masked text is never accepted
    by the phone, the aadhar or the passport recognizer. *)
Theorem masked_text_is_not_numeric (key : Py.str) (v : pyvalue) (out : Py.str) :
  mask_value key v = Ok (VStr out) →
  is_phone_number (VStr out) = Ok false
  ∧ is_aadhar (VStr out) = Ok false
  ∧ is_passport (VStr out) = false.
Proof.
  intros Hm.
  assert (Hn : ¬ numeric_head out).
  { destruct (decide (v = VNone)) as [-> | Hv]; [done |].
    destruct (string_form key v) as [s|e] eqn:Es.
    - rewrite (mask_value_dispatch key v s Hv Es) in Hm. injection Hm as <-.
      apply apply_rule_not_numeric.
    - by rewrite (mask_value_raises key v e Hv Es) in Hm. }
  rewrite is_phone_number_str, is_aadhar_str. unfold is_passport. cbn [py_str].
  split_and!.
  - f_equal. apply not_true_is_false.
    intros (p & rest & -> & Hp & _)%phone_pattern_iff.
    apply Hn. by apply phone_shape_head.
  - f_equal. apply not_true_is_false.
    intros (p & rest & -> & Hp & _)%aadhar_pattern_iff.
    apply Hn. by apply aadhar_shape_head.
  - apply not_true_is_false.
    intros (p & rest & -> & Hp & _)%passport_pattern_iff.
    apply Hn. by apply passport_shape_head.
Qed.

End Masked_not_numeric.

(** The masked phone number ["98XXXXXX10"] is no phone number. *)
Lemma masked_text_is_not_numeric_witness :
  is_phone_number (U:=basic_latin) (VStr py"98XXXXXX10") = Ok false
  ∧ is_aadhar (U:=basic_latin) (VStr py"98XXXXXX10") = Ok false
  ∧ is_passport (U:=basic_latin) (VStr py"98XXXXXX10") = false.
Proof.
  apply (masked_text_is_not_numeric (U:=basic_latin) py"phone"
           (VStr py"9876543210") py"98XXXXXX10").
  vm_compute; reflexivity.
Defined.

(** ** The three numeric recognizers exclude each other *)

Section Exclusive.
Context {U : Unicode}.
Import Re.

Lemma capital_not_decimal (c : Py.char) :
  ord "A" ≤ c ≤ ord "Z" → is_decimal c = false.
Proof.
  unfold ord. simpl. intros H. apply not_decimal; [lia |].
  unfold Py.digit_of. destruct (N.leb_spec 48 c), (N.leb_spec c 57); simpl; lia || done.
Qed.

Lemma phone_excludes_aadhar (s : Py.str) :
  re_match phone_pattern s = true → re_match aadhar_pattern s = true → False.
Proof.
  intros (p1 & r1 & -> & (d & ds & -> & _ & Hlen & _) & Hend)%phone_pattern_iff
         (p2 & r2 & Heq & [Hlen2 Hp2] & _)%aadhar_pattern_iff.
  assert (Hat : ((d :: ds) ++ r1) !! 10%nat = head r1).
  { rewrite lookup_app_r by (simpl; lia).
    replace (10 - length (d :: ds))%nat with 0%nat by (simpl; lia).
    by destruct r1. }
  rewrite Heq, lookup_app_l in Hat by lia.
  destruct (p2 !! 10%nat) as [c|] eqn:Ec.
  2:{ apply lookup_ge_None in Ec. lia. }
  unfold digits in Hp2. rewrite Forall_forall in Hp2.
  pose proof (Hp2 c (list_elem_of_lookup_2 _ _ _ Ec)) as Hc.
  unfold ends_here in Hend. rewrite <- Hat in Hend. cbn [word_at] in Hend.
  by rewrite (word_of_decimal c Hc) in Hend.
Qed.

Lemma passport_excludes_digits_first (s : Py.str) (c : Py.char) (t : Py.str) :
  re_match passport_pattern s = true → s = c :: t → is_decimal c = true → False.
Proof.
  intros (p & r & -> & (u & ds & -> & Hu & _) & _)%passport_pattern_iff [= -> _] Hc.
  by rewrite (capital_not_decimal c Hu) in Hc.
Qed.

(** X11. No string is accepted by two of the phone, aadhar and passport
    recognizers, so the order in which the [if]/[elif] chains try them does
    not change which one a value falls under. *)
Theorem numeric_recognizers_exclude_each_other (s : Py.str) :
  (is_phone_number (VStr s) = Ok true →
     is_aadhar (VStr s) = Ok false ∧ is_passport (VStr s) = false)
  ∧ (is_aadhar (VStr s) = Ok true → is_passport (VStr s) = false).
Proof.
  rewrite is_phone_number_str, is_aadhar_str. unfold is_passport. cbn [py_str].
  split.
  - intros [= Hp]. split.
    + f_equal. apply not_true_is_false. intros Ha.
      exact (phone_excludes_aadhar s Hp Ha).
    + apply not_true_is_false. intros Hq.
      apply phone_pattern_iff in Hp as (p & r & -> & Hsh & _).
      destruct (phone_shape_head p r Hsh) as (c & ds & rest & Heq & _).
      destruct Hsh as (d & ds' & -> & Hd & _ & _).
      apply (passport_excludes_digits_first _ d (ds' ++ r) Hq eq_refl).
      rewrite decimal_ascii; unfold ord in Hd; simpl in Hd; [| lia].
      unfold Py.digit_of.
      destruct (N.leb_spec 48 d), (N.leb_spec d 57); simpl; lia || done.
  - intros [= Ha]. apply not_true_is_false. intros Hq.
    apply aadhar_pattern_iff in Ha as (p & r & -> & [Hlen Hp] & _).
    destruct p as [|c p]; [simpl in Hlen; lia |].
    apply Forall_cons in Hp as [Hc _].
    exact (passport_excludes_digits_first _ c (p ++ r) Hq eq_refl Hc).
Qed.

End Exclusive.

(** ** The name rule *)

Section Name_rule.
Context {U : Unicode}.
Import Re.

Lemma split_ws_word (sp : Py.char → bool) (w rest : Py.str) :
  w ≠ [] → Forall (λ c, sp c = false) w →
  (rest = [] ∨ ∃ x t, rest = x :: t ∧ sp x = true) →
  Py.split_ws sp (w ++ rest) = w :: Py.split_ws sp rest.
Proof.
  intros Hne Hw Hrest. induction w as [|c w IH]; [done |].
  apply Forall_cons in Hw as [Hc Hw]. cbn [app Py.split_ws]. rewrite Hc.
  destruct w as [|d w].
  - cbn [app]. destruct Hrest as [-> | (x & t & -> & Hx)]; [done |].
    by rewrite Hx.
  - cbn [app] in *. pose proof Hw as Hw'. apply Forall_cons in Hw' as [Hd _].
    rewrite Hd. by rewrite IH.
Qed.

Lemma letter_not_space (c : Py.char) :
  ord "A" ≤ c ≤ ord "Z" ∨ ord "a" ≤ c ≤ ord "z" → is_space c = false.
Proof.
  unfold ord. simpl. intros H. rewrite space_ascii by lia. unfold Py.space_of.
  destruct (N.leb_spec 9 c), (N.leb_spec c 13), (N.leb_spec 28 c),
    (N.leb_spec c 32); simpl; lia || done.
Qed.

Lemma capitalized_word (u : Py.char) (l : Py.str) :
  capitalized u l →
  Forall (λ c, is_space c = false) (u :: l)
  ∧ Forall (λ c, c ≠ 64) (u :: l)
  ∧ ∃ c t, l = c :: t ∧ c < 128 ∧ Py.digit_of c = false.
Proof.
  intros (Hu & Hne & Hl). split_and!.
  - constructor; [apply letter_not_space; by left |].
    eapply Forall_impl; [exact Hl |]. intros c Hc. apply letter_not_space. by right.
  - constructor; [unfold ord in Hu; simpl in Hu; lia |].
    eapply Forall_impl; [exact Hl |]. intros c Hc. cbv beta in Hc.
    unfold ord in Hc. simpl in Hc. lia.
  - destruct l as [|c t]; [done |]. apply Forall_cons in Hl as [Hc _].
    exists c, t. unfold ord in Hc. simpl in Hc. split_and!; [done | lia |].
    unfold Py.digit_of. destruct (N.leb_spec 48 c), (N.leb_spec c 57); simpl; lia || done.
Qed.

Lemma numeric_pattern_head (s : Py.str) :
  re_match phone_pattern s = true ∨ re_match aadhar_pattern s = true
  ∨ re_match passport_pattern s = true →
  numeric_head s.
Proof.
  intros [H | [H | H]].
  - apply phone_pattern_iff in H as (p & r & -> & Hp & _). by apply phone_shape_head.
  - apply aadhar_pattern_iff in H as (p & r & -> & Hp & _). by apply aadhar_shape_head.
  - apply passport_pattern_iff in H as (p & r & -> & Hp & _).
    by apply passport_shape_head.
Qed.

Lemma at_pattern_has_at (s : Py.str) :
  re_match upi_pattern s = true ∨ re_match email_pattern s = true → 64 ∈ s.
Proof.
  intros [H | H].
  - apply upi_pattern_iff in H as (p & r & -> & (loc & h & -> & _) & _).
    rewrite !elem_of_app. left. right. left.
  - apply email_pattern_iff in H
      as (_ & p & r & -> & (loc & dom & tld & -> & _) & _).
    rewrite !elem_of_app. left. right. left.
Qed.

Lemma false_of_not (b : bool) (P : Prop) : (b = true → P) → ¬ P → b = false.
Proof. intros H Hn. destruct b; [| done]. exfalso. auto. Qed.

(** X12. Under the key [name], the text of a full name is masked to the two
    initials, each followed by one [X] for every other letter, with the
    space between them; a final newline, which the pattern lets through, is
    dropped. *)
Theorem full_name_is_masked_to_initials (u1 : Py.char) (l1 : Py.str)
    (u2 : Py.char) (l2 tail : Py.str) :
  capitalized u1 l1 → capitalized u2 l2 → tail = [] ∨ tail = [10] →
  mask_value k_name (VStr (full_name_text u1 l1 u2 l2 tail))
  = Ok (VStr (u1 :: Py.xs (length l1) ++ ord " " :: u2 :: Py.xs (length l2))).
Proof.
  intros H1 H2 Htail. unfold full_name_text.
  set (s := u1 :: l1 ++ ord " " :: u2 :: l2 ++ tail).
  destruct (capitalized_word u1 l1 H1) as (Hs1 & Ha1 & c1 & t1 & El1 & Hc1 & Hd1).
  destruct (capitalized_word u2 l2 H2) as (Hs2 & Ha2 & c2 & t2 & El2 & Hc2 & Hd2).
  assert (Hname : re_match name_pattern s = true).
  { apply name_pattern_iff. exists (u1 :: l1 ++ ord " " :: u2 :: l2). split.
    - exists u1, l1, u2, l2. done.
    - unfold s. destruct Htail as [-> | ->]; [left | right].
      + by rewrite app_nil_r.
      + repeat (progress (cbn [app]; rewrite <- ?app_assoc)). done. }
  assert (Hnum : ¬ numeric_head s).
  { apply (blocked_by s 1 c1); [lia | | done | done]. unfold s. by rewrite El1. }
  assert (Hat : 64 ∉ s).
  { unfold s. intros Hin. apply elem_of_cons in Hin as [Hin | Hin].
    { apply Forall_cons in Ha1 as [? _]. done. }
    apply elem_of_app in Hin as [Hin | Hin].
    { apply Forall_cons in Ha1 as [_ Ha1]. rewrite Forall_forall in Ha1.
      by apply (Ha1 64). }
    apply elem_of_cons in Hin as [Hin | Hin]; [done |].
    apply elem_of_app_cons_r in Hin || idtac.
    change (64 ∈ (u2 :: l2) ++ tail) in Hin. apply elem_of_app in Hin as [Hin | Hin].
    { rewrite Forall_forall in Ha2. by apply (Ha2 64). }
    destruct Htail as [-> | ->]; [inversion Hin |].
    by apply list_elem_of_singleton in Hin. }
  assert (Hdis : dispatch k_name s = RName).
  { unfold dispatch, is_passport, is_upi_id, is_email, is_full_name. cbn [py_str].
    rewrite (false_of_not (re_match phone_pattern s) (numeric_head s));
      [| intros; apply numeric_pattern_head; auto | done].
    rewrite (false_of_not (re_match aadhar_pattern s) (numeric_head s));
      [| intros; apply numeric_pattern_head; auto | done].
    rewrite (false_of_not (re_match passport_pattern s) (numeric_head s));
      [| intros; apply numeric_pattern_head; auto | done].
    rewrite (false_of_not (re_match upi_pattern s) (64 ∈ s));
      [| intros; apply at_pattern_has_at; auto | done].
    rewrite (false_of_not (re_match email_pattern s) (64 ∈ s));
      [| intros; apply at_pattern_has_at; auto | done].
    rewrite Hname. reflexivity. }
  rewrite (mask_value_dispatch k_name (VStr s) s); [| done | reflexivity].
  rewrite Hdis. cbn [apply_rule]. do 2 f_equal.
  assert (Hsplit : Py.split_ws is_space s = [u1 :: l1; u2 :: l2]).
  { unfold s. change (u1 :: l1 ++ ord " " :: u2 :: l2 ++ tail)
      with ((u1 :: l1) ++ ord " " :: (u2 :: l2) ++ tail).
    assert (Hsp : is_space (ord " ") = true) by (by rewrite space_ascii).
    assert (Hnl : is_space 10 = true) by (by rewrite space_ascii).
    rewrite split_ws_word; [| done | done | right; eauto]. f_equal.
    cbn [Py.split_ws]. rewrite Hsp.
    rewrite split_ws_word; [| done | done |].
    - f_equal. destruct Htail as [-> | ->]; [done |]. cbn [Py.split_ws].
      by rewrite Hnl.
    - destruct Htail as [-> | ->]; [by left | right; eauto]. }
  rewrite Hsplit. cbn [fmap list_fmap Py.join]. rewrite El1, El2.
  cbn [initial_mask app]. reflexivity.
Qed.

End Name_rule.

(** ["Ravi Kumar"] followed by a newline gives ["RXXX KXXXX"]. *)
Lemma full_name_is_masked_to_initials_witness :
  mask_value (U:=basic_latin) k_name
    (VStr (full_name_text (ord "R") py"avi" (ord "K") py"umar" [10]))
  = Ok (VStr (ord "R" :: Py.xs (length py"avi")
              ++ ord " " :: ord "K" :: Py.xs (length py"umar"))).
Proof.
  apply (full_name_is_masked_to_initials (U:=basic_latin)
           (ord "R") py"avi" (ord "K") py"umar" [10]).
  - split; [vm_compute; split; discriminate |].
    split; [discriminate | repeat constructor; vm_compute; discriminate].
  - split; [vm_compute; split; discriminate |].
    split; [discriminate | repeat constructor; vm_compute; discriminate].
  - right. reflexivity.
Defined.

(** * The loop over the rows *)

Section Row_loop.
Context {U : Unicode}.
Context (cell label : Type).
Context (json_loads : cell → result dict) (json_dumps : dict → cell).
Import Main.

Local Abbreviation row := (Main.row cell label).
Local Abbreviation out_row := (Main.out_row cell label).
Local Abbreviation message := (Main.message cell label).
Local Abbreviation loop_body := (Main.loop_body cell label json_loads json_dumps).
Local Abbreviation loop := (Main.loop cell label json_loads json_dumps).

(** What the handler appends and prints for a row. *)
Lemma loop_body_except (out : list out_row) (printed : list message) (r : row)
    (h : heap) :
  ∃ h' o printed',
    loop_body out printed r h = (h', Ok (out ++ [o], printed'))
    ∧ record_id _ _ o = row_get_record_id _ _ r
    ∧ ((is_pii _ _ o = false ∧ redacted_data_json _ _ o = row_json _ _ r)
       ∨ (printed' = printed ∧ ∃ c, row_record_id _ _ r = Some c)).
Proof.
  unfold Main.loop_body, try_except, row_getitem_record_id, row_get_record_id.
  rewrite bind_run. unfold lift at 1.
  destruct (row_record_id _ _ r) as [c|]; [| eexists _, _, _; split; [reflexivity |];
                                              split; [done | by left]].
  rewrite bind_run. unfold lift at 1.
  destruct (json_loads (row_json _ _ r)) as [d|e];
    [| eexists _, _, _; split; [reflexivity |]; split; [done | by left]].
  rewrite bind_run. unfold alloc at 1.
  rewrite bind_run, (process_record_exact (length h) (h ++ [d]) d (lookup_snoc h d)).
  destruct (redacted d) as [[b red]|e] eqn:Er;
    [| eexists _, _, _; split; [reflexivity |]; split; [done | by left]].
  rewrite bind_run.
  assert (Hread : read (length (h ++ [d])) ((h ++ [d]) ++ [final_copy d])
                  = ((h ++ [d]) ++ [final_copy d], Ok (final_copy d))).
  { apply read_run, lookup_snoc. }
  rewrite Hread. eexists _, _, _. split; [reflexivity |]. split; [done |].
  right. eauto.
Qed.

Lemma loop_body_without_record_id (out : list out_row) (printed : list message)
    (r : row) (h : heap) :
  row_record_id _ _ r = None →
  loop_body out printed r h
  = (h, Ok (out ++ [OutRow _ _ (inr (row_index _ _ r)) (row_json _ _ r) false],
            printed ++ [Error_processing _ _ (inr (row_index _ _ r)) KeyError])).
Proof.
  intros Hr. unfold Main.loop_body, try_except, row_getitem_record_id,
    row_get_record_id. rewrite bind_run. unfold lift at 1. by rewrite Hr.
Qed.

(** X13. The loop appends exactly one row to [out] for every row of the
    frame, in the order of the frame and with the row's record id (the
    index label when there is no such column); no row makes it raise. *)
Theorem one_output_row_per_row (rows : list row) (out : list out_row)
    (printed : list message) (h : heap) :
  ∃ h' out' printed',
    loop rows out printed h = (h', Ok (out ++ out', printed'))
    ∧ record_id _ _ <$> out' = row_get_record_id _ _ <$> rows.
Proof.
  revert out printed h. induction rows as [|r rows IH]; intros out printed h.
  - exists h, [], printed. cbn [Main.loop]. by rewrite app_nil_r.
  - cbn [Main.loop]. rewrite bind_run.
    destruct (loop_body_except out printed r h) as (h1 & o & p1 & -> & Hid & _).
    destruct (IH (out ++ [o]) p1 h1) as (h2 & out2 & p2 & -> & Hids).
    exists h2, (o :: out2), p2. split.
    + by rewrite <- app_assoc.
    + cbn [fmap list_fmap]. by rewrite Hid, <- Hids.
Qed.

(** X14. When the frame has no [record_id] column, nothing is classified
    or masked: every row comes out with its index label, the JSON of the
    input as it was and [is_pii] false, and a KeyError is printed for it;
    the store is not touched. *)
Theorem without_record_id_nothing_is_redacted (rows : list row)
    (out : list out_row) (printed : list message) (h : heap) :
  Forall (λ r, row_record_id _ _ r = None) rows →
  loop rows out printed h
  = (h, Ok (out ++ ((λ r, OutRow _ _ (inr (row_index _ _ r)) (row_json _ _ r) false)
                    <$> rows),
            printed ++ ((λ r, Error_processing _ _ (inr (row_index _ _ r)) KeyError)
                        <$> rows))).
Proof.
  intros Hrows. revert out printed.
  induction Hrows as [|r rows Hr _ IH]; intros out printed.
  - cbn [Main.loop fmap list_fmap]. by rewrite !app_nil_r.
  - cbn [Main.loop]. rewrite bind_run, (loop_body_without_record_id _ _ _ _ Hr).
    rewrite IH. cbn [fmap list_fmap]. by rewrite <- !app_assoc.
Qed.

(** X15. A row whose payload decodes to a record with an infinite or NaN
    float under [phone] or [aadhar] comes out with the JSON of the input as
    it was and [is_pii] false, although the record has a field the
    standalone classifier flags by its name; the exception is printed. *)
Theorem raising_record_comes_out_unredacted (r : row) (id : cell) (d : dict)
    (k : Py.str) (v : pyvalue) (out : list out_row) (printed : list message)
    (h : heap) :
  row_record_id _ _ r = Some id → json_loads (row_json _ _ r) = Ok d →
  well_formed d → (k, v) ∈ d → int_fails (k, v) = true →
  (∃ fs, detect_standalone_pii d = Ok (true, fs) ∧ k ∈ fs)
  ∧ ∃ h' e,
      loop_body out printed r h
      = (h', Ok (out ++ [OutRow _ _ (inl id) (row_json _ _ r) false],
                printed ++ [Error_processing _ _ (inl id) e])).
Proof.
  intros Hid Hd Hwf Hin Hf. split.
  { destruct (int_fails_raises k v Hf) as [Hv _].
    apply (named_listed d k v Hin Hv). by eapply int_fails_key. }
  unfold Main.loop_body, try_except, row_getitem_record_id, row_get_record_id.
  rewrite bind_run. unfold lift at 1. rewrite Hid.
  rewrite bind_run. unfold lift at 1. rewrite Hd.
  rewrite bind_run. unfold alloc at 1.
  rewrite bind_run.
  destruct (process_record_raises (length h) (h ++ [d]) d k v
              (lookup_snoc h d) Hwf Hin Hf) as [e He].
  destruct (process_record (length h) (h ++ [d])) as [h1 o]. cbn [snd] in He.
  subst o. eauto.
Qed.

Lemma redacted_returns (d : dict) :
  convertible d → ∃ b red, redacted d = Ok (b, red).
Proof.
  intros Hd. unfold redacted.
  destruct (existsb flagged d || bool_decide (2 ≤ signal_count d)%nat); [| eauto].
  destruct (redact_ok (standalone_fields d) d Hd) as (d1 & -> & Hd1).
  cbn [mbind result_bind].
  destruct (bool_decide (2 ≤ signal_count d)%nat).
  - destruct (redact_ok (combinatorial_fields d) d1 Hd1) as (d2 & -> & _). eauto.
  - eauto.
Qed.

(** X16. A row with a record id whose payload decodes to a record without
    a float that is not finite under [phone] or [aadhar] is classified:
    one row is appended with that id, with [is_pii] the disjunction of the
    flags of the two classifiers, and with the JSON of a record that has
    the keys of the decoded one, in their order; nothing is printed. When
    [is_pii] is false that record is the decoded one, so the row carries
    the payload encoded again, not the text of the cell. *)
Theorem decodable_row_is_classified (r : row) (id : cell) (d : dict)
    (out : list out_row) (printed : list message) (h : heap) :
  row_record_id _ _ r = Some id → json_loads (row_json _ _ r) = Ok d →
  convertible d →
  ∃ s fs c gs n red h',
    detect_standalone_pii d = Ok (s, fs)
    ∧ detect_combinatorial_pii d = Ok (c, gs, n)
    ∧ loop_body out printed r h
      = (h', Ok (out ++ [OutRow _ _ (inl id) (json_dumps red) (s || c)], printed))
    ∧ keys red = keys d
    ∧ (s || c = false → red = d).
Proof.
  intros Hid Hd Hc. destruct (redacted_returns d Hc) as (b & red & Hred).
  eexists _, _, _, _, _, red, _.
  split; [apply detect_standalone_pii_eq |].
  split; [apply detect_combinatorial_pii_eq |].
  rewrite <- (redacted_flag d red b Hred). split_and!.
  - unfold Main.loop_body, try_except, row_getitem_record_id.
    rewrite bind_run. unfold lift at 1. rewrite Hid.
    rewrite bind_run. unfold lift at 1. rewrite Hd.
    rewrite bind_run. unfold alloc at 1.
    rewrite bind_run, (process_record_exact (length h) (h ++ [d]) d (lookup_snoc h d)).
    rewrite Hred, bind_run, (final_copy_redacted d red b Hred).
    assert (Hread : read (length (h ++ [d])) ((h ++ [d]) ++ [red])
                    = ((h ++ [d]) ++ [red], Ok red)).
    { apply read_run, lookup_snoc. }
    by rewrite Hread.
  - by rewrite <- (final_copy_redacted d red b Hred), final_copy_keys.
  - intros ->. by apply redacted_not_pii.
Qed.

End Row_loop.

(** A frame of two rows without the [record_id] column. *)
Lemma without_record_id_nothing_is_redacted_witness :
  Main.loop (U:=basic_latin) sample_cell nat sample_loads sample_dumps
    rows_without_record_id [] [] []
  = ([], Ok ([] ++ ((λ r, Main.OutRow _ _ (inr (Main.row_index _ _ r))
                            (Main.row_json _ _ r) false)
                    <$> rows_without_record_id),
             [] ++ ((λ r, Main.Error_processing _ _ (inr (Main.row_index _ _ r))
                            KeyError)
                    <$> rows_without_record_id))).
Proof.
  apply (without_record_id_nothing_is_redacted (U:=basic_latin) sample_cell nat
           sample_loads sample_dumps rows_without_record_id [] [] []).
  repeat constructor.
Defined.

(** The row of the record [{phone: inf}]. *)
Lemma raising_record_comes_out_unredacted_witness :
  (∃ fs, detect_standalone_pii (U:=basic_latin) infinite_phone = Ok (true, fs)
         ∧ k_phone ∈ fs)
  ∧ ∃ h' e,
      Main.loop_body (U:=basic_latin) sample_cell nat sample_loads sample_dumps
        [] [] row_with_infinite_phone []
      = (h', Ok ([] ++ [Main.OutRow _ _ (inl (Not_json py"r1"))
                          (Payload infinite_phone) false],
                 [] ++ [Main.Error_processing _ _ (inl (Not_json py"r1")) e])).
Proof.
  apply (raising_record_comes_out_unredacted (U:=basic_latin) sample_cell nat
           sample_loads sample_dumps row_with_infinite_phone (Not_json py"r1")
           infinite_phone k_phone (VFloat (FInf false)) [] [] []).
  - reflexivity.
  - reflexivity.
  - repeat constructor. by intros ?%elem_of_nil.
  - by left.
  - reflexivity.
Defined.

(** The row of the record [{phone: "9876543210", name: "Ravi Kumar"}]. *)
Lemma decodable_row_is_classified_witness :
  ∃ s fs c gs n red h',
    detect_standalone_pii (U:=basic_latin) phone_and_name = Ok (s, fs)
    ∧ detect_combinatorial_pii (U:=basic_latin) phone_and_name = Ok (c, gs, n)
    ∧ Main.loop_body (U:=basic_latin) sample_cell nat sample_loads sample_dumps
        [] [] row_with_phone_and_name []
      = (h', Ok ([] ++ [Main.OutRow _ _ (inl (Not_json py"r1"))
                          (sample_dumps red) (s || c)], []))
    ∧ keys red = keys phone_and_name
    ∧ (s || c = false → red = phone_and_name).
Proof.
  apply (decodable_row_is_classified (U:=basic_latin) sample_cell nat
           sample_loads sample_dumps row_with_phone_and_name (Not_json py"r1")
           phone_and_name [] [] []).
  - reflexivity.
  - reflexivity.
  - repeat constructor.
Defined.

(** * The recognizers on numbers *)

Section Numbers.
Context {U : Unicode}.
Import Re.

Lemma uint_chars_digits (u : Decimal.uint) : ascii_digits (Py.uint_chars u).
Proof. induction u; cbn [Py.uint_chars]; constructor; done || lia. Qed.

Lemma of_uint_acc_value (u : Decimal.uint) (acc : positive) :
  Z.pos (Pos.of_uint_acc u acc) = fold_left decimal_step (Py.uint_chars u) (Z.pos acc).
Proof.
  revert acc. induction u; intros acc; cbn [Pos.of_uint_acc Py.uint_chars fold_left];
    [done | rewrite IHu; f_equal; unfold decimal_step; lia ..].
Qed.

Lemma of_uint_value (u : Decimal.uint) :
  Z.of_N (Pos.of_uint u) = decimal_value (Py.uint_chars u).
Proof.
  unfold decimal_value.
  induction u; cbn [Pos.of_uint Py.uint_chars fold_left]; [done | ..];
    try (cbn [Z.of_N]; rewrite of_uint_acc_value; f_equal; unfold decimal_step; lia).
  rewrite IHu. f_equal.
Qed.

Lemma decimal_value_of_pos (p : positive) :
  decimal_value (Py.uint_chars (Pos.to_uint p)) = Z.pos p.
Proof. by rewrite <- of_uint_value, DecimalPos.Unsigned.of_to. Qed.

Lemma to_uint_head (p : positive) :
  ∃ c cs, Py.uint_chars (Pos.to_uint p) = c :: cs ∧ 49 ≤ c ≤ 57.
Proof.
  pose proof (DecimalPos.Unsigned.to_of (Pos.to_uint p)) as H.
  rewrite DecimalPos.Unsigned.of_to in H. cbn [N.to_uint] in H.
  pose proof (DecimalPos.Unsigned.to_uint_nonzero p) as Hnz.
  pose proof (DecimalPos.Unsigned.to_uint_nonnil p) as Hnn.
  destruct (Pos.to_uint p) as [|u|u|u|u|u|u|u|u|u|u] eqn:E; [done | |
    cbn [Py.uint_chars]; eexists _, _; (split; [reflexivity | lia]) ..].
  exfalso. unfold Decimal.unorm in H. rewrite DecimalFacts.nzhead_D0 in H.
  destruct (Decimal.nzhead u) eqn:En; try done.
  by apply DecimalFacts.nzhead_nonzero in En.
Qed.

Lemma decimal_fold (s : Py.str) (a : Z) :
  ascii_digits s →
  ∃ v, fold_left decimal_step s a = (a * 10 ^ Z.of_nat (length s) + v)%Z
       ∧ (0 ≤ v < 10 ^ Z.of_nat (length s))%Z.
Proof.
  intros Hs. revert a. induction Hs as [|c s Hc _ IH]; intros a.
  - exists 0%Z. cbn. lia.
  - cbn [fold_left length]. destruct (IH (decimal_step a c)) as (v & -> & Hv).
    rewrite Nat2Z.inj_succ, Z.pow_succ_r by lia. unfold decimal_step.
    exists ((Z.of_N c - 48) * 10 ^ Z.of_nat (length s) + v)%Z. split; [lia |]. nia.
Qed.

Lemma digit_is_decimal (c : Py.char) : 48 ≤ c ≤ 57 → is_decimal c = true.
Proof.
  intros Hc. rewrite decimal_ascii by lia. unfold Py.digit_of.
  apply andb_true_iff. split; apply N.leb_le; lia.
Qed.

Lemma ascii_digits_digits (s : Py.str) : ascii_digits s → digits s.
Proof. intros H. eapply Forall_impl; [exact H | apply digit_is_decimal]. Qed.

(** A text of digits has no position, except its end, that [\b] accepts
    after a digit. *)
Lemma ascii_digits_end (p rest : Py.str) :
  ascii_digits (p ++ rest) → ends_here rest → rest = [].
Proof.
  intros [_ Hr]%Forall_app He. destruct rest as [|x rest]; [done |].
  apply Forall_cons in Hr as [Hx _]. unfold ends_here in He. cbn in He.
  by rewrite (word_of_decimal x (digit_is_decimal x Hx)) in He.
Qed.

(** The text of a positive integer: a first digit that is not zero, then
    digits, and the number is what they write in base ten. *)
Lemma positive_text (p : positive) :
  ∃ c cs v,
    Py.str_of_int (Z.pos p) = c :: cs ∧ 49 ≤ c ≤ 57 ∧ ascii_digits cs
    ∧ Z.pos p = ((Z.of_N c - 48) * 10 ^ Z.of_nat (length cs) + v)%Z
    ∧ (0 ≤ v < 10 ^ Z.of_nat (length cs))%Z.
Proof.
  destruct (to_uint_head p) as (c & cs & E & Hc).
  pose proof (uint_chars_digits (Pos.to_uint p)) as Hd. rewrite E in Hd.
  apply Forall_cons in Hd as [_ Hd].
  pose proof (decimal_value_of_pos p) as Hv. rewrite E in Hv.
  unfold decimal_value in Hv. cbn [fold_left] in Hv.
  destruct (decimal_fold cs (decimal_step 0 c) Hd) as (v & Hf & Hb).
  exists c, cs, v. split; [exact E |]. split; [done |]. split; [done |].
  split; [| done]. rewrite <- Hv, Hf. unfold decimal_step. lia.
Qed.

(** The text of an integer that is not positive is ["0"] or starts with
    the minus sign. *)
Lemma not_positive_text (n : Z) :
  (n ≤ 0)%Z → ∃ c cs, Py.str_of_int n = c :: cs ∧ (c = 48 ∨ c = 45) ∧ (c = 48 → cs = []).
Proof.
  destruct n as [|p|p]; [| lia |]; intros _.
  - exists 48, []. by split_and!; [| left |].
  - eexists 45, _. split; [reflexivity |]. split; [by right | done].
Qed.

(** The number of digits of a positive integer. *)
Lemma positive_text_length (p : positive) (k : nat) :
  (10 ^ Z.of_nat k ≤ Z.pos p < 10 ^ Z.of_nat (S k))%Z →
  ∃ c cs v,
    Py.str_of_int (Z.pos p) = c :: cs ∧ length cs = k ∧ 49 ≤ c ≤ 57
    ∧ ascii_digits cs
    ∧ Z.pos p = ((Z.of_N c - 48) * 10 ^ Z.of_nat k + v)%Z
    ∧ (0 ≤ v < 10 ^ Z.of_nat k)%Z.
Proof.
  intros Hr. destruct (positive_text p) as (c & cs & v & E & Hc & Hd & Hp & Hv).
  assert (Hk : length cs = k).
  { rewrite Nat2Z.inj_succ, Z.pow_succ_r in Hr by lia.
    destruct (Nat.lt_trichotomy (length cs) k) as [Hlt | [-> | Hgt]]; [| done |];
      exfalso.
    - assert (10 ^ Z.of_nat (S (length cs)) ≤ 10 ^ Z.of_nat k)%Z
        by (apply Z.pow_le_mono_r; lia).
      rewrite Nat2Z.inj_succ, Z.pow_succ_r in H by lia. nia.
    - assert (10 ^ Z.of_nat (S k) ≤ 10 ^ Z.of_nat (length cs))%Z
        by (apply Z.pow_le_mono_r; lia).
      rewrite Nat2Z.inj_succ, Z.pow_succ_r in H by lia. nia. }
  subst k. by exists c, cs, v.
Qed.

Lemma phone_pattern_of_int (n : Z) :
  re_match phone_pattern (Py.str_of_int n) = true ↔ phone_range n.
Proof.
  rewrite phone_pattern_iff. unfold phone_range. split.
  - intros (q & rest & Hs & (d & ds & -> & Hd & Hlen & Hds) & Hend).
    unfold ord in Hd. simpl in Hd.
    destruct (Z_le_gt_dec n 0) as [Hn | Hn].
    { destruct (not_positive_text n Hn) as (c & cs & E & Hc & _).
      rewrite E in Hs. injection Hs as -> _. lia. }
    destruct n as [|p|p]; try lia.
    destruct (positive_text p) as (c & cs & v & E & Hc & Hcs & Hp & Hv).
    rewrite E in Hs. injection Hs as -> ->.
    assert (rest = []) as -> by (by eapply ascii_digits_end).
    rewrite app_nil_r in Hp, Hv. rewrite Hlen in Hp, Hv.
    change (10 ^ Z.of_nat 9)%Z with 1000000000%Z in Hp, Hv. lia.
  - intros Hn. destruct n as [|p|p]; try lia.
    destruct (positive_text_length p 9) as (c & cs & v & E & Hlen & Hc & Hcs & Hp & Hv).
    { change (10 ^ Z.of_nat 9)%Z with 1000000000%Z.
      change (10 ^ Z.of_nat 10)%Z with 10000000000%Z. lia. }
    change (10 ^ Z.of_nat 9)%Z with 1000000000%Z in Hp, Hv.
    exists (c :: cs), []. rewrite app_nil_r. split; [done |]. split; [| done].
    exists c, cs. split; [done |]. split; [unfold ord; simpl; lia |].
    split; [done | by apply ascii_digits_digits].
Qed.

Lemma aadhar_pattern_of_int (n : Z) :
  re_match aadhar_pattern (Py.str_of_int n) = true ↔ twelve_digit_range n.
Proof.
  rewrite aadhar_pattern_iff. unfold twelve_digit_range. split.
  - intros (q & rest & Hs & [Hlen Hq] & Hend).
    destruct (Z_le_gt_dec n 0) as [Hn | Hn].
    { destruct (not_positive_text n Hn) as (c & cs & E & [-> | ->] & Hz).
      - rewrite (Hz eq_refl) in E. rewrite E in Hs.
        by destruct q as [|x [|y q]].
      - rewrite E in Hs. destruct q as [|x q]; [done |]. injection Hs as <- _.
        apply Forall_cons in Hq as [Hx _]. rewrite decimal_ascii in Hx by lia.
        done. }
    destruct n as [|p|p]; try lia.
    destruct (positive_text p) as (c & cs & v & E & Hc & Hcs & Hp & Hv).
    assert (rest = []) as ->.
    { apply (ascii_digits_end q); [| done]. rewrite <- Hs, E.
      apply Forall_cons. split; [lia | done]. }
    rewrite app_nil_r in Hs. subst q. rewrite E in Hlen. cbn [length] in Hlen.
    assert (length cs = 11%nat) as Hl by lia. rewrite Hl in Hp, Hv.
    change (10 ^ Z.of_nat 11)%Z with 100000000000%Z in Hp, Hv. lia.
  - intros Hn. destruct n as [|p|p]; try lia.
    destruct (positive_text_length p 11) as (c & cs & v & E & Hlen & Hc & Hcs & Hp & Hv).
    { change (10 ^ Z.of_nat 11)%Z with 100000000000%Z.
      change (10 ^ Z.of_nat 12)%Z with 1000000000000%Z. lia. }
    exists (c :: cs), []. rewrite app_nil_r. split; [done |]. split; [| done].
    split; [cbn [length]; lia |]. apply ascii_digits_digits.
    apply Forall_cons. split; [lia | done].
Qed.

Lemma str_of_int_chars (n : Z) :
  Forall (λ c, c = 45 ∨ 48 ≤ c ≤ 57) (Py.str_of_int n).
Proof.
  assert (Hu : ∀ u, Forall (λ c, c = 45 ∨ 48 ≤ c ≤ 57) (Py.uint_chars u)).
  { intros u. eapply Forall_impl; [apply uint_chars_digits |]. by right. }
  unfold Py.str_of_int. destruct (Z.to_int n); [apply Hu |].
  apply Forall_cons. split; [by left | apply Hu].
Qed.

Lemma passport_pattern_of_int (n : Z) :
  re_match passport_pattern (Py.str_of_int n) = false.
Proof.
  apply not_true_is_false. rewrite passport_pattern_iff.
  intros (q & rest & Hs & (d & ds & -> & Hd & _) & _).
  pose proof (str_of_int_chars n) as Hc. rewrite Hs in Hc.
  apply Forall_cons in Hc as [Hc _]. unfold ord in Hd. simpl in Hd. lia.
Qed.

Lemma upi_pattern_of_int (n : Z) :
  re_match upi_pattern (Py.str_of_int n) = false.
Proof.
  apply not_true_is_false. rewrite upi_pattern_iff.
  intros (q & rest & Hs & (loc & h & -> & _) & _).
  pose proof (str_of_int_chars n) as Hc. rewrite Hs, <- !app_assoc in Hc.
  apply Forall_app in Hc as [_ Hc]. apply Forall_cons in Hc as [Hc _].
  unfold ord in Hc. simpl in Hc. lia.
Qed.

Lemma flagged_int (k : Py.str) (n : Z) :
  flagged (k, VInt n) = true
  ↔ k ∈ standalone_names ∨ phone_range n ∨ twelve_digit_range n.
Proof.
  unfold flagged, is_passport, is_upi_id. cbn [fst snd py_str]. cbv zeta.
  rewrite passport_pattern_of_int, upi_pattern_of_int, !orb_false_r.
  rewrite !orb_true_iff, !str_eqb_eq, phone_pattern_of_int, aadhar_pattern_of_int.
  unfold standalone_names. rewrite !elem_of_cons, elem_of_nil. tauto.
Qed.

(** X17. On a number, [is_phone_number] looks at the integer [int(v)]:
    when [str] can convert that integer, which it can for every float, the
    recognizer returns, and returns true exactly when the integer is
    between 6000000000 and 9999999999. *)
Theorem number_is_phone_iff_in_range (v : pyvalue) (n : Z) :
  is_number v = true → py_int v = Ok n → str_returns (VInt n) →
  ∃ b, is_phone_number v = Ok b ∧ (b = true ↔ phone_range n).
Proof.
  intros Hv Hn _. unfold is_phone_number, int_string. rewrite Hv, Hn.
  eexists. split; [reflexivity |]. apply phone_pattern_of_int.
Qed.

(** X18. On a number whose integer [int(v)] [str] can convert, [is_aadhar]
    returns, and returns true exactly when that integer has twelve digits:
    it is between 100000000000 and 999999999999. An aadhar number that
    starts with the digit 0 is not recognised as an integer. *)
Theorem number_is_aadhar_iff_twelve_digits (v : pyvalue) (n : Z) :
  is_number v = true → py_int v = Ok n → str_returns (VInt n) →
  ∃ b, is_aadhar v = Ok b ∧ (b = true ↔ twelve_digit_range n).
Proof.
  intros Hv Hn _. unfold is_aadhar, int_string. rewrite Hv, Hn.
  eexists. split; [reflexivity |]. apply aadhar_pattern_of_int.
Qed.

(** X19. In a record whose integers [str] can convert, a field with an
    integer value is listed by the standalone classifier exactly when its
    name is one of the four or the integer is in the phone range or has
    twelve digits, whatever the field is called; the passport and the UPI
    pattern match no integer. *)
Theorem integer_field_is_flagged_iff (data : dict) (k : Py.str) (n : Z) :
  well_formed data → str_returns_on data → (k, VInt n) ∈ data →
  ∃ flag fs,
    detect_standalone_pii data = Ok (flag, fs)
    ∧ (k ∈ fs ↔ k ∈ standalone_names ∨ phone_range n ∨ twelve_digit_range n).
Proof.
  intros Hwf _ Hin. eexists _, _. split; [apply detect_standalone_pii_eq |].
  unfold standalone_fields. rewrite filter_keys_elem_iff, <- flagged_int. split.
  - intros (v & Hv & Hf). pose proof (elem_find k v data Hwf Hv) as E.
    rewrite (elem_find k (VInt n) data Hwf Hin) in E. by injection E as ->.
  - intros Hf. by exists (VInt n).
Qed.

End Numbers.

(** The integer 9876543210. *)
Lemma number_is_phone_iff_in_range_witness :
  ∃ b, is_phone_number (U:=basic_latin) (VInt 9876543210) = Ok b
       ∧ (b = true ↔ phone_range 9876543210).
Proof.
  apply (number_is_phone_iff_in_range (U:=basic_latin) (VInt 9876543210)
           9876543210).
  - reflexivity.
  - reflexivity.
  - vm_compute; reflexivity.
Defined.

(** The float 123456789012.0. *)
Lemma number_is_aadhar_iff_twelve_digits_witness :
  ∃ b, is_aadhar (U:=basic_latin)
         (VFloat (FFinite py"123456789012.0" 123456789012 true)) = Ok b
       ∧ (b = true ↔ twelve_digit_range 123456789012).
Proof.
  apply (number_is_aadhar_iff_twelve_digits (U:=basic_latin)
           (VFloat (FFinite py"123456789012.0" 123456789012 true))
           123456789012).
  - reflexivity.
  - reflexivity.
  - vm_compute; reflexivity.
Defined.

(** The record [{customer_id: 9876543210}]. *)
Lemma integer_field_is_flagged_iff_witness :
  ∃ flag fs,
    detect_standalone_pii (U:=basic_latin) numeric_customer_id = Ok (flag, fs)
    ∧ (py"customer_id" ∈ fs
       ↔ py"customer_id" ∈ standalone_names ∨ phone_range 9876543210
         ∨ twelve_digit_range 9876543210).
Proof.
  apply (integer_field_is_flagged_iff (U:=basic_latin) numeric_customer_id
           py"customer_id" 9876543210).
  - repeat constructor. by intros ?%elem_of_nil.
  - apply Forall_cons. split; [vm_compute; reflexivity | constructor].
  - by left.
Defined.
